(** * Continuous multi-agent scenarios: drone team capture and predator-prey

    A shallow embedding of the two scenario models of the repository,
    [posggym/envs/continuous/drone_team_capture.py] and
    [posggym/envs/continuous/predator_prey.py], together with the
    properties their specification states about them.

    Floating-point values are modelled as real numbers ([R]); the one
    place where the IEEE behaviour itself is the subject (division by a
    zero distance) is modelled a second time over binary64 floats in
    [DTCFloat].  Python exceptions are values of [Py.Result].  The
    mutable attributes of a model object ([self.world], [self._rng]) are
    threaded explicitly through every method that touches them. *)

From Stdlib Require Import Reals Lra Lia String DecimalString.
From Stdlib Require Floats.
From stdpp Require Import base decidable option list.

(** ** Python and NumPy primitives used by the two models *)

Module Py.

(** The exceptions the modelled code can raise. *)
Inductive PyError : Type :=
| IndexError
| KeyError
| ValueError
| AssertionError
| ZeroDivisionError
| Exception.

(** A computation that either returns or raises. *)
Inductive Result (A : Type) : Type :=
| Ok (a : A)
| Raise (e : PyError).

Arguments Ok {A} a.
Arguments Raise {A} e.

#[global] Instance Result_ret : MRet Result := fun _ a => Ok a.

#[global] Instance Result_bind : MBind Result :=
  fun _ _ f r => match r with Ok a => f a | Raise e => Raise e end.

#[global] Instance Result_fmap : FMap Result :=
  fun _ _ f r => match r with Ok a => Ok (f a) | Raise e => Raise e end.

(** Methods that read or update attributes of [self]: the attribute
    record is passed in and handed back. *)
Definition Method (S A : Type) : Type := S -> Result (A * S).

Definition ret {S A} (a : A) : Method S A := fun s => Ok (a, s).

Definition bind {S A B} (c : Method S A) (f : A -> Method S B) : Method S B :=
  fun s => match c s with Ok (a, s') => f a s' | Raise e => Raise e end.

Notation "x <- c ; k" := (bind c (fun x : _ => k))
  (at level 20, c at level 100, k at level 200, only parsing).
Notation "' x <- c ; k" := (bind c (fun x : _ => k))
  (at level 20, x pattern, c at level 100, k at level 200, only parsing).

(** A pure, possibly raising step inside a method. *)
Definition lift {S A} (r : Result A) : Method S A :=
  fun s => match r with Ok a => Ok (a, s) | Raise e => Raise e end.

Definition get_self {S} : Method S S := fun s => Ok (s, s).

Definition put_self {S} (s : S) : Method S unit := fun _ => Ok (tt, s).

(** [assert b] *)
Definition py_assert (b : bool) : Result unit :=
  if b then Ok tt else Raise AssertionError.

(** [l[i]] for [0 <= i]: an index past the end raises [IndexError]. *)
Definition getitem {A} (l : list A) (i : nat) : Result A :=
  match l !! i with
  | Some a => Ok a
  | None => Raise IndexError
  end.

(** [d[str(i)]] for a dictionary keyed by agent ids, held as the list of
    its values: a missing key raises [KeyError]. *)
Definition getkey {A} (d : list A) (i : nat) : Result A :=
  match d !! i with
  | Some a => Ok a
  | None => Raise KeyError
  end.

(** [l[i] = v]: an index past the end raises [IndexError]. *)
Definition setitem {A} (l : list A) (i : nat) (v : A) : Result (list A) :=
  if decide (i < length l) then Ok (<[i:=v]> l) else Raise IndexError.

(** [range(n)] *)
Definition range (n : nat) : list nat := seq 0 n.

(** [str(i)] for a non-negative integer. *)
Definition str (i : nat) : string := NilEmpty.string_of_uint (Nat.to_uint i).

(** Comparisons on float values, read over the reals. *)
Definition Rltb (a b : R) : bool := if Rlt_dec a b then true else false.
Definition Rleb (a b : R) : bool := if Rle_dec a b then true else false.
Definition Reqb (a b : R) : bool := if Req_dec_T a b then true else false.

(** [min(l)]: the first smallest element; [ValueError] on an empty
    sequence. *)
Definition py_min (l : list R) : Result R :=
  match l with
  | [] => Raise ValueError
  | x :: l' => Ok (fold_left (fun m y => if Rltb y m then y else m) l' x)
  end.

(** [l.index(v)] counted from position [i]. *)
Fixpoint index_from (v : R) (l : list R) (i : nat) : Result nat :=
  match l with
  | [] => Raise ValueError
  | x :: l' => if Reqb x v then Ok i else index_from v l' (S i)
  end.

(** [l.index(v)]: the first position holding [v]. *)
Definition list_index (l : list R) (v : R) : Result nat := index_from v l 0.

(** [np.where(cond)[0]] for an elementwise condition, counted from
    position [i]. *)
Fixpoint where_from (cond : R -> bool) (l : list R) (i : nat) : list nat :=
  match l with
  | [] => []
  | x :: l' =>
      if cond x then i :: where_from cond l' (S i) else where_from cond l' (S i)
  end.

(** [np.where(l == v)[0]] *)
Definition np_where_eq (l : list R) (v : R) : list nat :=
  where_from (fun x => Reqb x v) l 0.

(** [np.where(l <= c)[0]] *)
Definition np_where_le (l : list R) (c : R) : list nat :=
  where_from (fun x => Rleb x c) l 0.

(** [np.where(l <= c, 1, 0).sum()] *)
Definition np_count_le (l : list R) (c : R) : nat :=
  length (filter (fun d => Rleb d c = true) l).

(** [np.linalg.norm([dx, dy])] *)
Definition np_linalg_norm (dx dy : R) : R := sqrt (dx * dx + dy * dy).

(** [Vec2d(v).rotated(a)] *)
Definition Vec2d_rotated (v : R * R) (a : R) : R * R :=
  (v.1 * cos a - v.2 * sin a, v.1 * sin a + v.2 * cos a)%R.

(** [enumerate(l)] *)
Definition enumerate {A} (l : list A) : list (nat * A) :=
  zip (seq 0 (length l)) l.

(** [math.atan2(y, x)] *)
Definition atan2 (y x : R) : R :=
  if Rltb 0 x then atan (y / x)
  else if Rltb x 0 then
    (if Rleb 0 y then atan (y / x) + PI else atan (y / x) - PI)
  else if Rltb 0 y then PI / 2
  else if Rltb y 0 then - (PI / 2)
  else 0.

(** Sort keys: a float or [float("inf")]. *)
Inductive Key : Type :=
| Fin (r : R)
| Inf.

Definition key_ltb (a b : Key) : bool :=
  match a, b with
  | Fin x, Fin y => Rltb x y
  | Fin _, Inf => true
  | Inf, _ => false
  end.

(** Insertion of [x] in front of the first element whose key is not
    smaller: [x] stays ahead of the elements it ties with. *)
Fixpoint insert_by {A} (key : A -> Key) (x : A) (l : list A) : list A :=
  match l with
  | [] => [x]
  | y :: l' =>
      if key_ltb (key y) (key x) then y :: insert_by key x l' else x :: y :: l'
  end.

(** [sorted(l, key=key)]: stable. *)
Definition sorted {A} (key : A -> Key) (l : list A) : list A :=
  foldr (insert_by key) [] l.

(** [for x in xs: acc = body(acc, x)] with a raising body. *)
Fixpoint for_each {S A} (xs : list A) (body : S -> A -> Result S) (acc : S)
  : Result S :=
  match xs with
  | [] => Ok acc
  | x :: xs' => acc' ← body acc x; for_each xs' body acc'
  end.

(** The same loop inside a method. *)
Fixpoint for_each_m {S A B} (xs : list A) (body : B -> A -> Method S B)
    (acc : B) : Method S B :=
  match xs with
  | [] => ret acc
  | x :: xs' => acc' <- body acc x; for_each_m xs' body acc'
  end.

End Py.

(** ** The simulation engine the scenarios are written against

    The engine modules ([posggym.envs.continuous.core], [core2],
    [posggym.model], [posggym.utils.seeding]) are not among the sources.
    The scenario code is embedded against their interface; what the
    specification promises about them is stated as laws of that
    interface. *)

Module Core.
Import Py.

(** The kinematic record of a body, a row [x, y, angle, vx, vy, vangle]
    of a state array (indices 0 to 5). *)
Record PMBodyState : Type := mkBody {
  st_x : R;
  st_y : R;
  st_angle : R;
  st_vx : R;
  st_vy : R;
  st_vangle : R
}.

(** [s[:2]] *)
Definition xy (s : PMBodyState) : R * R := (st_x s, st_y s).

(** A start position [(x, y, angle)]. *)
Definition Position : Type := (R * R * R)%type.

Definition pos_xy (p : Position) : R * R := (p.1.1, p.1.2).

(** A static circular block [((x, y, angle), radius)]. *)
Definition CircleEntity : Type := (Position * R)%type.

(** [spaces.Box(low, high)] *)
Record Box : Type := mkBox {
  low : list R;
  high : list R
}.

Inductive Outcome : Type :=
| WIN.

(** [M.JointTimestep]; a dictionary keyed by the agent ids ["0"], ["1"],
    ... is the list of its values in that order. *)
Record JointTimestep (St Ob : Type) : Type := mkTimestep {
  ts_state : St;
  ts_observations : list Ob;
  ts_rewards : list R;
  ts_terminations : list bool;
  ts_truncations : list bool;
  ts_all_done : bool;
  ts_infos : list (option Outcome)
}.

Arguments mkTimestep {St Ob}.
Arguments ts_state {St Ob}.
Arguments ts_observations {St Ob}.
Arguments ts_rewards {St Ob}.
Arguments ts_terminations {St Ob}.
Arguments ts_truncations {St Ob}.
Arguments ts_all_done {St Ob}.
Arguments ts_infos {St Ob}.

(** The static helpers of the world classes and the free functions of
    the engine. *)
Class CoreUtils : Type := {
  euclidean_dist : R * R -> R * R -> R;
  convert_angle_to_negpi_pi_interval : R -> R;
  (** [convert_into_interval(value, src_lo, src_hi, dst_lo, dst_hi)] *)
  convert_into_interval : R -> R -> R -> R -> R -> Result R;
  (** [linear_to_xy_velocity(speed, heading)] *)
  linear_to_xy_velocity : R -> R -> R * R;
  clip_actions : list (list R) -> list Box -> list (list R)
}.

(** What section 4.1 of the specification says of the helpers. *)
Class CoreUtilsLaws `{CoreUtils} : Prop := {
  (** the standard 2-norm *)
  euclidean_dist_norm : forall p q,
    euclidean_dist p q =
    sqrt ((p.1 - q.1) * (p.1 - q.1) + (p.2 - q.2) * (p.2 - q.2));
  (** any angle is mapped into (-pi, pi] *)
  negpi_pi_range : forall a,
    (- PI < convert_angle_to_negpi_pi_interval a <= PI)%R;
  (** exact for inputs already in range *)
  negpi_pi_exact : forall a,
    (- PI < a <= PI)%R -> convert_angle_to_negpi_pi_interval a = a;
  (** affine rescale of a value inside the source interval *)
  remap_within : forall v slo shi dlo dhi,
    (slo < shi)%R -> (slo <= v <= shi)%R ->
    convert_into_interval v slo shi dlo dhi =
    Ok (dlo + (v - slo) * (dhi - dlo) / (shi - slo))%R;
  (** outside the source interval the helper fails or clamps *)
  remap_bounded : forall v slo shi dlo dhi r,
    (slo < shi)%R -> (dlo <= dhi)%R ->
    convert_into_interval v slo shi dlo dhi = Ok r -> (dlo <= r <= dhi)%R;
  velocity_from_heading : forall speed heading,
    linear_to_xy_velocity speed heading =
    (speed * cos heading, speed * sin heading)%R
}.

(** The world object: a store of bodies with an integrator and a
    ray-cast sensor. *)
Class ContinuousWorld (W : Type) : Type := {
  (** [CircularContinuousWorld(size, agent_radius, blocks,
      enable_agent_collisions, border_thickness)] *)
  CircularContinuousWorld : R -> R -> list CircleEntity -> bool -> R -> W;
  (** [SquareContinuousWorld(size, blocks, agent_radius)] *)
  SquareContinuousWorld : R -> list CircleEntity -> R -> W;
  blocks : W -> list CircleEntity;
  agent_radius : W -> R;
  add_entity : string -> W -> Result W;
  set_entity_state : string -> PMBodyState -> W -> Result W;
  (** [update_entity_state(id, angle=..., vel=...)] *)
  update_entity_state : string -> option R -> option (R * R) -> W -> Result W;
  (** [simulate(dt, substeps)] *)
  simulate : R -> nat -> W -> Result W;
  get_entity_state : string -> W -> Result PMBodyState;
  (** [check_collision_circular_rays(origin, line_distance, n_lines,
      other_agents, include_blocks, check_border, use_relative_angle)] *)
  check_collision_circular_rays :
    W -> Position -> R -> nat -> option (list (R * R)) ->
    bool -> bool -> bool -> list R
}.

(** The output contract of the ray-cast sensor (section 4.3): one
    reading per sensor, each in [0, max_range]. *)
Class ContinuousWorldLaws (W : Type) `{ContinuousWorld W} : Prop := {
  rays_length : forall w origin d n others ib cb rel,
    length (check_collision_circular_rays w origin d n others ib cb rel) = n;
  rays_range : forall w origin d n others ib cb rel r,
    (0 <= d)%R ->
    r ∈ check_collision_circular_rays w origin d n others ib cb rel ->
    (0 <= r <= d)%R
}.

(** [random.Random] as returned by [seeding.std_random]; every draw
    returns the generator's next internal state.  [std_random] with no
    seed builds a generator from the entropy of the process. *)
Class RandomSource (G Amb : Type) : Type := {
  std_random : Amb -> G;
  rng_random : G -> R * G;
  rng_uniform : R -> R -> G -> R * G;
  rng_choice : list nat -> G -> Result (nat * G);
  rng_shuffle : forall {A : Type}, list A -> G -> list A * G
}.

(** What the scenario code relies on of [random.Random]: [choice]
    returns an element of a non-empty sequence and raises [IndexError]
    on an empty one, [shuffle] reorders its
    argument, and [random] draws from [0, 1) on every generator state
    [usable] holds of, the states a generator can be in. *)
Class RandomSourceLaws {G Amb : Type} `{RandomSource G Amb}
    (usable : G -> Prop) : Prop := {
  std_random_usable : forall amb, usable (std_random amb);
  random_usable : forall g, usable g -> usable (rng_random g).2;
  random_unit : forall g, usable g -> (0 <= (rng_random g).1 < 1)%R;
  choice_member : forall seq g,
    seq <> [] -> exists k g', rng_choice seq g = Ok (k, g') /\ k ∈ seq;
  choice_empty : forall g, rng_choice [] g = Raise IndexError;
  shuffle_permutation : forall (A : Type) (l : list A) g,
    (rng_shuffle l g).1 ≡ₚ l
}.

End Core.

(** ** The drone team capture model ([drone_team_capture.py]) *)

Module DTC.
Import Py Core.
#[local] Open Scope R_scope.

(** [DTCState] *)
Record DTCState : Type := mkState {
  pursuer_states : list PMBodyState;
  prev_pursuer_states : list PMBodyState;
  target_state : PMBodyState;
  prev_target_state : PMBodyState;
  target_vel : R
}.

Definition DTCAction : Type := list R.
Definition DTCObs : Type := list R.

Section Model.
Context {W G Amb : Type}.
Context `{CoreUtils} `{ContinuousWorld W} `{RandomSource G Amb}.

(** The attributes of a [DroneTeamCaptureModel] that depend on the
    constructor's arguments, with the two mutable ones, [world] and
    [_rng]. *)
Record DroneTeamCaptureModel : Type := mkModel {
  n_pursuers : nat;
  n_com_pursuers : nat;
  velocity_control : bool;
  r_arena : R;
  capture_radius : R;
  observation_limit : R;
  world : W;
  _rng : option G
}.

Definition set_world (self : DroneTeamCaptureModel) (w : W) :=
  mkModel (n_pursuers self) (n_com_pursuers self) (velocity_control self)
    (r_arena self) (capture_radius self) (observation_limit self) w (_rng self).

Definition set_rng (self : DroneTeamCaptureModel) (g : option G) :=
  mkModel (n_pursuers self) (n_com_pursuers self) (velocity_control self)
    (r_arena self) (capture_radius self) (observation_limit self)
    (world self) g.

Definition R_MAX : R := 130.

(** Fixed model params (lines 347-356 and 361). *)
Definition max_pursuer_vel : R := 10.
Definition target_rel_vel_bounds : R * R := (1 / 2, 2).
Definition max_rel_dist_change : R :=
  max_pursuer_vel * (1 + target_rel_vel_bounds.2).
Definition norm_max_rel_dist_change (self : DroneTeamCaptureModel) : R :=
  max_rel_dist_change / (2 * r_arena self).
Definition dyaw_limit : R := PI / 10.

Definition possible_agents (self : DroneTeamCaptureModel) : list nat :=
  range (n_pursuers self).

Definition action_spaces (self : DroneTeamCaptureModel) : list Box :=
  map (fun _ =>
         if velocity_control self
         then mkBox [- dyaw_limit; 0] [dyaw_limit; 1]
         else mkBox [- dyaw_limit] [dyaw_limit])
      (possible_agents self).

(** [f"pursuer_{i}"] *)
Definition pursuer_id (i : nat) : string := String.append "pursuer_" (str i).

(** [__init__] *)
Definition __init__ (num_agents n_communicating_pursuers : Z)
    (velocity_control : bool)
    (arena_size observation_limit capture_radius : R)
  : Result DroneTeamCaptureModel :=
  _ ← py_assert ((1 <? num_agents)%Z && (num_agents <=? 8)%Z);
  let n := Z.to_nat num_agents in
  let w := CircularContinuousWorld (arena_size * 2) 30 [] false 2 in
  w ← for_each (range n) (fun w i => add_entity (pursuer_id i) w) w;
  w ← add_entity "evader" w;
  mret (mkModel n (Z.to_nat n_communicating_pursuers) velocity_control
          arena_size capture_radius observation_limit w None).

(** [reward_ranges] *)
Definition reward_ranges (self : DroneTeamCaptureModel) : list (R * R) :=
  map (fun _ => (0, R_MAX)) (possible_agents self).

(** The [rng] property: the generator is created on first use. *)
Definition rng (entropy : Amb) : Method DroneTeamCaptureModel G :=
  fun self =>
    match _rng self with
    | Some g => Ok (g, self)
    | None => let g := std_random entropy in Ok (g, set_rng self (Some g))
    end.

(** [self.rng.random()] *)
Definition rng_draw (entropy : Amb) : Method DroneTeamCaptureModel R :=
  g <- rng entropy;
  let '(v, g') := rng_random g in
  self <- get_self;
  _ <- put_self (set_rng self (Some g'));
  ret v.

(** [sample_initial_state] *)
Definition sample_initial_state (entropy : Amb)
  : Method DroneTeamCaptureModel DTCState :=
  self <- get_self;
  let pursuers :=
    map (fun i : nat =>
           let x := 50 * (- INR (n_pursuers self / 2) + INR i) + r_arena self in
           mkBody x (r_arena self) 0 0 0 0)
        (range (n_pursuers self)) in
  let bounds := r_arena self * (7 / 10) in
  u <- rng_draw entropy;
  let x := u * (bounds * 2) - bounds + r_arena self in
  u <- rng_draw entropy;
  let y := u * (bounds * 2) - bounds + r_arena self in
  let '(min_rvel, max_rvel) := target_rel_vel_bounds in
  u <- rng_draw entropy;
  let relative_target_vel := u * (max_rvel - min_rvel) + min_rvel in
  let target_vel := relative_target_vel * max_pursuer_vel in
  let target := mkBody x y 0 0 0 0 in
  ret (mkState pursuers pursuers target target target_vel).

(** [_engagement] *)
Definition _engagement (self : DroneTeamCaptureModel)
    (agent_i agent_j : PMBodyState) (dist_norm_factor : R)
  : (R * R) * bool :=
  let dist := euclidean_dist (xy agent_i) (xy agent_j) in
  if Rltb (observation_limit self) dist then ((-1, -1), false)
  else
    let yaw := st_angle agent_i in
    let rel_x := st_x agent_i - st_x agent_j in
    let rel_y := st_y agent_i - st_y agent_j in
    let rot_x := cos yaw * rel_x + sin yaw * rel_y in
    let rot_y := - sin yaw * rel_x + cos yaw * rel_y in
    let alpha := atan2 rot_y rot_x in
    let alpha := convert_angle_to_negpi_pi_interval alpha in
    ((alpha / PI, dist / dist_norm_factor), true).

(** Lines 622-631: the bearing [_engagement] returns for a visible
    pair. *)
Definition bearing (agent_i agent_j : PMBodyState) : R :=
  let yaw := st_angle agent_i in
  let rel_x := st_x agent_i - st_x agent_j in
  let rel_y := st_y agent_i - st_y agent_j in
  convert_angle_to_negpi_pi_interval
    (atan2 (- sin yaw * rel_x + cos yaw * rel_y)
           (cos yaw * rel_x + sin yaw * rel_y)) / PI.

(** Lines 514-531 of [_get_obs]: the bearing-rate and range-rate. *)
Definition target_rates (self : DroneTeamCaptureModel)
    (alpha_t dist_t : R) (target_visible : bool)
    (alpha_t_prev dist_t_prev : R) (target_prev_visible : bool)
  : Result (R * R) :=
  if negb target_visible || negb target_prev_visible then Ok (-1, -1)
  else
    let alpha_rate :=
      convert_angle_to_negpi_pi_interval ((alpha_t - alpha_t_prev) * PI) / PI in
    let max_rate := norm_max_rel_dist_change self in
    dist_rate ← convert_into_interval (dist_t - dist_t_prev)
                  (- max_rate) max_rate (-1) 1;
    mret (alpha_rate, dist_rate).

(** The key of line 549. *)
Definition engagement_key (t : R * R) : Key :=
  if Reqb t.2 (-1) then Inf else Fin t.2.

(** Lines 533-551 of [_get_obs]: the engagement with every pursuer,
    invalid entries last. *)
Definition relative_engagement (self : DroneTeamCaptureModel)
    (state : DTCState) (i : nat) (p_i : PMBodyState)
  : Result (list (R * R)) :=
  engagement ← mapM (fun j : nat =>
                        if decide (j = i) then Ok (-1, -1)
                        else
                          p_j ← getitem (pursuer_states state) j;
                          mret (_engagement self p_i p_j (2 * r_arena self)).1)
                     (range (n_pursuers self));
  mret (sorted engagement_key engagement).

(** The body of the loop of [_get_obs] for pursuer [i]. *)
Definition obs_of_pursuer (self : DroneTeamCaptureModel) (state : DTCState)
    (i : nat) : Result DTCObs :=
  p_i ← getitem (pursuer_states state) i;
  let '((alpha_t, dist_t), target_visible) :=
    _engagement self p_i (target_state state) (2 * r_arena self) in
  prev_p_i ← getitem (prev_pursuer_states state) i;
  let '((alpha_t_prev, dist_t_prev), target_prev_visible) :=
    _engagement self prev_p_i (prev_target_state state) (2 * r_arena self) in
  rates ← target_rates self alpha_t dist_t target_visible
            alpha_t_prev dist_t_prev target_prev_visible;
  engagement ← relative_engagement self state i p_i;
  _ ← (if engagement is [] then Raise ValueError else Ok tt);
  let alphas := map fst engagement in
  let dists := map snd engagement in
  let angle_i := convert_angle_to_negpi_pi_interval (st_angle p_i) / PI in
  let prev_angle_i :=
    convert_angle_to_negpi_pi_interval (st_angle prev_p_i) / PI in
  let turn_rate := angle_i - prev_angle_i in
  let obs_i := [angle_i; turn_rate; alpha_t; dist_t; rates.1; rates.2] in
  for_each (range (n_com_pursuers self))
    (fun obs_i idx =>
       a ← getitem alphas idx;
       d ← getitem dists idx;
       mret (obs_i ++ [a; d]))
    obs_i.

(** [_get_obs] *)
Definition _get_obs (self : DroneTeamCaptureModel) (state : DTCState)
  : Result (list DTCObs) :=
  mapM (obs_of_pursuer self state) (range (n_pursuers self)).

(** [_target_distance] *)
Definition _target_distance (state : DTCState) (pursuer_idx : nat)
  : Result R :=
  p ← getitem (pursuer_states state) pursuer_idx;
  mret (euclidean_dist (xy p) (xy (target_state state))).

(** [_get_closest_pursuer] *)
Definition _get_closest_pursuer (state : DTCState) : Result nat :=
  best ← for_each (range (length (pursuer_states state)))
            (fun (best : option (R * nat)) idx =>
               dist ← _target_distance state idx;
               mret (match best with
                     | None => Some (dist, idx)
                     | Some (min_dist, min_index) =>
                         if Rltb dist min_dist then Some (dist, idx)
                         else Some (min_dist, min_index)
                     end))
            None;
  match best with
  | Some (_, min_index) => Ok min_index
  | None => Raise Exception
  end.

(** [_get_unit_vectors]; the division is the real one, so the model
    says nothing of a pursuer that sits on the target (see [DTCFloat]). *)
Definition _get_unit_vectors (state : DTCState) : list (R * R) :=
  map (fun p =>
         let dist := euclidean_dist (xy p) (xy (target_state state)) in
         (st_x p / dist, st_y p / dist))
      (pursuer_states state).

(** [np.dot] on two 2-vectors. *)
Definition np_dot (u v : R * R) : R := u.1 * v.1 + u.2 * v.2.

(** [_q_parameter] *)
Definition _q_parameter (self : DroneTeamCaptureModel) (state : DTCState)
  : Result R :=
  closest ← _get_closest_pursuer state;
  let unit := _get_unit_vectors state in
  Qk ← for_each (range (n_pursuers self))
         (fun Qk i =>
            if decide (i = closest) then Ok Qk
            else
              u_i ← getitem unit i;
              u_c ← getitem unit closest;
              mret (Qk + (np_dot u_i u_c + 1)))
         0;
  mret (Qk / INR (n_pursuers self)).

(** [_get_rewards] *)
Definition _get_rewards (self : DroneTeamCaptureModel) (state : DTCState)
  : Result (bool * list R) :=
  q_formation ← _q_parameter self state;
  '(done, reward) ←
    for_each (possible_agents self)
      (fun '(done, reward) i =>
         let r := - q_formation * (1 / 10) in
         target_dist ← _target_distance state i;
         let r := r - (2 / 1000) * target_dist in
         if Rltb target_dist (capture_radius self)
         then Ok (true, reward ++ [r + 30])
         else Ok (done, reward ++ [r]))
      (false, []);
  mret (done, if done : bool then map (fun r => r + 100) reward else reward).

(** [_abs_sum] *)
Definition _abs_sum (vector : list R) : R :=
  fold_left Rplus (map Rabs vector) 0.

(** [scale_fn] of [_get_target_move_repulsive] *)
Definition scale_fn (z : R) : R := 50000 / ((Rabs z + 200) * (Rabs z + 200)).

(** [_scale_vector] *)
Definition _scale_vector (vector : list R) (scale_fn : R -> R)
    (final_vector : list R) (factor : R) : list R :=
  let vec_sum := _abs_sum vector in
  let div := Rmax (1 / 100000) vec_sum in
  let f := - factor * scale_fn vec_sum / div in
  let vector := map (Rmult f) vector in
  zip_with Rplus final_vector vector.

(** [_get_target_move_repulsive] *)
Definition _get_target_move_repulsive (self : DroneTeamCaptureModel)
    (state : DTCState) : Result (R * R) :=
  let x := st_x (target_state state) in
  let y := st_y (target_state state) in
  let final_vector :=
    fold_left (fun final_vector s =>
                 _scale_vector [st_x s - x; st_y s - y] scale_fn final_vector 1)
              (pursuer_states state) [0; 0] in
  let gamma := - atan2 (y - r_arena self) (x - r_arena self) in
  let virtual_wall :=
    [r_arena self + r_arena self * cos gamma;
     r_arena self + - r_arena self * sin gamma] in
  let vector := zip_with Rminus virtual_wall [x; y] in
  let final_vector :=
    _scale_vector vector scale_fn final_vector
      ((1 / 2) * INR (length (pursuer_states state))) in
  let scaled_move_dir :=
    map (fun v => v / _abs_sum final_vector) final_vector in
  dx ← getitem scaled_move_dir 0;
  dy ← getitem scaled_move_dir 1;
  let d := np_linalg_norm dx dy in
  mret (target_vel state * dx / d, target_vel state * dy / d).

(** A call on [self.world] that replaces the world by its result. *)
Definition on_world (f : W -> Result W) : Method DroneTeamCaptureModel unit :=
  self <- get_self;
  w <- lift (f (world self));
  put_self (set_world self w).

(** [_get_next_state] *)
Definition _get_next_state (state : DTCState) (actions : list DTCAction)
  : Method DroneTeamCaptureModel DTCState :=
  self <- get_self;
  _ <- for_each_m (range (n_pursuers self))
         (fun _ i =>
            p <- lift (getitem (pursuer_states state) i);
            _ <- on_world (set_entity_state (pursuer_id i) p);
            velocity_factor <-
              (if negb (velocity_control self) then ret 1
               else lift (a ← getkey actions i; getitem a 1));
            a0 <- lift (a ← getkey actions i; getitem a 0);
            let pursuer_angle := st_angle p + a0 in
            let pursuer_vel :=
              linear_to_xy_velocity (velocity_factor * max_pursuer_vel)
                pursuer_angle in
            on_world (update_entity_state (pursuer_id i)
                        (Some pursuer_angle) (Some pursuer_vel)))
         tt;
  evader_vel_xy <- lift (_get_target_move_repulsive self state);
  _ <- on_world (set_entity_state "evader" (target_state state));
  _ <- on_world (update_entity_state "evader" None (Some evader_vel_xy));
  _ <- on_world (simulate (1 / 10) 10);
  self <- get_self;
  next_pursuer_states <-
    lift (mapM (fun i => get_entity_state (pursuer_id i) (world self))
            (range (n_pursuers self)));
  next_target <- lift (get_entity_state "evader" (world self));
  ret (mkState next_pursuer_states (pursuer_states state)
         next_target (target_state state) (target_vel state)).

(** [step] *)
Definition step (state : DTCState) (actions : list DTCAction)
  : Method DroneTeamCaptureModel (JointTimestep DTCState DTCObs) :=
  self <- get_self;
  let clipped_actions := clip_actions actions (action_spaces self) in
  next_state <- _get_next_state state clipped_actions;
  obs <- lift (_get_obs self state);
  '(all_done, rewards) <- lift (_get_rewards self state);
  let terminations := map (fun _ => all_done) (possible_agents self) in
  let truncations := map (fun _ => false) (possible_agents self) in
  let infos := map (fun _ => None) (possible_agents self) in
  ret (mkTimestep next_state obs rewards terminations truncations
         all_done infos).

(** [sample_initial_obs] *)
Definition sample_initial_obs (self : DroneTeamCaptureModel)
    (state : DTCState) : Result (list DTCObs) :=
  _get_obs self state.

End Model.

Arguments DroneTeamCaptureModel W G : clear implicits.

End DTC.

(** ** The predator-prey model ([predator_prey.py]) *)

Module PP.
Import Py Core.
#[local] Open Scope R_scope.

(** [PPState]; [prey_caught] is an int8 array. *)
Record PPState : Type := mkState {
  predator_states : list PMBodyState;
  prey_states : list PMBodyState;
  prey_caught : list Z
}.

Definition PPObs : Type := list R.
Definition PPAction : Type := list R.

(** Truth value of an integer. *)
Definition truthy (c : Z) : bool := negb (c =? 0)%Z.

Section Model.
Context {W G Amb : Type}.
Context `{CoreUtils} `{ContinuousWorld W} `{RandomSource G Amb}.

(** [PPWorld], a [SquareContinuousWorld] with start positions. *)
Record PPWorld : Type := mkWorld {
  base : W;
  size : Z;
  predator_start_positions : list Position;
  prey_start_positions : list Position
}.

Definition set_base (world : PPWorld) (w : W) : PPWorld :=
  mkWorld w (size world) (predator_start_positions world)
    (prey_start_positions world).

(** [itertools.product(l1, l2)] *)
Definition product {A B} (l1 : list A) (l2 : list B) : list (A * B) :=
  list_prod l1 l2.

(** [v in (a, b)] on integers. *)
Definition in_pair (v a b : Z) : bool := ((v =? a) || (v =? b))%Z.

(** Lines 812-825: the default predator start positions. *)
Definition default_predator_starts (w : W) (size : Z) : list Position :=
  let side := [0; size / 2; size - 1]%Z in
  flat_map (fun '(col, row) =>
              if negb (in_pair col 0 (size - 1)) && negb (in_pair row 0 (size - 1))
              then []
              else
                let x := IZR col + agent_radius w in
                let y := IZR row + agent_radius w in
                let invalid_pos :=
                  existsb (fun '(block_pos, block_size) =>
                             Rleb (euclidean_dist (x, y) (pos_xy block_pos))
                                  (agent_radius w + block_size))
                          (blocks w) in
                if negb invalid_pos then [(x, y, 0)] else [])
           (product side side).

(** Lines 829-852: the default prey start positions. *)
Definition default_prey_starts (w : W) (size : Z)
    (predator_starts : list Position) : list Position :=
  let cells := map Z.of_nat (range (Z.to_nat size)) in
  flat_map (fun '(col, row) =>
              if in_pair col 0 (size - 1) || in_pair row 0 (size - 1)
              then []
              else
                let x := IZR col + agent_radius w in
                let y := IZR row + agent_radius w in
                if existsb (fun pred_pos =>
                              Rltb (euclidean_dist (x, y) (pos_xy pred_pos))
                                   (2 * agent_radius w))
                           predator_starts
                then []
                else if existsb (fun '(block_pos, block_size) =>
                                   Rltb (euclidean_dist (x, y) (pos_xy block_pos))
                                        (agent_radius w + block_size))
                                (blocks w)
                then []
                else [(x, y, 0)])
           (product cells cells).

(** [PPWorld.__init__] *)
Definition PPWorld_init (size : Z) (blocks : list CircleEntity)
    (predator_start_positions prey_start_positions : option (list Position))
  : Result PPWorld :=
  _ ← py_assert (3 <=? size)%Z;
  let w := SquareContinuousWorld (IZR size) blocks (1 / 2) in
  let predator_start_positions :=
    match predator_start_positions with
    | None => default_predator_starts w size
    | Some l => l
    end in
  let prey_start_positions :=
    match prey_start_positions with
    | None => default_prey_starts w size predator_start_positions
    | Some l => l
    end in
  mret (mkWorld w size predator_start_positions prey_start_positions).

(** [get_default_world] *)
Definition get_default_world (size : Z) (include_blocks : bool)
  : Result PPWorld :=
  let r := IZR size / 10 in
  let blocks :=
    if include_blocks
    then map (fun '(x, y) => ((x + r, y + r, 0), r))
           (product [IZR size / 5; 3 * IZR size / 5]
                    [IZR size / 5; 3 * IZR size / 5])
    else [] in
  PPWorld_init size blocks None None.

(** [SUPPORTED_WORLDS]: world name to (make function, step limit). *)
Definition SUPPORTED_WORLDS : list (string * (Result PPWorld * nat)) :=
  [ ("5x5"%string, (get_default_world 5 false, 25%nat));
    ("5x5Blocks"%string, (get_default_world 5 true, 50%nat));
    ("10x10"%string, (get_default_world 10 false, 50%nat));
    ("10x10Blocks"%string, (get_default_world 10 true, 50%nat));
    ("15x15"%string, (get_default_world 15 false, 100%nat));
    ("15x15Blocks"%string, (get_default_world 15 true, 100%nat));
    ("20x20"%string, (get_default_world 20 false, 200%nat));
    ("20x20Blocks"%string, (get_default_world 20 true, 200%nat)) ].

(** [d[key]] on a dictionary held as an association list. *)
Fixpoint lookup_name {A} (key : string) (d : list (string * A)) : option A :=
  match d with
  | [] => None
  | (k, v) :: d' => if String.eqb k key then Some v else lookup_name key d'
  end.

(** The attributes of a [PPModel]. *)
Record PPModel : Type := mkModel {
  world : PPWorld;
  num_predators : nat;
  num_prey : nat;
  obs_dist : R;
  cooperative : bool;
  prey_strength : nat;
  n_sensors : nat;
  use_holonomic : bool;
  _rng : option G
}.

Definition set_world (self : PPModel) (w : PPWorld) : PPModel :=
  mkModel w (num_predators self) (num_prey self) (obs_dist self)
    (cooperative self) (prey_strength self) (n_sensors self)
    (use_holonomic self) (_rng self).

Definition set_rng (self : PPModel) (g : option G) : PPModel :=
  mkModel (world self) (num_predators self) (num_prey self) (obs_dist self)
    (cooperative self) (prey_strength self) (n_sensors self)
    (use_holonomic self) g.

Definition R_MAX : R := 1.
Definition STEP_VEL : R := 1 / 2.
Definition COLLISION_DIST : R := 12 / 10.

Definition _per_prey_reward (self : PPModel) : R := R_MAX / INR (num_prey self).
Definition obs_dim (self : PPModel) : nat := (n_sensors self * 3)%nat.
Definition dyaw_limit : R := PI / 10.

Definition possible_agents (self : PPModel) : list nat :=
  range (num_predators self).

Definition action_spaces (self : PPModel) : list Box :=
  map (fun _ =>
         if use_holonomic self
         then mkBox [-1; -1] [1; 1]
         else mkBox [- dyaw_limit; 0] [dyaw_limit; 1])
      (possible_agents self).

(** [f"pred_{i}"] and [f"prey_{i}"] *)
Definition pred_id (i : nat) : string := String.append "pred_" (str i).
Definition prey_id (i : nat) : string := String.append "prey_" (str i).

(** The [world] argument of the constructor: a name or a world object. *)
Inductive WorldArg : Type :=
| WorldName (name : string)
| WorldObject (world : PPWorld).

(** Lines 433-440: the world the constructor works with. *)
Definition chosen_world (world : WorldArg) : Result PPWorld :=
  match world with
  | WorldName name =>
      match lookup_name name SUPPORTED_WORLDS with
      | None => Raise AssertionError
      | Some (make, _) => make
      end
  | WorldObject w => Ok w
  end.

(** [PPModel.__init__] *)
Definition __init__ (world : WorldArg) (num_predators num_prey : Z)
    (cooperative : bool) (prey_strength : option Z) (obs_dist : R)
    (n_sensors : nat) (use_holonomic : bool) : Result PPModel :=
  _ ← py_assert ((1 <? num_predators)%Z && (num_predators <=? 8)%Z);
  _ ← py_assert (0 <? num_prey)%Z;
  _ ← py_assert (Rltb 0 obs_dist);
  let prey_strength :=
    match prey_strength with
    | None => Z.min 4 num_predators
    | Some s => s
    end in
  _ ← py_assert ((0 <? prey_strength)%Z
                 && (prey_strength <=? Z.min 4 num_predators)%Z);
  world ← chosen_world world;
  _ ← py_assert (num_predators <=? Z.of_nat (length (predator_start_positions world)))%Z;
  _ ← py_assert (num_prey <=? Z.of_nat (length (prey_start_positions world)))%Z;
  let n_pred := Z.to_nat num_predators in
  let n_prey := Z.to_nat num_prey in
  w ← for_each (range n_pred) (fun w i => add_entity (pred_id i) w) (base world);
  w ← for_each (range n_prey) (fun w i => add_entity (prey_id i) w) w;
  mret (mkModel (set_base world w) n_pred n_prey obs_dist cooperative
          (Z.to_nat prey_strength) n_sensors use_holonomic None).

(** [reward_ranges] *)
Definition reward_ranges (self : PPModel) : list (R * R) :=
  map (fun _ => (0, R_MAX)) (possible_agents self).

(** The [rng] property: the generator is created on first use, from the
    entropy of the process when no seed was given. *)
Definition rng (entropy : Amb) : Method PPModel G :=
  self <- get_self;
  match _rng self with
  | Some g => ret g
  | None =>
      let g := std_random entropy in
      _ <- put_self (set_rng self (Some g));
      ret g
  end.

(** A draw on [self.rng]: the generator keeps its new internal state. *)
Definition draw {A} (entropy : Amb) (f : G -> Result (A * G))
  : Method PPModel A :=
  g <- rng entropy;
  '(a, g') <- lift (f g);
  self <- get_self;
  _ <- put_self (set_rng self (Some g'));
  ret a.

(** [self.rng.choice(seq)], [self.rng.uniform(a, b)] and
    [self.rng.shuffle(l)] *)
Definition choice (entropy : Amb) (seq : list nat) : Method PPModel nat :=
  draw entropy (rng_choice seq).

Definition uniform (entropy : Amb) (a b : R) : Method PPModel R :=
  draw entropy (fun g => Ok (rng_uniform a b g)).

Definition shuffle {A} (entropy : Amb) (l : list A) : Method PPModel (list A) :=
  draw entropy (fun g => Ok (rng_shuffle l g)).

(** A start position as the first three features of a zero state row. *)
Definition body_at (p : Position) : PMBodyState :=
  mkBody p.1.1 p.1.2 p.2 0 0 0.

(** [sample_initial_state] *)
Definition sample_initial_state (entropy : Amb) : Method PPModel PPState :=
  self <- get_self;
  predator_positions <-
    shuffle entropy (predator_start_positions (world self));
  predator_states <-
    lift (mapM (fun i => body_at <$> getitem predator_positions i)
            (range (num_predators self)));
  prey_positions <- shuffle entropy (prey_start_positions (world self));
  prey_states <-
    lift (mapM (fun i => body_at <$> getitem prey_positions i)
            (range (num_prey self)));
  ret (mkState predator_states prey_states
         (replicate (num_prey self) 0%Z)).

(** The distance of a body to each body of a list:
    [np.linalg.norm(s[:2] - others[:, :2], axis=1)]. *)
Definition dists_to (s : PMBodyState) (others : list PMBodyState) : list R :=
  map (fun o => np_linalg_norm (st_x s - st_x o) (st_y s - st_y o)) others.

(** The angle of the direction from [other] to [s]. *)
Definition angle_away (s other : PMBodyState) : R :=
  atan2 (st_y s - st_y other) (st_x s - st_x other).

(** Lines 686-690: the distances to the other active prey. *)
Definition other_prey_dists (state : PPState) (i : nat)
    (prey_state : PMBodyState) : Result (list R) :=
  for_each (enumerate (prey_states state))
    (fun prey_dists '(j, p) =>
       c ← getitem (prey_caught state) j;
       if negb (truthy c) && negb (bool_decide (j = i))
       then Ok (prey_dists ++
                  [np_linalg_norm (st_x prey_state - st_x p)
                                  (st_y prey_state - st_y p)])
       else Ok prey_dists)
    [].

(** The body of the loop of [_get_prey_move_angles] for prey [i]. *)
Definition prey_move_angle (entropy : Amb) (state : PPState)
    (active_prey : Z) (i : nat) : Method PPModel R :=
  self <- get_self;
  c <- lift (getitem (prey_caught state) i);
  if truthy c then ret 0
  else
    prey_state <- lift (getitem (prey_states state) i);
    let pred_dists := dists_to prey_state (predator_states state) in
    min_pred_dist <- lift (py_min pred_dists);
    if Rleb min_pred_dist (obs_dist self) then
      pred_idx <- choice entropy (np_where_eq pred_dists min_pred_dist);
      pred_state <- lift (getitem (predator_states state) pred_idx);
      ret (angle_away prey_state pred_state)
    else if (active_prey =? 1)%Z then uniform entropy 0 (2 * PI)
    else
      prey_dists <- lift (other_prey_dists state i prey_state);
      min_prey_dist <- lift (py_min prey_dists);
      if Rleb min_prey_dist (obs_dist self) then
        other_prey_idx <-
          choice entropy (np_where_eq prey_dists min_prey_dist);
        other_prey_state <- lift (getitem (prey_states state) other_prey_idx);
        ret (angle_away prey_state other_prey_state)
      else uniform entropy 0 (2 * PI).

(** [_get_prey_move_angles] *)
Definition _get_prey_move_angles (entropy : Amb) (state : PPState)
  : Method PPModel (list R) :=
  self <- get_self;
  let active_prey :=
    (Z.of_nat (num_prey self) - fold_left Z.add (prey_caught state) 0)%Z in
  for_each_m (range (num_prey self))
    (fun prey_actions i =>
       angle <- prey_move_angle entropy state active_prey i;
       ret (prey_actions ++ [angle]))
    [].

(** A call on [self.world] that replaces the world by its result. *)
Definition on_world (f : W -> Result W) : Method PPModel unit :=
  self <- get_self;
  w <- lift (f (base (world self)));
  put_self (set_world self (set_base (world self) w)).

(** The state a caught prey is given. *)
Definition caught_state : PMBodyState := mkBody (-1) (-1) 0 0 0 0.

(** Lines 638-651 of [_get_next_state]: which prey are caught. *)
Definition resolve_captures (self : PPModel) (state : PPState)
    (next_pred_states next_prey_states : list PMBodyState)
  : Result (list PMBodyState * list Z) :=
  for_each (range (num_prey self))
    (fun '(next_prey_states, next_prey_caught) i =>
       c ← getitem (prey_caught state) i;
       if truthy c then
         next_prey_states ← setitem next_prey_states i caught_state;
         mret (next_prey_states, next_prey_caught)
       else
         prey_i ← getitem next_prey_states i;
         let pred_dists := dists_to prey_i next_pred_states in
         if bool_decide (prey_strength self <= np_count_le pred_dists COLLISION_DIST)%nat
         then
           next_prey_caught ← setitem next_prey_caught i 1%Z;
           next_prey_states ← setitem next_prey_states i caught_state;
           mret (next_prey_states, next_prey_caught)
         else mret (next_prey_states, next_prey_caught))
    (next_prey_states, prey_caught state).

(** Lines 599-608: the body of the loop that applies the prey actions;
    a caught prey is given its stored state and nothing else. *)
Definition apply_prey_action (state : PPState) (prey_move_angles : list R)
    (i : nat) : Method PPModel unit :=
  s <- lift (getitem (prey_states state) i);
  _ <- on_world (set_entity_state (prey_id i) s);
  c <- lift (getitem (prey_caught state) i);
  if truthy c then ret tt
  else
    a <- lift (getitem prey_move_angles i);
    let v := Vec2d_rotated (1, 0) a in
    on_world (update_entity_state (prey_id i) (Some a)
                (Some (STEP_VEL * v.1, STEP_VEL * v.2))).

(** Lines 611-620: the body of the loop that applies the predator
    actions. *)
Definition apply_predator_action (self : PPModel) (state : PPState)
    (actions : list PPAction) (i : nat) : Method PPModel unit :=
  action <- lift (getkey actions i);
  s <- lift (getitem (predator_states state) i);
  _ <- on_world (set_entity_state (pred_id i) s);
  '(angle, vel) <-
    lift (if use_holonomic self then
            a1 ← getitem action 1;
            a0 ← getitem action 0;
            mret (atan2 a1 a0, (a0, a1))
          else
            a0 ← getitem action 0;
            let angle := st_angle s + a0 in
            a1 ← getitem action 1;
            let v := Vec2d_rotated (1, 0) angle in
            mret (angle, (a1 * v.1, a1 * v.2)));
  on_world (update_entity_state (pred_id i) (Some angle) (Some vel)).

(** [_get_next_state] *)
Definition _get_next_state (entropy : Amb) (state : PPState)
    (actions : list PPAction) : Method PPModel PPState :=
  prey_move_angles <- _get_prey_move_angles entropy state;
  self <- get_self;
  _ <- for_each_m (range (num_prey self))
         (fun _ i => apply_prey_action state prey_move_angles i) tt;
  _ <- for_each_m (range (num_predators self))
         (fun _ i => apply_predator_action self state actions i) tt;
  _ <- on_world (simulate (1 / 10) 10);
  self <- get_self;
  next_pred_states <-
    lift (mapM (fun i => get_entity_state (pred_id i) (base (world self)))
            (range (num_predators self)));
  next_prey_states <-
    lift (mapM (fun i => get_entity_state (prey_id i) (base (world self)))
            (range (num_prey self)));
  '(next_prey_states, next_prey_caught) <-
    lift (resolve_captures self state next_pred_states next_prey_states);
  ret (mkState next_pred_states next_prey_states next_prey_caught).

(** Lines 761-769 of [_get_local_obs]: per sensor, the smallest of the
    three readings goes to the slot of its class. *)
Definition assemble_obs (self : PPModel)
    (obstacle_obs pred_obs prey_obs : list R) : Result PPObs :=
  for_each (range (n_sensors self))
    (fun obs k =>
       o ← getitem obstacle_obs k;
       p ← getitem pred_obs k;
       q ← getitem prey_obs k;
       let sensor_readings := [o; p; q] in
       min_val ← py_min sensor_readings;
       min_idx ← list_index sensor_readings min_val;
       setitem obs (min_idx * n_sensors self + k)%nat min_val)
    (replicate (obs_dim self) (obs_dist self)).

(** Lines 717-723: the coordinates of the prey that are not caught. *)
Definition active_prey_coords (state : PPState) : Result (list (R * R)) :=
  for_each (enumerate (prey_states state))
    (fun coords '(i, s) =>
       c ← getitem (prey_caught state) i;
       if negb (truthy c) then Ok (coords ++ [xy s]) else Ok coords)
    [].

(** Lines 734-740: the coordinates of the other predators. *)
Definition other_pred_coords (state : PPState) (agent_id : nat)
  : list (R * R) :=
  flat_map (fun '(i, s) => if bool_decide (i = agent_id) then [] else [xy s])
           (enumerate (predator_states state)).

(** Lines 714-759 of [_get_local_obs]: the three ray-cast passes, for
    obstacles and border, for the other predators and for the prey. *)
Definition sensor_readings (self : PPModel) (agent_id : nat) (state : PPState)
  : Result (list R * list R * list R) :=
  state_i ← getitem (predator_states state) agent_id;
  let pos_i := (st_x state_i, st_y state_i, st_angle state_i) in
  prey_coords ← active_prey_coords state;
  let w := base (world self) in
  let prey_obs :=
    check_collision_circular_rays w pos_i (obs_dist self) (n_sensors self)
      (Some prey_coords) false false true in
  let pred_coords := other_pred_coords state agent_id in
  let pred_obs :=
    check_collision_circular_rays w pos_i (obs_dist self) (n_sensors self)
      (Some pred_coords) false false true in
  let obstacle_obs :=
    check_collision_circular_rays w pos_i (obs_dist self) (n_sensors self)
      None true true true in
  mret (obstacle_obs, pred_obs, prey_obs).

(** [_get_local_obs] *)
Definition _get_local_obs (self : PPModel) (agent_id : nat) (state : PPState)
  : Result PPObs :=
  '(obstacle_obs, pred_obs, prey_obs) ← sensor_readings self agent_id state;
  assemble_obs self obstacle_obs pred_obs prey_obs.

(** [get_obs] *)
Definition get_obs (self : PPModel) (state : PPState) : Result (list PPObs) :=
  mapM (fun i => _get_local_obs self i state) (possible_agents self).

(** [_get_rewards] *)
Definition _get_rewards (self : PPModel) (state next_state : PPState)
  : Result (list R) :=
  new_caught_prey ←
    for_each (range (num_prey self))
      (fun new_caught_prey i =>
         c ← getitem (prey_caught state) i;
         if truthy c then Ok new_caught_prey
         else
           c' ← getitem (prey_caught next_state) i;
           if truthy c' then
             s ← getitem (prey_states next_state) i;
             mret (new_caught_prey ++ [s])
           else Ok new_caught_prey)
      [];
  if bool_decide (length new_caught_prey = 0%nat)
  then Ok (map (fun _ => 0) (possible_agents self))
  else if cooperative self
  then
    let reward := INR (length new_caught_prey) * _per_prey_reward self in
    Ok (map (fun _ => reward) (possible_agents self))
  else
    for_each new_caught_prey
      (fun rewards prey_state =>
         let pred_dists := dists_to prey_state (predator_states next_state) in
         let involved_predators := np_where_le pred_dists COLLISION_DIST in
         _ ← (if involved_predators is [] then Raise ZeroDivisionError
              else Ok tt);
         let predator_reward :=
           _per_prey_reward self / INR (length involved_predators) in
         for_each involved_predators
           (fun rewards i =>
              match rewards !! i with
              | Some r => Ok (<[i := r + predator_reward]> rewards)
              | None => Raise KeyError
              end)
           rewards)
      (map (fun _ => 0) (possible_agents self)).

(** [step] *)
Definition step (entropy : Amb) (state : PPState) (actions : list PPAction)
  : Method PPModel (JointTimestep PPState PPObs) :=
  self <- get_self;
  let clipped_actions := clip_actions actions (action_spaces self) in
  next_state <- _get_next_state entropy state clipped_actions;
  self <- get_self;
  obs <- lift (get_obs self next_state);
  rewards <- lift (_get_rewards self state next_state);
  let all_done := forallb truthy (prey_caught next_state) in
  let truncated := map (fun _ => false) (possible_agents self) in
  let terminated := map (fun _ => all_done) (possible_agents self) in
  let info :=
    map (fun _ => if all_done then Some WIN else None) (possible_agents self) in
  ret (mkTimestep next_state obs rewards terminated truncated all_done info).

(** [sample_initial_obs] *)
Definition sample_initial_obs (self : PPModel) (state : PPState)
  : Result (list PPObs) :=
  get_obs self state.

(** One or more successive calls of [step] that returned, each on the
    state the call before it returned. *)
Inductive steps : PPModel -> PPState -> PPModel -> PPState -> Prop :=
| steps_one entropy self state actions ts self' :
    step entropy state actions self = Ok (ts, self') ->
    steps self state self' (ts_state ts)
| steps_more entropy self state self1 state1 actions ts self2 :
    steps self state self1 state1 ->
    step entropy state1 actions self1 = Ok (ts, self2) ->
    steps self state self2 (ts_state ts).

End Model.

Arguments PPWorld W : clear implicits.
Arguments PPModel W G : clear implicits.
Arguments WorldArg W : clear implicits.

End PP.

(** ** The divisions by a distance, over binary64 floats

    The three functions of the drone team capture model that divide by a
    distance, with the arithmetic of IEEE 754 binary64 instead of the
    reals: a division by zero returns an infinity or a NaN.  (The state
    arrays are float32; a zero distance and what a division by it
    returns are the same in both formats.) *)

Module DTCFloat.
Import Floats.
#[local] Open Scope float_scope.

(** Modelled from the spec: [euclidean_distance] of section 4.1 on the
    positions [s[:2]] (the engine's [euclidean_dist] is not among the
    sources). *)
Definition euclidean_dist (p q : float * float) : float :=
  sqrt ((fst p - fst q) * (fst p - fst q) + (snd p - snd q) * (snd p - snd q)).

(** [_get_unit_vectors], on the positions of the pursuers and of the
    target. *)
Definition _get_unit_vectors (pursuer_states : list (float * float))
    (target_state : float * float) : list (float * float) :=
  map (fun p =>
         let dist := euclidean_dist p target_state in
         (fst p / dist, snd p / dist))
      pursuer_states.

(** [_abs_sum] *)
Definition _abs_sum (vector : list float) : float :=
  fold_left PrimFloat.add (map abs vector) 0.

(** [scale_fn] of [_get_target_move_repulsive] *)
Definition scale_fn (z : float) : float :=
  50000 / ((abs z + 200) * (abs z + 200)).

(** [max(a, b)] *)
Definition py_max (a b : float) : float := if a <? b then b else a.

(** [_scale_vector] *)
Definition _scale_vector (vector : list float) (scale_fn : float -> float)
    (final_vector : list float) (factor : float) : list float :=
  let vec_sum := _abs_sum vector in
  let div := py_max 0.00001 vec_sum in
  let f := - factor * scale_fn vec_sum / div in
  let vector := map (PrimFloat.mul f) vector in
  zip_with PrimFloat.add final_vector vector.

(** Neither a NaN nor an infinity. *)
Definition is_finite (x : float) : bool := negb (is_nan x || is_infinity x).

End DTCFloat.

(** ** A reference engine

    An implementation of the engine interface written from sections 3
    and 4 of the specification.  The scenario models above do not depend
    on it; it shows that the laws of the interface can be met and gives
    the properties below concrete worlds to run in. *)

Module Ref.
Import Py Core.
#[local] Open Scope R_scope.

(** Modelled from the spec: [normalize_angle] of section 4.1 (the
    engine's [convert_angle_to_negpi_pi_interval] is not among the
    sources): the angle moved by the multiple of [2 pi] that brings it
    into (-pi, pi]. *)
Definition normalize_angle (a : R) : R :=
  a - 2 * PI * IZR (1 - up ((PI - a) / (2 * PI))).

(** Section 4.1 leaves open what [remap] does with a value outside the
    source interval: it fails or it clamps. *)
Inductive RemapPolicy : Type :=
| RemapFails
| RemapClamps.

(** Modelled from the spec: [remap] of section 4.1 (the engine's
    [convert_into_interval] is not among the sources). *)
Definition remap (policy : RemapPolicy) (value src_lo src_hi dst_lo dst_hi : R)
  : Result R :=
  if Rltb value src_lo then
    match policy with RemapFails => Raise ValueError | RemapClamps => Ok dst_lo end
  else if Rltb src_hi value then
    match policy with RemapFails => Raise ValueError | RemapClamps => Ok dst_hi end
  else Ok (dst_lo + (value - src_lo) * (dst_hi - dst_lo) / (src_hi - src_lo)).

(** Modelled from the spec: [euclidean_distance] of section 4.1. *)
Definition euclidean_distance (p q : R * R) : R :=
  sqrt ((p.1 - q.1) * (p.1 - q.1) + (p.2 - q.2) * (p.2 - q.2)).

(** Modelled from the spec: [velocity_from_heading] of section 4.1. *)
Definition velocity_from_heading (speed heading : R) : R * R :=
  (speed * cos heading, speed * sin heading).

(** Modelled from the spec: the engine's [clip_actions] is not among the
    sources; every component of an action is brought into the bounds of
    the agent's action space. *)
Definition clip_action (action : list R) (space : Box) : list R :=
  zip_with (fun a lh => Rmax lh.1 (Rmin lh.2 a)) action
    (zip (low space) (high space)).

Definition clip_all (actions : list (list R)) (spaces : list Box)
  : list (list R) :=
  zip_with clip_action actions spaces.

Definition utils (policy : RemapPolicy) : CoreUtils := {|
  euclidean_dist := euclidean_distance;
  convert_angle_to_negpi_pi_interval := normalize_angle;
  convert_into_interval := remap policy;
  linear_to_xy_velocity := velocity_from_heading;
  clip_actions := clip_all
|}.

(** Modelled from the spec: the boundary descriptor of section 3. *)
Inductive Boundary : Type :=
| Circular (radius : R)
| Square (side : R).

(** Modelled from the spec: the World of section 3, an ordered mapping
    from entity id to state, a boundary and static circular obstacles. *)
Record World : Type := mkWorld {
  boundary : Boundary;
  obstacles : list CircleEntity;
  body_radius : R;
  entities : list (string * PMBodyState)
}.

Definition set_entities (w : World) (es : list (string * PMBodyState)) : World :=
  mkWorld (boundary w) (obstacles w) (body_radius w) es.

Fixpoint find_entity (id : string) (es : list (string * PMBodyState))
  : option PMBodyState :=
  match es with
  | [] => None
  | (k, s) :: es' => if String.eqb k id then Some s else find_entity id es'
  end.

Fixpoint alter_entity (id : string) (f : PMBodyState -> PMBodyState)
    (es : list (string * PMBodyState)) : list (string * PMBodyState) :=
  match es with
  | [] => []
  | (k, s) :: es' =>
      if String.eqb k id then (k, f s) :: es' else (k, s) :: alter_entity id f es'
  end.

(** Modelled from the spec: [add_entity] of section 4.2; it fails if the
    id already exists. *)
Definition add (id : string) (w : World) : Result World :=
  match find_entity id (entities w) with
  | Some _ => Raise KeyError
  | None => Ok (set_entities w (entities w ++ [(id, mkBody 0 0 0 0 0 0)]))
  end.

(** A write to the state of a registered entity; an unknown id is a
    lookup failure (section 7). *)
Definition alter (id : string) (f : PMBodyState -> PMBodyState) (w : World)
  : Result World :=
  match find_entity id (entities w) with
  | Some _ => Ok (set_entities w (alter_entity id f (entities w)))
  | None => Raise KeyError
  end.

(** Modelled from the spec: [set_state] of section 4.2. *)
Definition set_state (id : string) (s : PMBodyState) (w : World) : Result World :=
  alter id (fun _ => s) w.

(** The engine's [update_entity_state]: the given features replace the
    stored ones. *)
Definition update_state (id : string) (angle : option R) (vel : option (R * R))
    (w : World) : Result World :=
  alter id
    (fun s =>
       let a := match angle with Some a => a | None => st_angle s end in
       let v := match vel with Some v => v | None => (st_vx s, st_vy s) end in
       mkBody (st_x s) (st_y s) a v.1 v.2 (st_vangle s))
    w.

(** Modelled from the spec: [get_state] of section 4.2. *)
Definition get_state (id : string) (w : World) : Result PMBodyState :=
  match find_entity id (entities w) with
  | Some s => Ok s
  | None => Raise KeyError
  end.

(** Modelled from the spec: boundary containment of section 4.2; a
    position past a circular boundary is projected back onto it, one
    past a square boundary is clamped. *)
Definition contain (b : Boundary) (p : R * R) : R * R :=
  match b with
  | Circular r =>
      let dx := p.1 - r in
      let dy := p.2 - r in
      let d := sqrt (dx * dx + dy * dy) in
      if Rltb r d then (r + dx * r / d, r + dy * r / d) else p
  | Square side => (Rmax 0 (Rmin side p.1), Rmax 0 (Rmin side p.2))
  end.

(** Modelled from the spec: one forward Euler sub-step of section 4.2. *)
Definition euler (b : Boundary) (h : R) (s : PMBodyState) : PMBodyState :=
  let p := contain b (st_x s + st_vx s * h, st_y s + st_vy s * h) in
  mkBody p.1 p.2 (normalize_angle (st_angle s + st_vangle s * h))
    (st_vx s) (st_vy s) (st_vangle s).

(** Modelled from the spec: [simulate(dt, substeps)] of section 4.2. *)
Definition integrate (dt : R) (substeps : nat) (w : World) : Result World :=
  let h := dt / INR substeps in
  Ok (set_entities w
        (map (fun e => (e.1, Nat.iter substeps (euler (boundary w) h) e.2))
           (entities w))).

(** A hit counts when it lies on the ray, no further than [max_range]. *)
Definition hit_in_range (max_range t : R) : option R :=
  if Rleb 0 t && Rleb t max_range then Some t else None.

(** Modelled from the spec: the ray-circle intersection of section 4.3,
    the closed-form quadratic on the line parameter; [far] selects the
    second root (the exit point, used for the boundary). *)
Definition ray_circle (o d : R * R) (max_range : R) (far : bool)
    (c : R * R) (r : R) : option R :=
  let fx := c.1 - o.1 in
  let fy := c.2 - o.2 in
  let b := d.1 * fx + d.2 * fy in
  let disc := b * b - (fx * fx + fy * fy - r * r) in
  if Rltb disc 0 then None
  else hit_in_range max_range (if far then b + sqrt disc else b - sqrt disc).

(** The intersection with the edge [x = c] (or [y = c], with the
    coordinates swapped) of a square boundary. *)
Definition ray_edge (o d : R * R) (max_range side c : R) : option R :=
  if Reqb d.1 0 then None
  else
    let t := (c - o.1) / d.1 in
    let along := o.2 + t * d.2 in
    if Rleb 0 along && Rleb along side then hit_in_range max_range t else None.

Definition swap (p : R * R) : R * R := (p.2, p.1).

Definition ray_boundary (b : Boundary) (o d : R * R) (max_range : R)
  : list (option R) :=
  match b with
  | Circular r => [ray_circle o d max_range true (r, r) r]
  | Square side =>
      [ray_edge o d max_range side 0; ray_edge o d max_range side side;
       ray_edge (swap o) (swap d) max_range side 0;
       ray_edge (swap o) (swap d) max_range side side]
  end.

(** The nearest hit, [max_range] when there is none; of two hits at the
    same distance the earlier candidate stays. *)
Definition nearest (max_range : R) (hits : list (option R)) : R :=
  fold_left (fun best h =>
               match h with
               | Some t => if Rltb t best then t else best
               | None => best
               end)
            hits max_range.

(** Modelled from the spec: the ray-cast sensor of section 4.3. *)
Definition cast_rays (w : World) (origin : Position) (max_range : R)
    (n_sensors : nat) (others : option (list (R * R)))
    (include_blocks check_border use_relative_angle : bool) : list R :=
  let o := pos_xy origin in
  map (fun k : nat =>
         let a := (if use_relative_angle then origin.2 else 0)
                  + 2 * PI * INR k / INR n_sensors in
         let d := (cos a, sin a) in
         nearest max_range
           (map (fun c => ray_circle o d max_range false c (body_radius w))
                (default [] others)
            ++ (if include_blocks
                then map (fun '(pos, r) =>
                            ray_circle o d max_range false (pos_xy pos) r)
                       (obstacles w)
                else [])
            ++ (if check_border then ray_boundary (boundary w) o d max_range
                else [])))
      (range n_sensors).

#[global] Instance world_ops : ContinuousWorld World := {|
  CircularContinuousWorld size agent_radius blocks _ _ :=
    mkWorld (Circular (size / 2)) blocks agent_radius [];
  SquareContinuousWorld size blocks agent_radius :=
    mkWorld (Square size) blocks agent_radius [];
  blocks := obstacles;
  agent_radius := body_radius;
  add_entity := add;
  set_entity_state := set_state;
  update_entity_state := update_state;
  simulate := integrate;
  get_entity_state := get_state;
  check_collision_circular_rays := cast_rays
|}.

(** A linear congruential generator standing for [random.Random]. *)
Definition lcg_next (g : Z) : Z := ((g * 1103515245 + 12345) mod 2147483648)%Z.

Definition lcg_unit (g : Z) : R := IZR g / 2147483648.

Definition lcg_pick (n : nat) (g : Z) : nat := Z.to_nat (g mod Z.of_nat n).

#[global] Instance lcg : RandomSource Z Z := {|
  std_random amb := (amb mod 2147483648)%Z;
  rng_random g := (lcg_unit g, lcg_next g);
  rng_uniform a b g := (a + (b - a) * lcg_unit g, lcg_next g);
  rng_choice seq g :=
    match seq with
    | [] => Raise IndexError
    | x :: _ => Ok (nth (lcg_pick (length seq) g) seq x, lcg_next g)
    end;
  rng_shuffle _ l g := (rotate (lcg_pick (length l) g) l, lcg_next g)
|}.

End Ref.

(** ** Concrete configurations and states

    Models over the reference engine, used below to run the definitions
    on explicit inputs. *)

Module Samples.
Import Py Core.
#[local] Open Scope R_scope.

(** The engine helpers, with the remap that clamps. *)
#[global] Instance clamping_utils : CoreUtils := Ref.utils Ref.RemapClamps.

(** A 5x5 world object with two predator start positions and one prey
    start position. *)
Definition two_start_world : PP.PPWorld Ref.World :=
  PP.mkWorld (SquareContinuousWorld 5 [] (1 / 2)) 5
    [(1 / 2, 1 / 2, 0); (9 / 2, 9 / 2, 0)] [(5 / 2, 5 / 2, 0)].

(** The same world once the model has registered two predators and one
    prey. *)
Definition pp_world : PP.PPWorld Ref.World :=
  PP.mkWorld
    (Ref.mkWorld (Ref.Square 5) [] (1 / 2)
       [("pred_0"%string, mkBody 0 0 0 0 0 0);
        ("pred_1"%string, mkBody 0 0 0 0 0 0);
        ("prey_0"%string, mkBody 0 0 0 0 0 0)])
    5 [(1 / 2, 1 / 2, 0); (9 / 2, 9 / 2, 0)] [(5 / 2, 5 / 2, 0)].

(** [PPModel(two_start_world, num_predators=2, num_prey=1,
    cooperative=True, prey_strength=None, obs_dist=2, n_sensors=10,
    use_holonomic=True)], seeded or not. *)
Definition pp_model (seed : option Z) : PP.PPModel Ref.World Z :=
  PP.mkModel pp_world 2 1 2 true 2 10 true seed.

(** Two predators in opposite corners and the prey already caught. *)
Definition pp_state_caught : PP.PPState :=
  PP.mkState
    [mkBody (1 / 2) (1 / 2) 0 0 0 0; mkBody (9 / 2) (9 / 2) 0 0 0 0]
    [PP.caught_state]
    [1%Z].

(** Both predators asked to stay where they are. *)
Definition pp_stay : list PP.PPAction := [[0; 0]; [0; 0]].

(** Two predators in opposite corners, one free prey in the middle. *)
Definition pp_state : PP.PPState :=
  PP.mkState
    [mkBody (1 / 2) (1 / 2) 0 0 0 0; mkBody (9 / 2) (9 / 2) 0 0 0 0]
    [mkBody (5 / 2) (5 / 2) 0 0 0 0]
    [0%Z].

(** The world of a drone team capture model with [n] pursuers. *)
Definition dtc_world (arena_size : R) (ids : list string) : Ref.World :=
  Ref.mkWorld (Ref.Circular (arena_size * 2 / 2)) [] 30
    (map (fun id => (id, mkBody 0 0 0 0 0 0)) ids).

(** [DroneTeamCaptureModel(num_agents=2, n_communicating_pursuers=1)]
    with the default arena (430), observation limit (430) and capture
    radius (30). *)
Definition dtc_model : DTC.DroneTeamCaptureModel Ref.World Z :=
  DTC.mkModel 2 1 false 430 30 430
    (dtc_world 430 ["pursuer_0"; "pursuer_1"; "evader"]%string) None.

(** [DroneTeamCaptureModel(num_agents=3, n_communicating_pursuers=1,
    arena_size=10)]: an arena smaller than the spacing of the pursuers'
    start line. *)
Definition dtc_small_model : DTC.DroneTeamCaptureModel Ref.World Z :=
  DTC.mkModel 3 1 false 10 30 430
    (dtc_world 10 ["pursuer_0"; "pursuer_1"; "pursuer_2"; "evader"]%string)
    None.

(** Two pursuers on their start line, the first one having turned by
    pi / 10 since the previous state, and the target 170 ahead of the
    second one. *)
Definition dtc_state : DTC.DTCState :=
  DTC.mkState
    [mkBody 380 430 (PI / 10) 0 0 0; mkBody 430 430 0 0 0 0]
    [mkBody 380 430 0 0 0 0; mkBody 430 430 0 0 0 0]
    (mkBody 600 430 0 0 0 0)
    (mkBody 600 430 0 0 0 0)
    10.

(** Both pursuers asked to keep their heading. *)
Definition dtc_straight : list DTC.DTCAction := [[0]; [0]].

(** The sample predator-prey model in mixed mode
    ([cooperative=False]). *)
Definition pp_mixed_model : PP.PPModel Ref.World Z :=
  PP.mkModel pp_world 2 1 2 false 2 10 true None.

(** The world of a model with two predators and two prey. *)
Definition pp_two_prey_world : PP.PPWorld Ref.World :=
  PP.mkWorld
    (Ref.mkWorld (Ref.Square 5) [] (1 / 2)
       [("pred_0"%string, mkBody 0 0 0 0 0 0);
        ("pred_1"%string, mkBody 0 0 0 0 0 0);
        ("prey_0"%string, mkBody 0 0 0 0 0 0);
        ("prey_1"%string, mkBody 0 0 0 0 0 0)])
    5 [(1 / 2, 1 / 2, 0); (9 / 2, 9 / 2, 0)] [(5 / 2, 5 / 2, 0); (7 / 2, 5 / 2, 0)].

(** A model with two predators and two prey, seeded. *)
Definition pp_two_prey_model : PP.PPModel Ref.World Z :=
  PP.mkModel pp_two_prey_world 2 2 2 true 2 10 true (Some 7%Z).

(** Two predators in opposite corners and two free prey side by side in
    the middle, out of sight of the predators. *)
Definition pp_two_prey_state : PP.PPState :=
  PP.mkState
    [mkBody (1 / 2) (1 / 2) 0 0 0 0; mkBody (9 / 2) (9 / 2) 0 0 0 0]
    [mkBody (5 / 2) (5 / 2) 0 0 0 0; mkBody (7 / 2) (5 / 2) 0 0 0 0]
    [0%Z; 0%Z].

(** Two predators half a cell to the left and to the right of a free
    prey. *)
Definition pp_state_cornered : PP.PPState :=
  PP.mkState
    [mkBody 2 (5 / 2) 0 0 0 0; mkBody 3 (5 / 2) 0 0 0 0]
    [mkBody (5 / 2) (5 / 2) 0 0 0 0]
    [0%Z].

(** [DroneTeamCaptureModel(num_agents=2, n_communicating_pursuers=3)]:
    more communicating pursuers than pursuers. *)
Definition dtc_overcommunicating_model : DTC.DroneTeamCaptureModel Ref.World Z :=
  DTC.mkModel 2 3 false 430 30 430
    (dtc_world 430 ["pursuer_0"; "pursuer_1"; "evader"]%string) None.

End Samples.

(** * Properties *)

(** ** Facts about the Python primitives *)

Module PyFacts.
Import Py.

Lemma Rltb_true (a b : R) : Rltb a b = true <-> (a < b)%R.
Proof. unfold Rltb. destruct (Rlt_dec a b); split; intros; auto; discriminate. Qed.

Lemma Rltb_false (a b : R) : Rltb a b = false <-> (b <= a)%R.
Proof.
  unfold Rltb. destruct (Rlt_dec a b); split; intros; auto; try discriminate; lra.
Qed.

Lemma Rleb_true (a b : R) : Rleb a b = true <-> (a <= b)%R.
Proof. unfold Rleb. destruct (Rle_dec a b); split; intros; auto; discriminate. Qed.

Lemma Rleb_false (a b : R) : Rleb a b = false <-> (b < a)%R.
Proof.
  unfold Rleb. destruct (Rle_dec a b); split; intros; auto; try discriminate; lra.
Qed.

Lemma Reqb_true (a b : R) : Reqb a b = true <-> a = b.
Proof. unfold Reqb. destruct (Req_dec_T a b); split; intros; auto; discriminate. Qed.


Lemma bind_Ok {A B} (m : Result A) (f : A -> Result B) (b : B) :
  (m ≫= f) = Ok b <-> exists a, m = Ok a /\ f a = Ok b.
Proof.
  destruct m as [a|e]; simpl; split.
  - intros Hf. exists a. auto.
  - intros (a' & Ha & Hf). congruence.
  - discriminate.
  - intros (a' & Ha & _). discriminate.
Qed.

Lemma bind_Ok_l {A B} (a : A) (f : A -> Result B) : (Ok a ≫= f) = f a.
Proof. reflexivity. Qed.

Lemma py_assert_Ok (b : bool) (u : unit) : py_assert b = Ok u <-> b = true.
Proof. destruct b, u; simpl; split; intros; auto; discriminate. Qed.

Lemma py_assert_false (b : bool) : b = false -> py_assert b = Raise AssertionError.
Proof. intros ->. reflexivity. Qed.

Lemma getitem_Ok {A} (l : list A) (i : nat) (a : A) :
  getitem l i = Ok a <-> l !! i = Some a.
Proof.
  unfold getitem. destruct (l !! i); split; intros Heq;
    try discriminate; congruence.
Qed.

Lemma getitem_lt {A} (l : list A) (i : nat) :
  (i < length l)%nat -> exists a, getitem l i = Ok a /\ l !! i = Some a.
Proof.
  intros Hi. destruct (lookup_lt_is_Some_2 l i Hi) as [a Ha].
  exists a. split; [by apply getitem_Ok | done].
Qed.

Lemma setitem_Ok {A} (l l' : list A) (i : nat) (v : A) :
  setitem l i v = Ok l' <-> (i < length l)%nat /\ l' = <[i:=v]> l.
Proof.
  unfold setitem. destruct (decide (i < length l)%nat); split.
  - intros [= <-]. auto.
  - intros [_ ->]. reflexivity.
  - discriminate.
  - intros [Hlt _]. contradiction.
Qed.

Lemma for_each_cons {S A} (x : A) (xs : list A) (body : S -> A -> Result S)
    (acc : S) :
  for_each (x :: xs) body acc = (body acc x ≫= for_each xs body).
Proof. reflexivity. Qed.

(** A loop whose body never raises returns. *)
Lemma for_each_total {S A} (xs : list A) (body : S -> A -> Result S) (acc : S) :
  (forall acc x, x ∈ xs -> exists acc', body acc x = Ok acc') ->
  exists r, for_each xs body acc = Ok r.
Proof.
  revert acc. induction xs as [|x xs IH]; intros acc Hbody; simpl.
  - eauto.
  - destruct (Hbody acc x) as [acc' Hacc']; [left |].
    rewrite Hacc'. simpl. apply IH. intros acc0 y Hy. apply Hbody. by right.
Qed.

(** An invariant of the loop body holds of the loop's result. *)
Lemma for_each_inv {S A} (P : S -> Prop) (xs : list A)
    (body : S -> A -> Result S) (acc r : S) :
  P acc ->
  (forall acc x acc', x ∈ xs -> P acc -> body acc x = Ok acc' -> P acc') ->
  for_each xs body acc = Ok r -> P r.
Proof.
  revert acc. induction xs as [|x xs IH]; intros acc Hacc Hbody; simpl.
  - intros [= <-]. done.
  - intros Hrun. apply bind_Ok in Hrun as (acc' & Hstep & Hrest).
    eapply IH; [| | exact Hrest].
    + eapply Hbody; [left | exact Hacc | exact Hstep].
    + intros acc0 y acc0' Hy. apply Hbody. by right.
Qed.

(** An invariant indexed by the elements handled so far. *)
Lemma for_each_inv_prefix {S A} (P : list A -> S -> Prop) (xs : list A)
    (body : S -> A -> Result S) (acc r : S) :
  P [] acc ->
  (forall handled x acc acc',
      P handled acc -> body acc x = Ok acc' -> P (handled ++ [x]) acc') ->
  for_each xs body acc = Ok r -> P xs r.
Proof.
  intros Hacc Hbody.
  assert (Hgen : forall handled acc,
            P handled acc -> for_each xs body acc = Ok r -> P (handled ++ xs) r).
  { induction xs as [|x xs IH]; intros handled acc0 Hacc0; simpl.
    - intros [= <-]. by rewrite app_nil_r.
    - intros Hrun. apply bind_Ok in Hrun as (acc' & Hstep & Hrest).
      rewrite cons_middle, app_assoc. eapply IH; [| exact Hrest].
      eapply Hbody; eauto. }
  apply (Hgen [] acc Hacc).
Qed.

Lemma mapM_Ok_length {A B} (f : A -> Result B) (l : list A) (k : list B) :
  mapM f l = Ok k -> length k = length l.
Proof.
  revert k. induction l as [|x l IH]; intros k; simpl.
  - intros [= <-]. done.
  - intros Hrun. apply bind_Ok in Hrun as (y & _ & Hrun).
    apply bind_Ok in Hrun as (k' & Hk' & [= <-]). simpl. f_equal. by apply IH.
Qed.

Lemma mapM_Ok_lookup {A B} (f : A -> Result B) (l : list A) (k : list B)
    (i : nat) (x : A) :
  mapM f l = Ok k -> l !! i = Some x -> exists y, k !! i = Some y /\ f x = Ok y.
Proof.
  revert k i. induction l as [|x0 l IH]; intros k i; simpl; [done |].
  intros Hrun Hi. apply bind_Ok in Hrun as (y & Hy & Hrun).
  apply bind_Ok in Hrun as (k' & Hk' & [= <-]).
  destruct i as [|i]; simpl in *.
  - injection Hi as ->. eauto.
  - eapply IH; eauto.
Qed.

Lemma mapM_total {A B} (f : A -> Result B) (l : list A) :
  (forall x, x ∈ l -> exists y, f x = Ok y) -> exists k, mapM f l = Ok k.
Proof.
  induction l as [|x l IH]; intros Hf; simpl; [eauto |].
  destruct (Hf x) as [y Hy]; [left |]. rewrite Hy, bind_Ok_l.
  destruct IH as [k Hk]; [intros z Hz; apply Hf; by right |].
  rewrite Hk, bind_Ok_l. eauto.
Qed.

Lemma length_insert_by {A} (key : A -> Key) (x : A) (l : list A) :
  length (insert_by key x l) = S (length l).
Proof.
  induction l as [|y l IH]; simpl; [done |].
  destruct (key_ltb (key y) (key x)); simpl; [by rewrite IH | done].
Qed.

Lemma length_sorted {A} (key : A -> Key) (l : list A) :
  length (sorted key l) = length l.
Proof.
  unfold sorted. induction l as [|x l IH]; simpl; [done |].
  by rewrite length_insert_by, IH.
Qed.

Lemma range_lookup (n i : nat) : (i < n)%nat -> range n !! i = Some i.
Proof. intros Hi. unfold range. by rewrite lookup_seq_lt. Qed.

Lemma range_lookup_inv (n i j : nat) : range n !! i = Some j -> j = i /\ (i < n)%nat.
Proof. unfold range. intros Hl. apply lookup_seq in Hl. lia. Qed.

(** *** Methods *)

Lemma bind_method_Ok {S A B} (c : Method S A) (f : A -> Method S B)
    (s s2 : S) (b : B) :
  bind c f s = Ok (b, s2) <-> exists a s1, c s = Ok (a, s1) /\ f a s1 = Ok (b, s2).
Proof.
  unfold bind. destruct (c s) as [[a s1]|e]; split.
  - intros Hf. exists a, s1. auto.
  - intros (a' & s1' & [= <- <-] & Hf). done.
  - discriminate.
  - intros (a' & s1' & Hc & _). discriminate.
Qed.

Lemma lift_Ok {S A} (r : Result A) (s s' : S) (a : A) :
  lift r s = Ok (a, s') <-> r = Ok a /\ s' = s.
Proof.
  unfold lift. destruct r; split.
  - intros [= <- <-]. done.
  - intros [[= <-] ->]. done.
  - discriminate.
  - intros [Hr _]. discriminate.
Qed.

Lemma ret_Ok {S A} (a b : A) (s s' : S) :
  ret a s = Ok (b, s') <-> b = a /\ s' = s.
Proof. unfold ret. split; [intros [= <- <-] | intros [-> ->]]; done. Qed.

Lemma get_self_Ok {S} (s s' t : S) : get_self s = Ok (t, s') <-> t = s /\ s' = s.
Proof. unfold get_self. split; [intros [= <- <-] | intros [-> ->]]; done. Qed.

Lemma put_self_Ok {S} (n s s' : S) (u : unit) :
  put_self n s = Ok (u, s') <-> s' = n.
Proof. unfold put_self. destruct u. split; [intros [= <-] | intros ->]; done. Qed.

(** A method keeps a relation between the attributes before and after
    it: the frame of the method. *)
Definition keeps {S A} (Rel : S -> S -> Prop) (c : Method S A) : Prop :=
  forall s a s', c s = Ok (a, s') -> Rel s s'.

Section Keeps.
Context {S : Type} (Rel : S -> S -> Prop).
Context (Rel_refl : forall s, Rel s s).
Context (Rel_trans : forall s1 s2 s3, Rel s1 s2 -> Rel s2 s3 -> Rel s1 s3).

Lemma keeps_ret {A} (a : A) : keeps Rel (ret a).
Proof using Rel_refl. intros s b s' Hr. apply ret_Ok in Hr as [_ ->]. auto. Qed.

Lemma keeps_lift {A} (r : Result A) : keeps Rel (lift r).
Proof using Rel_refl. intros s b s' Hr. apply lift_Ok in Hr as [_ ->]. auto. Qed.

Lemma keeps_get_self : keeps Rel get_self.
Proof using Rel_refl. intros s b s' Hr. apply get_self_Ok in Hr as [_ ->]. auto. Qed.

Lemma keeps_bind {A B} (c : Method S A) (f : A -> Method S B) :
  keeps Rel c -> (forall a, keeps Rel (f a)) -> keeps Rel (bind c f).
Proof using Rel_trans.
  intros Hc Hf s b s2 Hr. apply bind_method_Ok in Hr as (a & s1 & H1 & H2).
  eapply Rel_trans; [eapply Hc | eapply Hf]; eauto.
Qed.

Lemma keeps_for_each_m {A B} (xs : list A) (body : B -> A -> Method S B)
    (acc : B) :
  (forall acc x, keeps Rel (body acc x)) -> keeps Rel (for_each_m xs body acc).
Proof using Rel_refl Rel_trans.
  intros Hbody. revert acc. induction xs as [|x xs IH]; intros acc; simpl.
  - apply keeps_ret.
  - apply keeps_bind; auto.
Qed.

End Keeps.

(** The smallest of three readings and the first position holding it. *)
Lemma min_of_three (o p q : R) :
  exists m c,
    py_min [o; p; q] = Ok m /\ list_index [o; p; q] m = Ok c
    /\ ((o <= p /\ o <= q)%R -> m = o /\ c = 0%nat)
    /\ ((p < o /\ p <= q)%R -> m = p /\ c = 1%nat)
    /\ ((q < o /\ q < p)%R -> m = q /\ c = 2%nat)
    /\ (m = o \/ m = p \/ m = q) /\ (c < 3)%nat.
Proof.
  unfold py_min, list_index, index_from, Rltb, Reqb. simpl.
  destruct (Rlt_dec p o) as [Hpo|Hpo]; destruct (Rlt_dec q _) as [Hq|Hq];
    match goal with
    | |- exists m c, Ok ?v = Ok m /\ _ =>
        exists v;
        destruct (Req_dec_T o v); [| destruct (Req_dec_T p v);
                                      [| destruct (Req_dec_T q v)]]
    end;
    try (exfalso; lra); try contradiction;
    eexists; (split; [reflexivity |]); (split; [reflexivity |]);
    repeat split; intros; try lra; try lia; auto.
Qed.

End PyFacts.

(** ** The reference engine meets the laws of the interface *)

Module RefFacts.
Import Py Core Ref PyFacts.
#[local] Open Scope R_scope.

Lemma normalize_angle_range (a : R) : - PI < normalize_angle a <= PI.
Proof.
  unfold normalize_angle. pose proof PI_RGT_0 as Hpi.
  set (x := (PI - a) / (2 * PI)).
  destruct (archimed x) as [Hup1 Hup2].
  rewrite minus_IZR.
  assert (Ha : a = PI - 2 * PI * x) by (unfold x; field; lra).
  generalize dependent x. intros x Hup1 Hup2 ->. split; nra.
Qed.

Lemma normalize_angle_exact (a : R) : - PI < a <= PI -> normalize_angle a = a.
Proof.
  intros [Hlo Hhi]. unfold normalize_angle. pose proof PI_RGT_0 as Hpi.
  set (x := (PI - a) / (2 * PI)).
  assert (Hx : x * (2 * PI) = PI - a) by (unfold x; field; lra).
  assert (Hup : up x = 1%Z).
  { symmetry. apply tech_up; simpl; nra. }
  rewrite Hup. replace (1 - 1)%Z with 0%Z by lia. lra.
Qed.

Lemma remap_affine (policy : RemapPolicy) (v slo shi dlo dhi : R) :
  slo < shi -> slo <= v <= shi ->
  remap policy v slo shi dlo dhi
  = Ok (dlo + (v - slo) * (dhi - dlo) / (shi - slo)).
Proof.
  intros Hs [Hlo Hhi]. unfold remap.
  destruct (Rltb v slo) eqn:E1; [apply Rltb_true in E1; lra |].
  destruct (Rltb shi v) eqn:E2; [apply Rltb_true in E2; lra |].
  reflexivity.
Qed.

Lemma remap_in_target (policy : RemapPolicy) (v slo shi dlo dhi r : R) :
  slo < shi -> dlo <= dhi ->
  remap policy v slo shi dlo dhi = Ok r -> dlo <= r <= dhi.
Proof.
  intros Hs Hd. unfold remap.
  destruct (Rltb v slo) eqn:E1.
  { destruct policy; [discriminate |]. intros [= <-]. lra. }
  destruct (Rltb shi v) eqn:E2.
  { destruct policy; [discriminate |]. intros [= <-]. lra. }
  apply Rltb_false in E1, E2. intros [= <-].
  set (t := (v - slo) / (shi - slo)).
  assert (Ht : 0 <= t <= 1).
  { unfold t. split.
    - apply Rmult_le_pos; [lra |]. left. apply Rinv_0_lt_compat. lra.
    - apply Rmult_le_reg_r with (shi - slo); [lra |].
      unfold Rdiv. rewrite Rmult_assoc, Rinv_l by lra. lra. }
  replace ((v - slo) * (dhi - dlo) / (shi - slo)) with (t * (dhi - dlo))
    by (unfold t; field; lra).
  split; nra.
Qed.

#[global] Instance utils_laws (policy : RemapPolicy)
  : @CoreUtilsLaws (utils policy).
Proof.
  split; simpl.
  - reflexivity.
  - apply normalize_angle_range.
  - apply normalize_angle_exact.
  - apply remap_affine.
  - apply remap_in_target.
  - reflexivity.
Qed.

Lemma hit_in_range_bound (d t v : R) :
  hit_in_range d t = Some v -> 0 <= v <= d.
Proof.
  unfold hit_in_range. destruct (Rleb 0 t) eqn:E1; [| discriminate].
  destruct (Rleb t d) eqn:E2; [| discriminate].
  apply Rleb_true in E1, E2. intros [= <-]. lra.
Qed.

Lemma ray_circle_bound (o dir : R * R) (d : R) (far : bool) (c : R * R)
    (r v : R) :
  ray_circle o dir d far c r = Some v -> 0 <= v <= d.
Proof.
  unfold ray_circle. destruct (Rltb _ 0); [discriminate |].
  apply hit_in_range_bound.
Qed.

Lemma ray_edge_bound (o dir : R * R) (d side c v : R) :
  ray_edge o dir d side c = Some v -> 0 <= v <= d.
Proof.
  unfold ray_edge. destruct (Reqb _ 0); [discriminate |].
  destruct (_ && _); [| discriminate]. apply hit_in_range_bound.
Qed.

Lemma nearest_bound (d : R) (hits : list (option R)) :
  0 <= d ->
  Forall (fun h => forall v, h = Some v -> 0 <= v <= d) hits ->
  0 <= nearest d hits <= d.
Proof.
  intros Hd Hhits. unfold nearest.
  assert (Hgen : forall best, 0 <= best <= d ->
            0 <= fold_left (fun best h =>
                              match h with
                              | Some t => if Rltb t best then t else best
                              | None => best
                              end) hits best <= d).
  { induction Hhits as [|h hits Hh _ IH]; intros best Hbest; simpl; [done |].
    apply IH. destruct h as [t|]; [| done].
    destruct (Rltb t best); [by apply Hh | done]. }
  apply Hgen. lra.
Qed.

#[global] Instance world_laws : ContinuousWorldLaws World.
Proof.
  split; simpl; unfold cast_rays.
  - intros. rewrite length_map. unfold range. apply length_seq.
  - intros w origin d n others ib cb rel r Hd Hr.
    apply list_elem_of_In, in_map_iff in Hr as (k & <- & _).
    apply nearest_bound; [done |].
    rewrite !Forall_app. repeat split.
    + apply Forall_forall. intros h Hh v ->.
      apply list_elem_of_In, in_map_iff in Hh as (c & Hc & _).
      by apply ray_circle_bound in Hc.
    + destruct ib; [| constructor].
      apply Forall_forall. intros h Hh v ->.
      apply list_elem_of_In, in_map_iff in Hh as ([pos rad] & Hc & _).
      by apply ray_circle_bound in Hc.
    + destruct cb; [| constructor].
      destruct (boundary w); simpl;
        repeat (apply Forall_cons; split;
                [intros v Hv;
                 first [by apply ray_circle_bound in Hv
                       | by apply ray_edge_bound in Hv] |]);
        apply Forall_nil_2.
Qed.

End RefFacts.

(** ** Drone team capture *)

Module DTCFacts.
Import Py Core DTC PyFacts.
#[local] Open Scope R_scope.

Section Engagement.
Context {W G Amb : Type}.
Context `{CoreUtils} `{ContinuousWorld W} `{RandomSource G Amb}.
Implicit Types self : DroneTeamCaptureModel W G.

(** Beyond the observation limit the engagement is the sentinel. *)
Lemma engagement_hidden self agent_i agent_j dist_norm_factor :
  observation_limit self < euclidean_dist (xy agent_i) (xy agent_j) ->
  _engagement self agent_i agent_j dist_norm_factor = ((-1, -1), false).
Proof.
  intros Hlim. unfold _engagement.
  by replace (Rltb _ _) with true by (symmetry; by apply Rltb_true).
Qed.

(** Within the observation limit, the limit included, the engagement is
    the bearing and the normalized distance. *)
Lemma engagement_visible self agent_i agent_j dist_norm_factor :
  euclidean_dist (xy agent_i) (xy agent_j) <= observation_limit self ->
  _engagement self agent_i agent_j dist_norm_factor
  = ((bearing agent_i agent_j,
      euclidean_dist (xy agent_i) (xy agent_j) / dist_norm_factor), true).
Proof.
  intros Hlim. unfold _engagement.
  by replace (Rltb _ _) with false by (symmetry; by apply Rltb_false).
Qed.

(** C2. [_engagement] reports "not visible" - the pair (-1, -1) with
    the flag false - exactly when the distance of the two bodies is
    strictly greater than [observation_limit]; at the limit itself and
    below it the flag is true and the pair is the normalized bearing and
    the distance divided by the normalization factor. *)
Theorem engagement_sentinel_iff_beyond_limit self agent_i agent_j dist_norm_factor :
  let dist := euclidean_dist (xy agent_i) (xy agent_j) in
  ((_engagement self agent_i agent_j dist_norm_factor).2 = false
     <-> observation_limit self < dist)
  /\ (_engagement self agent_i agent_j dist_norm_factor = ((-1, -1), false)
     <-> observation_limit self < dist)
  /\ (dist <= observation_limit self ->
      _engagement self agent_i agent_j dist_norm_factor =
      ((bearing agent_i agent_j, dist / dist_norm_factor), true)).
Proof.
  intros dist.
  destruct (Rlt_le_dec (observation_limit self) dist) as [Hlim | Hlim].
  - rewrite engagement_hidden by exact Hlim.
    repeat split; auto; intros; lra.
  - rewrite engagement_visible by exact Hlim.
    repeat split; simpl; intros; try lra; discriminate.
Qed.

End Engagement.

Section Normalized.
Context {W G Amb : Type}.
Context `{CoreUtilsLaws} `{ContinuousWorld W} `{RandomSource G Amb}.
Implicit Types self : DroneTeamCaptureModel W G.

Lemma euclidean_dist_nonneg (p q : R * R) : 0 <= euclidean_dist p q.
Proof. rewrite euclidean_dist_norm. apply sqrt_pos. Qed.

Lemma bearing_range (agent_i agent_j : PMBodyState) :
  -1 < bearing agent_i agent_j <= 1.
Proof.
  unfold bearing. pose proof PI_RGT_0 as Hpi.
  match goal with
  | |- context [convert_angle_to_negpi_pi_interval ?a] =>
      destruct (negpi_pi_range a) as [Hlo Hhi];
      set (v := convert_angle_to_negpi_pi_interval a) in *
  end.
  split.
  - apply Rmult_lt_reg_r with PI; [lra |].
    unfold Rdiv. rewrite Rmult_assoc, Rinv_l by lra. lra.
  - apply Rmult_le_reg_r with PI; [lra |].
    unfold Rdiv. rewrite Rmult_assoc, Rinv_l by lra. lra.
Qed.

(** Where the features are in range: when the arena size is positive and
    the distance of the two bodies is within [observation_limit] and no
    greater than the normalization factor [2 * arena_size] (as it is for
    two bodies inside the arena), [_engagement] returns a bearing in
    (-1, 1], the normalized angle divided by pi, and a distance in
    [0, 1], the distance divided by [2 * arena_size]. *)
Theorem engagement_features_in_range self (agent_i agent_j : PMBodyState) :
  let dist := euclidean_dist (xy agent_i) (xy agent_j) in
  0 < r_arena self ->
  dist <= observation_limit self ->
  dist <= 2 * r_arena self ->
  exists alpha d,
    _engagement self agent_i agent_j (2 * r_arena self) = ((alpha, d), true)
    /\ alpha = bearing agent_i agent_j
    /\ d = dist / (2 * r_arena self)
    /\ -1 < alpha <= 1
    /\ 0 <= d <= 1.
Proof.
  intros dist Hr Hlim Hdiam.
  exists (bearing agent_i agent_j), (dist / (2 * r_arena self)).
  split; [apply engagement_visible; exact Hlim |].
  split; [done |]. split; [done |].
  split; [apply bearing_range |].
  pose proof (euclidean_dist_nonneg (xy agent_i) (xy agent_j)) as Hpos.
  fold dist in Hpos. split.
  - apply Rmult_le_pos; [lra |]. left. apply Rinv_0_lt_compat. lra.
  - apply Rmult_le_reg_r with (2 * r_arena self); [lra |].
    unfold Rdiv. rewrite Rmult_assoc, Rinv_l by lra. lra.
Qed.

End Normalized.

Section Observation.
Context {W G Amb : Type}.
Context `{CoreUtils} `{ContinuousWorld W} `{RandomSource G Amb}.
Implicit Types self : DroneTeamCaptureModel W G.

(** The loop that appends the engagements of the closest pursuers keeps
    what the vector already holds. *)
Lemma com_loop_extends (alphas dists : list R) (xs : list nat)
    (obs_i obs : list R) :
  for_each xs
    (fun obs_i idx =>
       a ← getitem alphas idx; d ← getitem dists idx; mret (obs_i ++ [a; d]))
    obs_i = Ok obs ->
  exists extra, obs = obs_i ++ extra.
Proof.
  intros Hrun.
  apply (for_each_inv (fun acc => exists extra, acc = obs_i ++ extra)) in Hrun;
    [done | by exists []; rewrite app_nil_r |].
  intros acc x acc' _ [extra ->] Hbody.
  apply bind_Ok in Hbody as (a & _ & Hbody).
  apply bind_Ok in Hbody as (d & _ & [= <-]).
  exists (extra ++ [a; d]). by rewrite app_assoc.
Qed.

(** The six leading features of the observation of pursuer [i]. *)
Lemma obs_of_pursuer_head self (state : DTCState) (i : nat) (obs : DTCObs) :
  obs_of_pursuer self state i = Ok obs ->
  exists p_i prev_p_i rates,
    pursuer_states state !! i = Some p_i
    /\ prev_pursuer_states state !! i = Some prev_p_i
    /\ (let e := _engagement self p_i (target_state state) (2 * r_arena self) in
        let e' := _engagement self prev_p_i (prev_target_state state)
                    (2 * r_arena self) in
        target_rates self e.1.1 e.1.2 e.2 e'.1.1 e'.1.2 e'.2 = Ok rates
        /\ obs !! 2%nat = Some e.1.1 /\ obs !! 3%nat = Some e.1.2)
    /\ obs !! 0%nat
       = Some (convert_angle_to_negpi_pi_interval (st_angle p_i) / PI)
    /\ obs !! 1%nat
       = Some (convert_angle_to_negpi_pi_interval (st_angle p_i) / PI
               - convert_angle_to_negpi_pi_interval (st_angle prev_p_i) / PI)
    /\ obs !! 4%nat = Some rates.1
    /\ obs !! 5%nat = Some rates.2.
Proof.
  unfold obs_of_pursuer. intros Hrun.
  apply bind_Ok in Hrun as (p_i & Hp & Hrun). apply getitem_Ok in Hp.
  destruct (_engagement self p_i _ _) as [[alpha_t dist_t] vis] eqn:He.
  apply bind_Ok in Hrun as (prev_p_i & Hprev & Hrun). apply getitem_Ok in Hprev.
  destruct (_engagement self prev_p_i _ _) as [[alpha_p dist_p] vis_p] eqn:He'.
  apply bind_Ok in Hrun as (rates & Hrates & Hrun).
  apply bind_Ok in Hrun as (engagement & _ & Hrun).
  apply bind_Ok in Hrun as ([] & _ & Hrun).
  apply com_loop_extends in Hrun as [extra ->].
  exists p_i, prev_p_i, rates. rewrite He, He'. simpl. auto 10.
Qed.

Lemma get_obs_lookup self (state : DTCState) (all : list DTCObs) (i : nat)
    (obs : DTCObs) :
  _get_obs self state = Ok all -> all !! i = Some obs ->
  obs_of_pursuer self state i = Ok obs /\ (i < n_pursuers self)%nat.
Proof.
  unfold _get_obs. intros Hall Hi.
  pose proof (mapM_Ok_length _ _ _ Hall) as Hlen.
  assert (Hlt : (i < n_pursuers self)%nat).
  { apply lookup_lt_Some in Hi. unfold range in Hlen.
    rewrite length_seq in Hlen. lia. }
  destruct (mapM_Ok_lookup _ _ _ i i Hall (range_lookup _ _ Hlt))
    as (obs' & Hobs' & Hrun).
  split; [congruence | exact Hlt].
Qed.

(** When the pursuer and the target stand where they stood in the
    previous state, the two engagements have the same visibility and the
    same distance feature. *)
Lemma engagement_same_positions self (a a' b b' : PMBodyState) (f : R) :
  xy a = xy a' -> xy b = xy b' ->
  (_engagement self a b f).2 = (_engagement self a' b' f).2
  /\ (_engagement self a b f).1.2 = (_engagement self a' b' f).1.2.
Proof.
  intros Ha Hb. unfold _engagement. rewrite Ha, Hb.
  destruct (Rltb _ _); simpl; done.
Qed.

(** The observation of pursuer [i] is returned when the state holds the
    pursuers the model expects, the model communicates with no more
    pursuers than there are, and the rates can be computed. *)
Lemma obs_of_pursuer_returns self (state : DTCState) (i : nat) :
  (i < n_pursuers self)%nat ->
  (n_pursuers self <= length (pursuer_states state))%nat ->
  (n_pursuers self <= length (prev_pursuer_states state))%nat ->
  (n_com_pursuers self <= n_pursuers self)%nat ->
  (forall a d v a' d' v', exists rates,
      target_rates self a d v a' d' v' = Ok rates) ->
  exists obs, obs_of_pursuer self state i = Ok obs.
Proof.
  intros Hi Hlen Hprev Hcom Hrates. unfold obs_of_pursuer.
  destruct (getitem_lt (pursuer_states state) i) as (p_i & -> & _); [lia |].
  rewrite bind_Ok_l.
  destruct (_engagement self p_i _ _) as [[alpha_t dist_t] vis].
  destruct (getitem_lt (prev_pursuer_states state) i) as (q_i & -> & _); [lia |].
  rewrite bind_Ok_l.
  destruct (_engagement self q_i _ _) as [[alpha_p dist_p] vis_p].
  destruct (Hrates alpha_t dist_t vis alpha_p dist_p vis_p) as [rates ->].
  rewrite bind_Ok_l. unfold relative_engagement.
  destruct (mapM_total
              (fun j : nat =>
                 if decide (j = i) then Ok (-1, -1)
                 else p_j ← getitem (pursuer_states state) j;
                      mret (_engagement self p_i p_j (2 * r_arena self)).1)
              (range (n_pursuers self))) as [engagement Heng].
  { intros j Hj. apply elem_of_seq in Hj. destruct (decide (j = i)); [eauto |].
    destruct (getitem_lt (pursuer_states state) j) as (p_j & -> & _); [lia |].
    rewrite bind_Ok_l. eauto. }
  rewrite Heng, !bind_Ok_l.
  apply mapM_Ok_length in Heng. unfold range in Heng. rewrite length_seq in Heng.
  pose proof (length_sorted engagement_key engagement) as Hsorted.
  destruct (sorted engagement_key engagement) as [|e0 sorted_eng] eqn:Hs;
    [simpl in Hsorted; lia |].
  rewrite bind_Ok_l. apply for_each_total.
  intros acc idx Hidx. apply elem_of_seq in Hidx.
  destruct (getitem_lt (map fst (e0 :: sorted_eng)) idx) as (a & -> & _);
    [rewrite length_map; lia |].
  destruct (getitem_lt (map snd (e0 :: sorted_eng)) idx) as (d & -> & _);
    [rewrite length_map; lia |].
  rewrite !bind_Ok_l. eauto.
Qed.

Lemma get_obs_returns self (state : DTCState) :
  (n_pursuers self <= length (pursuer_states state))%nat ->
  (n_pursuers self <= length (prev_pursuer_states state))%nat ->
  (n_com_pursuers self <= n_pursuers self)%nat ->
  (forall a d v a' d' v', exists rates,
      target_rates self a d v a' d' v' = Ok rates) ->
  exists all, _get_obs self state = Ok all.
Proof.
  intros Hlen Hprev Hcom Hrates. unfold _get_obs. apply mapM_total.
  intros i Hi. apply elem_of_seq in Hi.
  apply obs_of_pursuer_returns; auto; lia.
Qed.

End Observation.

Section Step.
Context {W G Amb : Type}.
Context `{CoreUtils} `{ContinuousWorld W} `{RandomSource G Amb}.
Implicit Types self : DroneTeamCaptureModel W G.

(** What [step] returns: the next state, with the observations and the
    rewards of the state it was called on. *)
Lemma step_parts (state : DTCState) (actions : list DTCAction) self self'
    (ts : JointTimestep DTCState DTCObs) :
  step state actions self = Ok (ts, self') ->
  _get_next_state state (clip_actions actions (action_spaces self)) self
  = Ok (ts_state ts, self')
  /\ _get_obs self state = Ok (ts_observations ts)
  /\ _get_rewards self state = Ok (ts_all_done ts, ts_rewards ts).
Proof.
  unfold step. intros Hrun.
  apply bind_method_Ok in Hrun as (self0 & s1 & Hg & Hrun).
  apply get_self_Ok in Hg as [-> ->].
  apply bind_method_Ok in Hrun as (next & s2 & Hnext & Hrun).
  apply bind_method_Ok in Hrun as (obs & s3 & Hobs & Hrun).
  apply lift_Ok in Hobs as [Hobs ->].
  apply bind_method_Ok in Hrun as ([all_done rewards] & s4 & Hrew & Hrun).
  apply lift_Ok in Hrew as [Hrew ->]. apply ret_Ok in Hrun as [-> ->].
  simpl. auto.
Qed.

(** And conversely. *)
Lemma step_from_parts (state next : DTCState) (actions : list DTCAction)
    self self' (obs : list DTCObs) (all_done : bool) (rewards : list R) :
  _get_next_state state (clip_actions actions (action_spaces self)) self
  = Ok (next, self') ->
  _get_obs self state = Ok obs ->
  _get_rewards self state = Ok (all_done, rewards) ->
  exists ts,
    step state actions self = Ok (ts, self')
    /\ ts_state ts = next /\ ts_observations ts = obs
    /\ ts_rewards ts = rewards /\ ts_all_done ts = all_done.
Proof.
  intros Hnext Hobs Hrew. eexists. split.
  - unfold step.
    apply bind_method_Ok. eexists _, _. split; [reflexivity |].
    apply bind_method_Ok. eexists _, _. split; [exact Hnext |].
    apply bind_method_Ok. eexists _, _. split; [apply lift_Ok; eauto |].
    apply bind_method_Ok. eexists _, _. split; [apply lift_Ok; eauto |].
    reflexivity.
  - simpl. auto.
Qed.

(** The next state keeps the state it came from as its previous one. *)
Lemma next_state_remembers (state next : DTCState) (actions : list DTCAction)
    self self' :
  _get_next_state state actions self = Ok (next, self') ->
  prev_pursuer_states next = pursuer_states state
  /\ prev_target_state next = target_state state
  /\ target_vel next = target_vel state.
Proof.
  unfold _get_next_state. intros Hrun.
  apply bind_method_Ok in Hrun as (self0 & s1 & _ & Hrun).
  apply bind_method_Ok in Hrun as ([] & s2 & _ & Hrun).
  apply bind_method_Ok in Hrun as (vel & s3 & _ & Hrun).
  apply bind_method_Ok in Hrun as ([] & s4 & _ & Hrun).
  apply bind_method_Ok in Hrun as ([] & s5 & _ & Hrun).
  apply bind_method_Ok in Hrun as ([] & s6 & _ & Hrun).
  apply bind_method_Ok in Hrun as (self1 & s7 & _ & Hrun).
  apply bind_method_Ok in Hrun as (ps & s8 & _ & Hrun).
  apply bind_method_Ok in Hrun as (t & s9 & _ & Hrun).
  apply ret_Ok in Hrun as [-> _]. simpl. auto.
Qed.

(** After a turn the observations of a state and of its successor
    differ: the first two features of a pursuer are its heading and the
    change of its heading since the previous state. *)
Lemma obs_change_after_turn self self2 (state next : DTCState)
    (all all' : list DTCObs) (i : nat) (p q : PMBodyState) :
  _get_obs self state = Ok all ->
  _get_obs self2 next = Ok all' ->
  prev_pursuer_states next = pursuer_states state ->
  (i < n_pursuers self)%nat ->
  pursuer_states state !! i = Some p ->
  prev_pursuer_states state !! i = Some q ->
  convert_angle_to_negpi_pi_interval (st_angle p)
  <> convert_angle_to_negpi_pi_interval (st_angle q) ->
  all' <> all.
Proof.
  intros Hall Hall' Hprev Hi Hp Hq Hturn ->.
  assert (Hlen : length all = n_pursuers self).
  { apply mapM_Ok_length in Hall. unfold range in Hall.
    by rewrite length_seq in Hall. }
  destruct (lookup_lt_is_Some_2 all i) as [obs Hobs]; [lia |].
  destruct (get_obs_lookup _ _ _ _ _ Hall Hobs) as [Hrun _].
  destruct (get_obs_lookup _ _ _ _ _ Hall' Hobs) as [Hrun' _].
  apply obs_of_pursuer_head in Hrun
    as (p0 & q0 & _ & Hp0 & Hq0 & _ & H0s & H1s & _).
  apply obs_of_pursuer_head in Hrun'
    as (p1 & q1 & _ & Hp1 & Hq1 & _ & H0n & H1n & _).
  rewrite Hprev in Hq1.
  assert (p0 = p) as -> by congruence. assert (q0 = q) as -> by congruence.
  assert (q1 = p) as -> by congruence.
  rewrite H0s in H0n. rewrite H1s in H1n.
  injection H0n as H0n. injection H1n as H1n.
  apply Hturn. pose proof PI_RGT_0 as Hpi.
  apply Rmult_eq_reg_r with (/ PI); [| apply Rinv_neq_0_compat; lra].
  unfold Rdiv in *. lra.
Qed.

End Step.

(** With the remap that clamps, the rates can always be computed. *)
Lemma clamping_target_rates_return
    (self : DroneTeamCaptureModel Ref.World Z) (a d a' d' : R) (v v' : bool) :
  exists rates, target_rates self a d v a' d' v' = Ok rates.
Proof.
  unfold target_rates. destruct (negb v || negb v'); [eauto |].
  simpl. unfold Ref.remap.
  destruct (Rltb _ _); [rewrite bind_Ok_l; eauto |].
  destruct (Rltb _ _); rewrite bind_Ok_l; eauto.
Qed.

Section Rates.
Context {W G Amb : Type}.
Context `{CoreUtilsLaws} `{ContinuousWorld W} `{RandomSource G Amb}.
Implicit Types self : DroneTeamCaptureModel W G.

Lemma max_rate_positive self :
  0 < r_arena self -> 0 < norm_max_rel_dist_change self.
Proof.
  intros Hr. unfold norm_max_rel_dist_change, max_rel_dist_change,
    max_pursuer_vel, target_rel_vel_bounds. simpl.
  apply Rmult_lt_0_compat; [lra |]. apply Rinv_0_lt_compat. lra.
Qed.



(** [target_rates] returns when the two distance features differ by no
    more than the static bound. *)
Lemma target_rates_returns self (a d a' d' : R) (v v' : bool) :
  0 < r_arena self ->
  - norm_max_rel_dist_change self <= d - d' <= norm_max_rel_dist_change self ->
  exists rates, target_rates self a d v a' d' v' = Ok rates.
Proof.
  intros Hr Hdiff. unfold target_rates.
  destruct (negb v || negb v'); [eauto |].
  pose proof (max_rate_positive self Hr) as Hmax.
  rewrite remap_within by lra. rewrite bind_Ok_l. eauto.
Qed.


End Rates.

Lemma Rltb_is_true (a b : R) : a < b -> Rltb a b = true.
Proof. apply Rltb_true. Qed.

Lemma Rltb_is_false (a b : R) : b <= a -> Rltb a b = false.
Proof. apply Rltb_false. Qed.

Lemma sample_distances :
  Ref.euclidean_distance (380, 430) (600, 430) = 220
  /\ Ref.euclidean_distance (430, 430) (600, 430) = 170.
Proof.
  unfold Ref.euclidean_distance. simpl. split.
  - replace ((380 - 600) * (380 - 600) + (430 - 430) * (430 - 430))
      with (220 * 220) by lra.
    apply sqrt_square. lra.
  - replace ((430 - 600) * (430 - 600) + (430 - 430) * (430 - 430))
      with (170 * 170) by lra.
    apply sqrt_square. lra.
Qed.

(** The rewards of the sample state: nobody is within the capture
    radius, and both rewards are negative. *)
Lemma sample_rewards :
  exists r0 r1,
    _get_rewards Samples.dtc_model Samples.dtc_state = Ok (false, [r0; r1])
    /\ r0 < 0 /\ r1 < 0.
Proof.
  destruct sample_distances as [H0 H1].
  unfold _get_rewards, _q_parameter, _get_closest_pursuer, _target_distance,
    _get_unit_vectors, possible_agents.
  simpl. unfold xy. simpl. rewrite !H0, !H1.
  rewrite (Rltb_is_true 170 220) by lra. simpl.
  rewrite (Rltb_is_false 220 30) by lra. simpl. rewrite !H1.
  rewrite (Rltb_is_false 170 30) by lra. simpl.
  eexists _, _. split; [reflexivity |].
  unfold np_dot. simpl. split; lra.
Qed.

(** C10, at the sample state: the reward of agent 0 is below the lower
    end of the interval [reward_ranges] declares for it. *)
Theorem sample_reward_below_declared_range :
  exists done rewards r lo hi,
    _get_rewards Samples.dtc_model Samples.dtc_state = Ok (done, rewards)
    /\ rewards !! 0%nat = Some r
    /\ reward_ranges Samples.dtc_model !! 0%nat = Some (lo, hi)
    /\ lo = 0 /\ hi = 130
    /\ r < lo.
Proof.
  destruct sample_rewards as (r0 & r1 & Hrun & Hneg & _).
  exists false, [r0; r1], r0, 0, R_MAX.
  split; [exact Hrun |]. repeat split; auto.
Qed.

Lemma sample_next_state :
  exists next self',
    _get_next_state Samples.dtc_state
      (clip_actions Samples.dtc_straight (action_spaces Samples.dtc_model))
      Samples.dtc_model = Ok (next, self')
    /\ n_pursuers self' = 2%nat /\ n_com_pursuers self' = 1%nat
    /\ length (pursuer_states next) = 2%nat
    /\ length (prev_pursuer_states next) = 2%nat.
Proof. eexists _, _. split; [reflexivity |]. repeat split; reflexivity. Qed.

(** C6, at the sample state: the observations and the rewards [step]
    returns are those of the state it was called on, and the
    observations of the state it returns are different ones. *)
Theorem sample_step_observes_previous_state :
  exists ts self' obs',
    step Samples.dtc_state Samples.dtc_straight Samples.dtc_model
    = Ok (ts, self')
    /\ _get_obs Samples.dtc_model Samples.dtc_state = Ok (ts_observations ts)
    /\ _get_rewards Samples.dtc_model Samples.dtc_state
       = Ok (ts_all_done ts, ts_rewards ts)
    /\ _get_obs self' (ts_state ts) = Ok obs'
    /\ obs' <> ts_observations ts.
Proof.
  destruct sample_next_state as (next & self' & Hnext & Hn & Hc & Hl & Hlp).
  destruct sample_rewards as (r0 & r1 & Hrew & _).
  destruct (get_obs_returns Samples.dtc_model Samples.dtc_state)
    as [obs Hobs]; [simpl; lia | simpl; lia | simpl; lia
                    | intros; apply clamping_target_rates_return |].
  destruct (get_obs_returns self' next) as [obs' Hobs'];
    [lia | lia | lia | intros; apply clamping_target_rates_return |].
  destruct (step_from_parts _ _ _ _ _ _ _ _ Hnext Hobs Hrew)
    as (ts & Hstep & Hts & Htobs & Htrew & Htdone).
  exists ts, self', obs'. rewrite Hts, Htobs, Htrew, Htdone.
  repeat (split; [done |]).
  apply next_state_remembers in Hnext as (Hprev & _).
  eapply (obs_change_after_turn _ _ _ _ _ _ 0%nat);
    [exact Hobs | exact Hobs' | exact Hprev | simpl; lia
     | reflexivity | reflexivity |].
  simpl. pose proof PI_RGT_0 as Hpi.
  rewrite !RefFacts.normalize_angle_exact by lra. lra.
Qed.


Lemma sample_engagement_in_range :
  exists alpha d,
    _engagement Samples.dtc_model (mkBody 380 430 0 0 0 0)
      (mkBody 600 430 0 0 0 0) (2 * 430) = ((alpha, d), true)
    /\ -1 < alpha <= 1 /\ 0 <= d <= 1.
Proof.
  assert (Hdist : euclidean_dist (xy (mkBody 380 430 0 0 0 0))
                    (xy (mkBody 600 430 0 0 0 0)) = 220).
  { simpl. unfold Ref.euclidean_distance. simpl.
    replace ((380 - 600) * (380 - 600) + (430 - 430) * (430 - 430))
      with (220 * 220) by lra.
    apply sqrt_square. lra. }
  destruct (engagement_features_in_range Samples.dtc_model
              (mkBody 380 430 0 0 0 0) (mkBody 600 430 0 0 0 0))
    as (alpha & d & Heng & _ & _ & Ha & Hd).
  - simpl. lra.
  - rewrite Hdist. simpl. lra.
  - rewrite Hdist. simpl. lra.
  - exists alpha, d. auto.
Defined.

(** C4, in the arena of size 10: the first and third pursuer of the
    start line are 100 apart, within the observation limit 430, so their
    engagement is visible, and its distance feature is 100 / 20 = 5,
    outside the range [-1, 1] that the docstring of [_engagement], the
    feature table of the class and the observation space declare. *)
Theorem small_arena_distance_feature_exceeds_one :
  exists alpha d,
    _engagement Samples.dtc_small_model (mkBody (-40) 10 0 0 0 0)
      (mkBody 60 10 0 0 0 0) (2 * r_arena Samples.dtc_small_model)
    = ((alpha, d), true)
    /\ euclidean_dist (xy (mkBody (-40) 10 0 0 0 0)) (xy (mkBody 60 10 0 0 0 0))
       <= observation_limit Samples.dtc_small_model
    /\ 1 < d.
Proof.
  assert (Hdist : euclidean_dist (xy (mkBody (-40) 10 0 0 0 0))
                    (xy (mkBody 60 10 0 0 0 0)) = 100).
  { simpl. unfold Ref.euclidean_distance. simpl.
    replace ((-40 - 60) * (-40 - 60) + (10 - 10) * (10 - 10))
      with (100 * 100) by lra.
    apply sqrt_square. lra. }
  eexists _, _. split; [apply engagement_visible; rewrite Hdist; simpl; lra |].
  rewrite Hdist. simpl. lra.
Qed.

(** The two bodies of that engagement are pursuers 0 and 2 of the
    state [sample_initial_state] returns for that model. *)
Lemma small_arena_start_line (entropy : Z) :
  exists state self',
    sample_initial_state entropy Samples.dtc_small_model = Ok (state, self')
    /\ pursuer_states state !! 0%nat = Some (mkBody (-40) 10 0 0 0 0)
    /\ pursuer_states state !! 2%nat = Some (mkBody 60 10 0 0 0 0).
Proof.
  eexists _, _. split.
  - cbv [sample_initial_state bind get_self rng_draw rng put_self ret].
    simpl. reflexivity.
  - simpl. split; do 2 f_equal; lra.
Qed.

End DTCFacts.

(** ** Predator-prey *)

Module PPFacts.
Import Py Core PP PyFacts.
#[local] Open Scope R_scope.

Section Construction.
Context {W G Amb : Type}.
Context `{CoreUtils} `{ContinuousWorld W} `{RandomSource G Amb}.

(** The configurations the constructor must refuse. *)
Definition bad_configuration (world : WorldArg W) (num_predators num_prey : Z)
    (prey_strength : option Z) (obs_dist : R) : Prop :=
  ~ (1 < num_predators <= 8)%Z
  \/ (num_prey <= 0)%Z
  \/ obs_dist <= 0
  \/ (exists s, prey_strength = Some s /\ ~ (0 < s <= Z.min 4 num_predators)%Z)
  \/ (exists w, chosen_world world = Ok w
        /\ ((Z.of_nat (length (predator_start_positions w)) < num_predators)%Z
            \/ (Z.of_nat (length (prey_start_positions w)) < num_prey)%Z)).

(** C7. The constructor of [PPModel] raises an assertion error, and so
    builds no model, when there are more predators than predator start
    positions in the chosen world or more prey than prey start positions,
    when the number of predators is not in 2..8, when the number of prey
    or the observation distance is not positive, and when a given prey
    strength is outside (0, min(4, num_predators)]. *)
Theorem init_rejects_bad_configuration (world : WorldArg W)
    (num_predators num_prey : Z) (cooperative : bool) (prey_strength : option Z)
    (obs_dist : R) (n_sensors : nat) (use_holonomic : bool) :
  bad_configuration world num_predators num_prey prey_strength obs_dist ->
  __init__ (G := G) world num_predators num_prey cooperative prey_strength
    obs_dist n_sensors use_holonomic = Raise AssertionError.
Proof.
  intros Hbad. unfold __init__.
  destruct ((1 <? num_predators)%Z && (num_predators <=? 8)%Z) eqn:Hn;
    [simpl | reflexivity].
  destruct (0 <? num_prey)%Z eqn:Hp; [simpl | reflexivity].
  destruct (Rltb 0 obs_dist) eqn:Ho; [simpl | reflexivity].
  destruct ((0 <? default (Z.min 4 num_predators) prey_strength)%Z
            && (default (Z.min 4 num_predators) prey_strength
                <=? Z.min 4 num_predators)%Z) eqn:Hs.
  2:{ destruct prey_strength; simpl in *; rewrite Hs; reflexivity. }
  apply andb_true_iff in Hn as [Hn1 Hn2], Hs as [Hs1 Hs2].
  apply Z.ltb_lt in Hn1, Hp, Hs1. apply Z.leb_le in Hn2, Hs2.
  apply Rltb_true in Ho.
  destruct Hbad as [Hb | [Hb | [Hb | [(s & -> & Hb) | (w & Hw & Hb)]]]];
    try lia; try lra.
  - simpl in *. lia.
  - replace (match prey_strength with Some s => s | None => Z.min 4 num_predators end)
      with (default (Z.min 4 num_predators) prey_strength)
      by (destruct prey_strength; reflexivity).
    destruct (_ && _) eqn:Hs'; simpl; [| reflexivity].
    rewrite Hw. simpl.
    destruct (num_predators <=? _)%Z eqn:Hc1; [simpl | reflexivity].
    destruct (num_prey <=? _)%Z eqn:Hc2; [simpl | reflexivity].
    apply Z.leb_le in Hc1, Hc2. lia.
Qed.

End Construction.

Section Observation.
Context {W G Amb : Type}.
Context `{CoreUtils} `{ContinuousWorld W} `{RandomSource G Amb}.
Implicit Types self : PPModel W G.

(** What sensor [k] leaves in its three slots: the smallest reading in
    the slot of its class (the earliest class on a tie), the no-hit
    value [d] in the other two. *)
Definition sensor_slots (n : nat) (d : R) (walls preds preys obs : list R)
    (k : nat) : Prop :=
  exists o p q,
    walls !! k = Some o /\ preds !! k = Some p /\ preys !! k = Some q
    /\ ((o <= p /\ o <= q) ->
        obs !! k = Some o /\ obs !! (n + k)%nat = Some d
        /\ obs !! (2 * n + k)%nat = Some d)
    /\ ((p < o /\ p <= q) ->
        obs !! k = Some d /\ obs !! (n + k)%nat = Some p
        /\ obs !! (2 * n + k)%nat = Some d)
    /\ ((q < o /\ q < p) ->
        obs !! k = Some d /\ obs !! (n + k)%nat = Some d
        /\ obs !! (2 * n + k)%nat = Some q).

(** The state of the observation vector when the sensors below [t] have
    been handled. *)
Definition assembled_upto (n : nat) (d : R) (walls preds preys : list R)
    (t : nat) (obs : list R) : Prop :=
  length obs = (3 * n)%nat
  /\ (forall j v, obs !! j = Some v -> 0 <= v <= d)
  /\ (forall k, (k < t)%nat -> sensor_slots n d walls preds preys obs k)
  /\ (forall k, (t <= k < n)%nat ->
        obs !! k = Some d /\ obs !! (n + k)%nat = Some d
        /\ obs !! (2 * n + k)%nat = Some d).

Lemma assemble_obs_step self (walls preds preys obs : list R) (t : nat) :
  let n := n_sensors self in
  let d := obs_dist self in
  length walls = n -> length preds = n -> length preys = n ->
  (forall r, r ∈ walls ++ preds ++ preys -> 0 <= r <= d) ->
  (t < n)%nat ->
  assembled_upto n d walls preds preys t obs ->
  exists obs',
    (o ← getitem walls t;
     p ← getitem preds t;
     q ← getitem preys t;
     min_val ← py_min [o; p; q];
     min_idx ← list_index [o; p; q] min_val;
     setitem obs (min_idx * n + t)%nat min_val) = Ok obs'
    /\ assembled_upto n d walls preds preys (S t) obs'.
Proof.
  intros n d Hw Hp Hq Hrange Ht (Hlen & Hbound & Hdone & Htodo).
  destruct (getitem_lt walls t) as (o & -> & Ho); [lia |].
  rewrite bind_Ok_l.
  destruct (getitem_lt preds t) as (p & -> & Hp'); [lia |].
  rewrite bind_Ok_l.
  destruct (getitem_lt preys t) as (q & -> & Hq'); [lia |].
  rewrite bind_Ok_l.
  destruct (min_of_three o p q) as (m & c & -> & Hci & M0 & M1 & M2 & Hm & Hc).
  rewrite bind_Ok_l, Hci, bind_Ok_l.
  assert (Hidx : (c * n + t < length obs)%nat).
  { rewrite Hlen. destruct c as [|[|[|c]]]; lia. }
  exists (<[(c * n + t)%nat := m]> obs). split.
  { apply setitem_Ok. auto. }
  assert (Hmr : 0 <= m <= d).
  { apply Hrange. rewrite !elem_of_app.
    destruct Hm as [-> | [-> | ->]];
      [left | right; left | right; right]; eapply list_elem_of_lookup_2; eauto. }
  destruct (Htodo t) as (Ht0 & Ht1 & Ht2); [lia |].
  split; [| split; [| split]].
  - by rewrite length_insert.
  - intros j v Hj. destruct (decide (j = c * n + t)%nat) as [-> | Hne].
    + rewrite list_lookup_insert_eq in Hj by done. injection Hj as <-. lra.
    + rewrite list_lookup_insert_ne in Hj by done. by apply Hbound in Hj.
  - intros k Hk. destruct (decide (k = t)) as [-> | Hkt].
    + exists o, p, q. split; [done |]. split; [done |]. split; [done |].
      split; [| split]; intros Hcase.
      * destruct (M0 Hcase) as [-> ->]. simpl in *.
        rewrite list_lookup_insert_eq by lia.
        rewrite !list_lookup_insert_ne by lia. done.
      * destruct (M1 Hcase) as [-> ->].
        replace (1 * n + t)%nat with (n + t)%nat in * by lia.
        rewrite list_lookup_insert_eq by lia.
        rewrite !list_lookup_insert_ne by lia. done.
      * destruct (M2 Hcase) as [-> ->].
        rewrite list_lookup_insert_eq by lia.
        rewrite !list_lookup_insert_ne by lia. done.
    + destruct (Hdone k) as (o' & p' & q' & ? & ? & ? & C0 & C1 & C2); [lia |].
      assert (Hk' : (k < n)%nat) by lia.
      assert (Hother : forall i, (i = k \/ i = n + k \/ i = 2 * n + k)%nat ->
                <[(c * n + t)%nat := m]> obs !! i = obs !! i).
      { intros i Hi. apply list_lookup_insert_ne.
        destruct c as [|[|[|c]]]; lia. }
      exists o', p', q'. split; [done |]. split; [done |]. split; [done |].
      rewrite !Hother by auto. done.
  - intros k Hk. destruct (Htodo k) as (? & ? & ?); [lia |].
    rewrite !list_lookup_insert_ne by (destruct c as [|[|[|c]]]; lia). done.
Qed.

Lemma assemble_obs_loop self (walls preds preys : list R) :
  let n := n_sensors self in
  let d := obs_dist self in
  length walls = n -> length preds = n -> length preys = n ->
  (forall r, r ∈ walls ++ preds ++ preys -> 0 <= r <= d) ->
  forall len t obs,
    (t + len = n)%nat ->
    assembled_upto n d walls preds preys t obs ->
    exists obs',
      for_each (seq t len)
        (fun obs k =>
           o ← getitem walls k;
           p ← getitem preds k;
           q ← getitem preys k;
           min_val ← py_min [o; p; q];
           min_idx ← list_index [o; p; q] min_val;
           setitem obs (min_idx * n + k)%nat min_val)
        obs = Ok obs'
      /\ assembled_upto n d walls preds preys n obs'.
Proof.
  intros n d Hw Hp Hq Hrange len.
  induction len as [|len IH]; intros t obs Hsum Hinv.
  - exists obs. split; [done |]. replace t with n in Hinv by lia. exact Hinv.
  - rewrite <- cons_seq, for_each_cons.
    destruct (assemble_obs_step self walls preds preys obs t)
      as (obs1 & Hstep & Hinv1); auto; [lia |].
    fold n in Hstep |- *. rewrite Hstep, bind_Ok_l. apply IH; [lia | done].
Qed.

Lemma assemble_obs_spec self (walls preds preys : list R) :
  let n := n_sensors self in
  let d := obs_dist self in
  0 <= d ->
  length walls = n -> length preds = n -> length preys = n ->
  (forall r, r ∈ walls ++ preds ++ preys -> 0 <= r <= d) ->
  exists obs,
    assemble_obs self walls preds preys = Ok obs
    /\ assembled_upto n d walls preds preys n obs.
Proof.
  intros n d Hd Hw Hp Hq Hrange. unfold assemble_obs, range.
  apply assemble_obs_loop; auto.
  split; [| split; [| split]].
  - rewrite length_replicate. unfold obs_dim. lia.
  - intros j v Hj. apply lookup_replicate in Hj as [-> _]. fold d. lra.
  - intros k Hk. lia.
  - intros k Hk. unfold obs_dim. fold n d.
    rewrite !lookup_replicate_2 by lia. done.
Qed.

Lemma enumerate_lt {A} (l : list A) (i : nat) (x : A) :
  (i, x) ∈ enumerate l -> (i < length l)%nat.
Proof.
  unfold enumerate. intros Hin. apply elem_of_zip_l in Hin.
  apply elem_of_seq in Hin. lia.
Qed.

Lemma active_prey_coords_total (state : PPState) :
  (length (prey_states state) <= length (prey_caught state))%nat ->
  exists coords, active_prey_coords state = Ok coords.
Proof.
  intros Hlen. unfold active_prey_coords. apply for_each_total.
  intros acc [i s] Hin. apply enumerate_lt in Hin.
  destruct (getitem_lt (prey_caught state) i) as (c & -> & _); [lia |].
  rewrite bind_Ok_l. destruct (negb (truthy c)); eauto.
Qed.

Context `{!ContinuousWorldLaws W}.

(** The local observation is returned and is the assembled vector. *)
Lemma local_obs_assembled self (agent : nat) (state : PPState) :
  0 <= obs_dist self ->
  is_Some (predator_states state !! agent) ->
  (length (prey_states state) <= length (prey_caught state))%nat ->
  exists walls preds preys obs,
    sensor_readings self agent state = Ok (walls, preds, preys)
    /\ _get_local_obs self agent state = Ok obs
    /\ assembled_upto (n_sensors self) (obs_dist self) walls preds preys
         (n_sensors self) obs.
Proof.
  intros Hd [s_i Hs] Hlen.
  destruct (active_prey_coords_total state Hlen) as [coords Hcoords].
  unfold _get_local_obs, sensor_readings.
  apply getitem_Ok in Hs. rewrite Hs, !bind_Ok_l, Hcoords, !bind_Ok_l.
  set (pos := (st_x s_i, st_y s_i, st_angle s_i)).
  set (w := base (world self)).
  set (preys := check_collision_circular_rays w pos _ _ (Some coords) _ _ _).
  set (preds := check_collision_circular_rays w pos _ _ (Some _) _ _ _).
  set (walls := check_collision_circular_rays w pos _ _ None _ _ _).
  assert (Hrange : forall r, r ∈ walls ++ preds ++ preys ->
            0 <= r <= obs_dist self).
  { intros r. rewrite !elem_of_app.
    intros [Hr | [Hr | Hr]]; eapply rays_range; eauto. }
  destruct (assemble_obs_spec self walls preds preys Hd)
    as (obs & Hobs & Hinv);
    [apply rays_length | apply rays_length | apply rays_length | exact Hrange |].
  exists walls, preds, preys, obs. rewrite Hobs. done.
Qed.


Lemma get_obs_total self (state : PPState) :
  0 <= obs_dist self ->
  (num_predators self <= length (predator_states state))%nat ->
  (length (prey_states state) <= length (prey_caught state))%nat ->
  exists obs, get_obs self state = Ok obs.
Proof.
  intros Hd Hpred Hprey. unfold get_obs. apply mapM_total.
  intros i Hi. apply elem_of_seq in Hi.
  destruct (local_obs_assembled self i state Hd)
    as (_ & _ & _ & obs & _ & Hobs & _); [| done | eauto].
  apply lookup_lt_is_Some_2. lia.
Qed.

End Observation.

Section Dynamics.
Context {W G Amb : Type}.
Context `{CoreUtils} `{ContinuousWorld W} `{RandomSource G Amb}.
Implicit Types self : PPModel W G.

(** The attributes a method never writes: everything but the bodies
    stored in the world and the generator. *)
Definition same_config self self' : Prop :=
  num_predators self' = num_predators self
  /\ num_prey self' = num_prey self
  /\ obs_dist self' = obs_dist self
  /\ cooperative self' = cooperative self
  /\ prey_strength self' = prey_strength self
  /\ n_sensors self' = n_sensors self
  /\ use_holonomic self' = use_holonomic self.

Lemma same_config_refl self : same_config self self.
Proof. by repeat split. Qed.

Lemma same_config_trans self1 self2 self3 :
  same_config self1 self2 -> same_config self2 self3 -> same_config self1 self3.
Proof. unfold same_config. intuition congruence. Qed.

Lemma keeps_put_world self (w : PPWorld W) :
  keeps (fun _ self' => same_config self self') (put_self (set_world self w)).
Proof. intros s [] s' Hp. apply put_self_Ok in Hp as ->. by repeat split. Qed.

Lemma keeps_put_rng self (g : option G) :
  keeps (fun _ self' => same_config self self') (put_self (set_rng self g)).
Proof. intros s [] s' Hp. apply put_self_Ok in Hp as ->. by repeat split. Qed.

Lemma keeps_on_world (f : W -> Result W) : keeps same_config (on_world f).
Proof.
  intros s [] s' Hr. unfold on_world in Hr.
  apply bind_method_Ok in Hr as (self & s1 & Hg & Hr).
  apply get_self_Ok in Hg as [-> ->].
  apply bind_method_Ok in Hr as (w & s2 & Hl & Hr).
  apply lift_Ok in Hl as [_ ->]. apply put_self_Ok in Hr as ->. by repeat split.
Qed.

Lemma keeps_rng (entropy : Amb) : keeps same_config (rng entropy).
Proof.
  intros s g s' Hr. unfold rng in Hr.
  apply bind_method_Ok in Hr as (self & s1 & Hg & Hr).
  apply get_self_Ok in Hg as [-> ->].
  destruct (_rng s).
  - apply ret_Ok in Hr as [_ ->]. apply same_config_refl.
  - apply bind_method_Ok in Hr as ([] & s2 & Hp & Hr).
    apply put_self_Ok in Hp as ->. apply ret_Ok in Hr as [_ ->]. by repeat split.
Qed.

Lemma keeps_draw {A} (entropy : Amb) (f : G -> Result (A * G)) :
  keeps same_config (draw entropy f).
Proof.
  unfold draw. apply (keeps_bind _ same_config_trans); [apply keeps_rng |].
  intros g. apply (keeps_bind _ same_config_trans);
    [apply (keeps_lift _ same_config_refl) |].
  intros [a g'] s b s' Hr.
  apply bind_method_Ok in Hr as (self & s1 & Hg & Hr).
  apply get_self_Ok in Hg as [-> ->].
  apply bind_method_Ok in Hr as ([] & s2 & Hp & Hr).
  apply put_self_Ok in Hp as ->. apply ret_Ok in Hr as [_ ->]. by repeat split.
Qed.

(** Decomposes a goal on the frame of a method along its structure. *)
Ltac frame :=
  repeat match goal with
    | |- keeps _ (on_world _) => apply keeps_on_world
    | |- keeps _ (draw _ _) => apply keeps_draw
    | |- keeps _ (choice _ _) => apply keeps_draw
    | |- keeps _ (uniform _ _ _) => apply keeps_draw
    | |- keeps _ (shuffle _ _) => apply keeps_draw
    | |- keeps _ (ret _) => apply (keeps_ret _ same_config_refl)
    | |- keeps _ (lift _) => apply (keeps_lift _ same_config_refl)
    | |- keeps _ get_self => apply (keeps_get_self _ same_config_refl)
    | |- keeps _ (for_each_m _ _ _) =>
        apply (keeps_for_each_m _ same_config_refl same_config_trans); intros
    | |- keeps _ (bind _ _) => apply (keeps_bind _ same_config_trans); [| intros]
    | |- keeps _ (if ?b then _ else _) => destruct b
    | |- keeps _ (match ?x with _ => _ end) => destruct x
    | |- keeps _ _ => assumption
    end.

Lemma keeps_prey_move_angle (entropy : Amb) (state : PPState) (active : Z)
    (i : nat) :
  keeps same_config (prey_move_angle entropy state active i).
Proof. unfold prey_move_angle. frame. Qed.

Lemma keeps_prey_move_angles (entropy : Amb) (state : PPState) :
  keeps same_config (_get_prey_move_angles entropy state).
Proof.
  unfold _get_prey_move_angles.
  pose proof (keeps_prey_move_angle entropy state) as Ha. frame. apply Ha.
Qed.

Lemma keeps_next_state (entropy : Amb) (state : PPState)
    (actions : list PPAction) :
  keeps same_config (_get_next_state entropy state actions).
Proof.
  unfold _get_next_state, apply_prey_action, apply_predator_action.
  pose proof (keeps_prey_move_angles entropy state) as Ha. frame.
Qed.

Lemma keeps_step (entropy : Amb) (state : PPState) (actions : list PPAction) :
  keeps same_config (step entropy state actions).
Proof.
  unfold step. pose proof (keeps_next_state entropy state) as Hn. frame.
  apply Hn.
Qed.

(** The capture loop leaves a prey that was caught as it was flagged,
    gives it the caught state, and never lowers a flag. *)
Lemma resolve_captures_frozen self (state : PPState)
    (next_pred_states next_prey_states states : list PMBodyState)
    (caught : list Z) :
  resolve_captures self state next_pred_states next_prey_states
  = Ok (states, caught) ->
  (forall i c, prey_caught state !! i = Some c ->
     exists c', caught !! i = Some c' /\ (c <= c')%Z /\ (truthy c = true -> c' = c))
  /\ (forall i c, (i < num_prey self)%nat -> prey_caught state !! i = Some c ->
       truthy c = true -> states !! i = Some caught_state).
Proof.
  unfold resolve_captures. intros Hrun.
  set (P := fun (handled : list nat) (acc : list PMBodyState * list Z) =>
              (forall i c, prey_caught state !! i = Some c ->
                 exists c', acc.2 !! i = Some c' /\ (c <= c')%Z
                            /\ (truthy c = true -> c' = c))
              /\ (forall i c, i ∈ handled -> prey_caught state !! i = Some c ->
                   truthy c = true -> acc.1 !! i = Some caught_state)).
  apply (for_each_inv_prefix P) in Hrun.
  - destruct Hrun as [Hflags Hstates]. split; [exact Hflags |].
    intros i c Hi. apply Hstates. apply elem_of_seq. lia.
  - split; simpl.
    + intros i c Hc. exists c. repeat split; [done | lia].
    + intros i c Hi. by apply elem_of_nil in Hi.
  - intros handled x [S C] [S' C'] [Hflags Hstates] Hbody. simpl in *.
    apply bind_Ok in Hbody as (c & Hc & Hbody). apply getitem_Ok in Hc.
    destruct (truthy c) eqn:Htruthy.
    + apply bind_Ok in Hbody as (S1 & HS1 & [= <- <-]).
      apply setitem_Ok in HS1 as [Hlt ->].
      split; simpl; [exact Hflags |].
      intros i c0 Hi Hc0 Ht. apply elem_of_app in Hi as [Hi | Hi].
      * destruct (decide (i = x)) as [-> | Hne].
        -- by rewrite list_lookup_insert_eq.
        -- rewrite list_lookup_insert_ne by done. eauto.
      * apply list_elem_of_singleton in Hi as ->. by rewrite list_lookup_insert_eq.
    + assert (Hhandled : forall S2, (S2 = S \/ S2 = <[x := caught_state]> S) ->
                forall i c0, i ∈ handled ++ [x] -> prey_caught state !! i = Some c0 ->
                truthy c0 = true -> S2 !! i = Some caught_state).
      { intros S2 HS2 i c0 Hi Hc0 Ht. apply elem_of_app in Hi as [Hi | Hi].
        - destruct HS2 as [-> | ->]; [eauto |].
          destruct (decide (i = x)) as [-> | Hne]; [congruence |].
          rewrite list_lookup_insert_ne by done. eauto.
        - apply list_elem_of_singleton in Hi as ->. congruence. }
      apply bind_Ok in Hbody as (prey_i & _ & Hbody).
      destruct (bool_decide _).
      * apply bind_Ok in Hbody as (C1 & HC1 & Hbody).
        apply bind_Ok in Hbody as (S1 & HS1 & [= <- <-]).
        apply setitem_Ok in HC1 as [HltC ->], HS1 as [HltS ->].
        split; simpl; [| apply Hhandled; auto].
        intros i c0 Hc0. destruct (decide (i = x)) as [-> | Hne].
        -- rewrite list_lookup_insert_eq by done. exists 1%Z.
           assert (c0 = c) as -> by congruence.
           unfold truthy in Htruthy. apply negb_false_iff, Z.eqb_eq in Htruthy.
           subst c. repeat split; [lia | discriminate].
        -- rewrite list_lookup_insert_ne by done. eauto.
      * injection Hbody as <- <-. split; simpl; [exact Hflags |].
        apply Hhandled. auto.
Qed.

(** The next state is what the capture loop returns, run by a model of
    the same configuration. *)
Lemma next_state_captures (entropy : Amb) (state next : PPState)
    (actions : list PPAction) self self' :
  _get_next_state entropy state actions self = Ok (next, self') ->
  exists self2 next_prey_states,
    same_config self self2
    /\ resolve_captures self2 state (predator_states next) next_prey_states
       = Ok (prey_states next, prey_caught next).
Proof.
  unfold _get_next_state. intros Hrun.
  apply bind_method_Ok in Hrun as (angles & s1 & Hangles & Hrun).
  apply keeps_prey_move_angles in Hangles.
  apply bind_method_Ok in Hrun as (self1 & s2 & Hg & Hrun).
  apply get_self_Ok in Hg as [-> ->].
  apply bind_method_Ok in Hrun as ([] & s3 & Hprey & Hrun).
  apply (keeps_for_each_m _ same_config_refl same_config_trans) in Hprey;
    [| intros; unfold apply_prey_action; frame].
  apply bind_method_Ok in Hrun as ([] & s4 & Hpred & Hrun).
  apply (keeps_for_each_m _ same_config_refl same_config_trans) in Hpred;
    [| intros; unfold apply_predator_action; frame].
  apply bind_method_Ok in Hrun as ([] & s5 & Hsim & Hrun).
  apply keeps_on_world in Hsim.
  apply bind_method_Ok in Hrun as (self2 & s6 & Hg & Hrun).
  apply get_self_Ok in Hg as [-> ->].
  apply bind_method_Ok in Hrun as (npred & s7 & Hnpred & Hrun).
  apply lift_Ok in Hnpred as [_ ->].
  apply bind_method_Ok in Hrun as (nprey & s8 & Hnprey & Hrun).
  apply lift_Ok in Hnprey as [_ ->].
  apply bind_method_Ok in Hrun as ([S C] & s9 & Hres & Hrun).
  apply lift_Ok in Hres as [Hres ->]. apply ret_Ok in Hrun as [-> ->].
  exists s5, nprey. split; [| exact Hres].
  eauto using same_config_trans.
Qed.

(** The state a call of [step] returns is the one [_get_next_state]
    computes. *)
Lemma step_next_state (entropy : Amb) (state : PPState)
    (actions : list PPAction) self self' (ts : JointTimestep PPState PPObs) :
  step entropy state actions self = Ok (ts, self') ->
  exists self1,
    _get_next_state entropy state (clip_actions actions (action_spaces self)) self
    = Ok (ts_state ts, self1)
    /\ self' = self1
    /\ get_obs self1 (ts_state ts) = Ok (ts_observations ts)
    /\ _get_rewards self1 state (ts_state ts) = Ok (ts_rewards ts)
    /\ ts_all_done ts = forallb truthy (prey_caught (ts_state ts)).
Proof.
  unfold step. intros Hrun.
  apply bind_method_Ok in Hrun as (self0 & s1 & Hg & Hrun).
  apply get_self_Ok in Hg as [-> ->].
  apply bind_method_Ok in Hrun as (next & s2 & Hnext & Hrun).
  apply bind_method_Ok in Hrun as (self1 & s3 & Hg & Hrun).
  apply get_self_Ok in Hg as [-> ->].
  apply bind_method_Ok in Hrun as (obs & s4 & Hobs & Hrun).
  apply lift_Ok in Hobs as [Hobs ->].
  apply bind_method_Ok in Hrun as (rewards & s5 & Hrew & Hrun).
  apply lift_Ok in Hrew as [Hrew ->]. apply ret_Ok in Hrun as [-> ->].
  exists s2. simpl. auto.
Qed.

Lemma step_frozen (entropy : Amb) (state : PPState) (actions : list PPAction)
    self self' (ts : JointTimestep PPState PPObs) :
  step entropy state actions self = Ok (ts, self') ->
  same_config self self'
  /\ (forall i c, prey_caught state !! i = Some c ->
       exists c', prey_caught (ts_state ts) !! i = Some c' /\ (c <= c')%Z
                  /\ (truthy c = true -> c' = c))
  /\ (forall i c, (i < num_prey self)%nat -> prey_caught state !! i = Some c ->
       truthy c = true -> prey_states (ts_state ts) !! i = Some caught_state).
Proof.
  intros Hstep. pose proof (keeps_step _ _ _ _ _ _ Hstep) as Hcfg.
  apply step_next_state in Hstep as (self1 & Hnext & _).
  apply next_state_captures in Hnext as (self2 & raw & Hcfg2 & Hres).
  apply resolve_captures_frozen in Hres as [Hflags Hstates].
  split; [exact Hcfg |]. split; [exact Hflags |].
  intros i c Hi. apply Hstates. destruct Hcfg2 as (_ & -> & _). exact Hi.
Qed.

(** C9. Over one or more calls of [step], a prey whose flag is 1 keeps
    the flag 1 and is stored as (-1, -1, 0, 0, 0, 0) in every later
    state, and no flag of [prey_caught] decreases; when the prey actions
    are applied a caught prey is given its stored state and no velocity. *)
Theorem caught_prey_stay_caught self self' (state state' : PPState) :
  steps self state self' state' ->
  (forall i, (i < num_prey self)%nat -> prey_caught state !! i = Some 1%Z ->
     prey_caught state' !! i = Some 1%Z
     /\ prey_states state' !! i = Some caught_state)
  /\ (forall i c, prey_caught state !! i = Some c ->
       exists c', prey_caught state' !! i = Some c' /\ (c <= c')%Z)
  /\ (forall i s angles self0,
       prey_caught state !! i = Some 1%Z -> prey_states state !! i = Some s ->
       apply_prey_action state angles i self0
       = on_world (set_entity_state (prey_id i) s) self0).
Proof.
  intros Hsteps. split; [| split].
  - assert (Hgen : same_config self self'
              /\ forall i, (i < num_prey self)%nat ->
                   prey_caught state !! i = Some 1%Z ->
                   prey_caught state' !! i = Some 1%Z
                   /\ prey_states state' !! i = Some caught_state).
    { induction Hsteps as [e self state actions ts self' Hstep
                          | e self state self1 state1 actions ts self2 _ IH Hstep].
      - apply step_frozen in Hstep as (Hcfg & Hflags & Hstates).
        split; [exact Hcfg |]. intros i Hi Hc. split.
        + destruct (Hflags i 1%Z Hc) as (c' & Hc' & _ & Heq).
          rewrite Hc', Heq; done.
        + eapply Hstates; eauto.
      - destruct IH as [Hcfg1 IH].
        apply step_frozen in Hstep as (Hcfg & Hflags & Hstates).
        split; [eauto using same_config_trans |]. intros i Hi Hc.
        destruct (IH i Hi Hc) as [Hc1 _]. split.
        + destruct (Hflags i 1%Z Hc1) as (c' & Hc' & _ & Heq).
          rewrite Hc', Heq; done.
        + eapply Hstates; eauto. destruct Hcfg1 as (_ & -> & _). exact Hi. }
    apply Hgen.
  - induction Hsteps as [e self state actions ts self' Hstep
                        | e self state self1 state1 actions ts self2 _ IH Hstep];
      intros i c Hc.
    + apply step_frozen in Hstep as (_ & Hflags & _).
      destruct (Hflags i c Hc) as (c' & Hc' & Hle & _). eauto.
    + destruct (IH i c Hc) as (c1 & Hc1 & Hle1).
      apply step_frozen in Hstep as (_ & Hflags & _).
      destruct (Hflags i c1 Hc1) as (c' & Hc' & Hle & _).
      exists c'. split; [done | lia].
  - intros i s angles self0 Hc Hs. unfold apply_prey_action, bind, lift.
    apply getitem_Ok in Hc, Hs. rewrite Hs, Hc. simpl.
    destruct (on_world _ self0) as [[[] s1]|e]; reflexivity.
Qed.

End Dynamics.

Section Determinism.
Context {W G Amb : Type}.
Context `{CoreUtils} `{ContinuousWorld W} `{RandomSource G Amb}.
Implicit Types self : PPModel W G.

(** The model holds a generator. *)
Definition seeded self : Prop := is_Some (_rng self).

(** Two methods that, run by a model holding a generator, do the same
    and leave a model holding a generator. *)
Definition agree {A} (c1 c2 : Method (PPModel W G) A) : Prop :=
  forall self, seeded self ->
    c1 self = c2 self
    /\ forall a self', c1 self = Ok (a, self') -> seeded self'.

Lemma agree_ret {A} (a : A) : agree (ret a) (ret a).
Proof.
  intros self Hs. split; [done |]. intros b self' Hr.
  apply ret_Ok in Hr as [_ ->]. done.
Qed.

Lemma agree_lift {A} (r : Result A) : agree (lift r) (lift r).
Proof.
  intros self Hs. split; [done |]. intros b self' Hr.
  apply lift_Ok in Hr as [_ ->]. done.
Qed.

Lemma agree_get_self : agree get_self get_self.
Proof.
  intros self Hs. split; [done |]. intros b self' Hr.
  apply get_self_Ok in Hr as [_ ->]. done.
Qed.

Lemma agree_bind {A B} (c1 c2 : Method (PPModel W G) A)
    (f1 f2 : A -> Method (PPModel W G) B) :
  agree c1 c2 -> (forall a, agree (f1 a) (f2 a)) ->
  agree (bind c1 f1) (bind c2 f2).
Proof.
  intros Hc Hf self Hs. destruct (Hc self Hs) as [Heq Hseed].
  unfold bind. rewrite <- Heq.
  destruct (c1 self) as [[a s1]|e] eqn:Hc1.
  - destruct (Hf a s1) as [Hfeq Hfseed]; [eapply Hseed; eauto |].
    split; [exact Hfeq | exact Hfseed].
  - split; [done | discriminate].
Qed.

Lemma agree_for_each_m {A B} (xs : list A)
    (body1 body2 : B -> A -> Method (PPModel W G) B) (acc : B) :
  (forall acc x, agree (body1 acc x) (body2 acc x)) ->
  agree (for_each_m xs body1 acc) (for_each_m xs body2 acc).
Proof.
  intros Hbody. revert acc. induction xs as [|x xs IH]; intros acc; simpl.
  - apply agree_ret.
  - apply agree_bind; auto.
Qed.

Lemma agree_on_world (f : W -> Result W) : agree (on_world f) (on_world f).
Proof.
  intros self [g Hg]. split; [done |]. intros [] self' Hr.
  unfold on_world in Hr.
  apply bind_method_Ok in Hr as (self0 & s1 & Hget & Hr).
  apply get_self_Ok in Hget as [-> ->].
  apply bind_method_Ok in Hr as (w & s2 & Hl & Hr).
  apply lift_Ok in Hl as [_ ->]. apply put_self_Ok in Hr as ->.
  exists g. exact Hg.
Qed.

(** With a generator in place the [rng] property does not look at the
    entropy of the process. *)
Lemma agree_rng (e1 e2 : Amb) : agree (rng e1) (rng e2).
Proof.
  intros self [g Hg]. unfold rng, bind, get_self. rewrite Hg. split; [done |].
  intros a self' [= <- <-]. exists g. exact Hg.
Qed.

Lemma agree_draw {A} (e1 e2 : Amb) (f : G -> Result (A * G)) :
  agree (draw e1 f) (draw e2 f).
Proof.
  unfold draw. apply agree_bind; [apply agree_rng |].
  intros g. apply agree_bind; [apply agree_lift |].
  intros [a g'] self Hs. split; [done |]. intros b self' Hr.
  apply bind_method_Ok in Hr as (self0 & s1 & Hget & Hr).
  apply get_self_Ok in Hget as [-> ->].
  apply bind_method_Ok in Hr as ([] & s2 & Hp & Hr).
  apply put_self_Ok in Hp as ->. apply ret_Ok in Hr as [_ ->].
  exists g'. reflexivity.
Qed.

(** Decomposes a goal on two runs of one method along its structure. *)
Ltac lockstep :=
  repeat match goal with
    | |- agree (on_world _) (on_world _) => apply agree_on_world
    | |- agree (draw _ _) (draw _ _) => apply agree_draw
    | |- agree (choice _ _) (choice _ _) => apply agree_draw
    | |- agree (uniform _ _ _) (uniform _ _ _) => apply agree_draw
    | |- agree (shuffle _ _) (shuffle _ _) => apply agree_draw
    | |- agree (ret _) (ret _) => apply agree_ret
    | |- agree (lift _) (lift _) => apply agree_lift
    | |- agree get_self get_self => apply agree_get_self
    | |- agree (for_each_m _ _ _) (for_each_m _ _ _) =>
        apply agree_for_each_m; intros
    | |- agree (bind _ _) (bind _ _) => apply agree_bind; [| intros]
    | |- agree (if ?b then _ else _) (if ?b then _ else _) => destruct b
    | |- agree (match ?x with _ => _ end) (match ?x with _ => _ end) =>
        destruct x
    | |- agree _ _ => assumption
    end.

Lemma agree_prey_move_angles (e1 e2 : Amb) (state : PPState) :
  agree (_get_prey_move_angles e1 state) (_get_prey_move_angles e2 state).
Proof. unfold _get_prey_move_angles, prey_move_angle. lockstep. Qed.

Lemma agree_next_state (e1 e2 : Amb) (state : PPState)
    (actions : list PPAction) :
  agree (_get_next_state e1 state actions) (_get_next_state e2 state actions).
Proof.
  unfold _get_next_state, apply_prey_action, apply_predator_action.
  pose proof (agree_prey_move_angles e1 e2 state) as Ha. lockstep.
Qed.

Lemma agree_step (e1 e2 : Amb) (state : PPState) (actions : list PPAction) :
  agree (step e1 state actions) (step e2 state actions).
Proof.
  unfold step. pose proof (agree_next_state e1 e2 state) as Hn. lockstep.
  apply Hn.
Qed.

Lemma agree_sample_initial_state (e1 e2 : Amb) :
  agree (sample_initial_state e1) (sample_initial_state e2).
Proof. unfold sample_initial_state. lockstep. Qed.

(** C8. Run by a model that holds a generator in internal state [g],
    [step] returns the same result (next state, observations, rewards,
    terminations, and the model's new world and generator) whatever the
    entropy of the process, and so does [sample_initial_state]: every
    draw is made on the model's generator. *)
Theorem step_draws_only_from_rng (e1 e2 : Amb) self (g : G) (state : PPState)
    (actions : list PPAction) :
  step e1 state actions (set_rng self (Some g))
  = step e2 state actions (set_rng self (Some g))
  /\ sample_initial_state e1 (set_rng self (Some g))
     = sample_initial_state e2 (set_rng self (Some g))
  /\ (forall ts self',
        step e1 state actions (set_rng self (Some g)) = Ok (ts, self') ->
        is_Some (_rng self')).
Proof.
  assert (Hs : seeded (set_rng self (Some g))) by (exists g; reflexivity).
  destruct (agree_step e1 e2 state actions _ Hs) as [Hstep Hseed].
  destruct (agree_sample_initial_state e1 e2 _ Hs) as [Hinit _].
  split; [exact Hstep |]. split; [exact Hinit | exact Hseed].
Qed.

End Determinism.

Lemma init_builds_sample_model :
  PP.__init__ (G := Z) (WorldObject Samples.two_start_world) 2 1 true None 2 10 true
  = Ok (Samples.pp_model None).
Proof.
  unfold __init__.
  replace (Rltb 0 2) with true by (symmetry; apply Rltb_true; lra).
  reflexivity.
Qed.


Lemma sample_step_runs :
  exists ts self',
    step 0%Z Samples.pp_state_caught Samples.pp_stay (Samples.pp_model (Some 7%Z))
    = Ok (ts, self').
Proof.
  assert (exists next self1,
             _get_next_state 0%Z Samples.pp_state_caught
               (clip_actions Samples.pp_stay
                  (action_spaces (Samples.pp_model (Some 7%Z))))
               (Samples.pp_model (Some 7%Z)) = Ok (next, self1)
             /\ obs_dist self1 = 2 /\ num_predators self1 = 2%nat
             /\ num_prey self1 = 1%nat
             /\ length (predator_states next) = 2%nat
             /\ length (prey_states next) = 1%nat
             /\ prey_caught next = [1%Z])
    as (next & self1 & Hnext & Hd & Hnp & Hny & Hlp & Hly & Hc).
  { eexists _, _. split; [reflexivity |]. repeat split; reflexivity. }
  destruct (get_obs_total self1 next) as [obs Hobs];
    [rewrite Hd; lra | lia | rewrite Hly, Hc; simpl; lia |].
  unfold step.
  eexists _, _.
  apply bind_method_Ok. eexists _, _. split; [reflexivity |].
  apply bind_method_Ok. eexists _, _. split; [exact Hnext |].
  apply bind_method_Ok. eexists _, _. split; [reflexivity |].
  apply bind_method_Ok. eexists _, _. split; [apply lift_Ok; eauto |].
  apply bind_method_Ok. eexists _, _. split; [| reflexivity].
  apply lift_Ok. split; [| reflexivity].
  unfold _get_rewards. rewrite Hny, Hc. reflexivity.
Qed.

Lemma sample_caught_prey_frozen :
  exists self' state',
    steps (Samples.pp_model (Some 7%Z)) Samples.pp_state_caught self' state'
    /\ prey_caught state' !! 0%nat = Some 1%Z
    /\ prey_states state' !! 0%nat = Some caught_state.
Proof.
  destruct sample_step_runs as (ts & self' & Hstep).
  pose proof (steps_one _ _ _ _ _ _ Hstep) as Hsteps.
  exists self', (ts_state ts). split; [exact Hsteps |].
  apply (caught_prey_stay_caught _ _ _ _ Hsteps); [simpl; lia | reflexivity].
Defined.

(** Without a generator the first draw seeds one from the entropy of the
    process: the dependence that [step_draws_only_from_rng] excludes for
    a model that holds a generator. *)
Lemma unseeded_rng_reads_entropy :
  exists g1 g2 self1 self2,
    rng 1%Z (Samples.pp_model None) = Ok (g1, self1)
    /\ rng 2%Z (Samples.pp_model None) = Ok (g2, self2)
    /\ g1 = 1%Z /\ g2 = 2%Z.
Proof.
  eexists _, _, _, _. unfold rng, bind, get_self, put_self, ret. simpl.
  repeat split; reflexivity.
Qed.

Lemma init_rejects_three_predators_on_two_starts :
  PP.__init__ (G := Z) (WorldObject Samples.two_start_world) 3 1 true None 2 10 true
  = Raise AssertionError.
Proof.
  apply init_rejects_bad_configuration.
  unfold bad_configuration. do 4 right.
  exists Samples.two_start_world. split; [reflexivity | left; simpl; lia].
Defined.

End PPFacts.

(** ** Zero distances *)

Module DTCFloatFacts.
Import Floats DTCFloat.

(** C3, at a pursuer that sits on the target: the division of
    [_get_unit_vectors] is not guarded, and both components of the
    pursuer's vector are infinite. *)
Theorem unit_vector_on_target_is_infinite :
  exists u,
    _get_unit_vectors [(430, 430); (380, 430)]%float (430, 430)%float
    !! 0%nat = Some u
    /\ is_finite (fst u) = false /\ is_finite (snd u) = false.
Proof. eexists. split; [reflexivity |]. split; reflexivity. Qed.

(** A pursuer that sits at the origin and on the target gets NaN. *)
Lemma unit_vector_at_origin_is_nan :
  _get_unit_vectors [(0, 0)]%float (0, 0)%float = [(nan, nan)].
Proof. reflexivity. Qed.

(** The division of [_scale_vector] is guarded: a zero vector is scaled
    to finite values. *)
Lemma scale_vector_of_zero_is_finite :
  forallb is_finite (_scale_vector [0; 0]%float scale_fn [0; 0]%float 1%float)
  = true.
Proof. reflexivity. Qed.

(** [math.atan2(0, 0)] is 0: the bearing of two coincident poses is
    finite. *)
Lemma atan2_of_zero_vector : Py.atan2 0 0 = 0%R.
Proof.
  unfold Py.atan2.
  rewrite (proj2 (PyFacts.Rltb_false 0 0)) by lra. reflexivity.
Qed.

End DTCFloatFacts.

(** ** More facts about loops and NumPy primitives *)

Module PyLoopFacts.
Import Py PyFacts.

(** An invariant indexed by the loop counter of [for i in range(n)]. *)
Lemma for_each_range_inv {S} (P : nat -> S -> Prop) (n : nat)
    (body : S -> nat -> Result S) (acc r : S) :
  P 0%nat acc ->
  (forall t acc acc', (t < n)%nat -> P t acc -> body acc t = Ok acc' -> P (Datatypes.S t) acc') ->
  for_each (range n) body acc = Ok r -> P n r.
Proof.
  intros Hacc Hbody. unfold range.
  assert (Hgen : forall len t acc,
            (t + len = n)%nat -> P t acc ->
            for_each (seq t len) body acc = Ok r -> P n r).
  { induction len as [|len IH]; intros t acc0 Hsum Hinv; simpl.
    - intros [= <-]. by replace n with t by lia.
    - intros Hrun. apply bind_Ok in Hrun as (acc' & Hstep & Hrest).
      apply (IH (Datatypes.S t) acc'); [lia | | done].
      apply (Hbody t acc0); [lia | done | done]. }
  apply (Hgen n 0%nat); [lia | done].
Qed.

(** A loop over two sequences in a row. *)
Lemma for_each_app {S A} (xs ys : list A) (body : S -> A -> Result S) (acc : S) :
  for_each (xs ++ ys) body acc = (for_each xs body acc ≫= for_each ys body).
Proof.
  revert acc. induction xs as [|x xs IH]; intros acc; simpl; [done |].
  destruct (body acc x); simpl; [apply IH | done].
Qed.


End PyLoopFacts.

Module PyMinFacts.
Import Py PyFacts.
#[local] Open Scope R_scope.

(** [min] of a non-empty sequence is an element no other is below. *)
Lemma py_min_spec (l : list R) :
  l <> [] ->
  exists m, py_min l = Ok m /\ m ∈ l /\ forall x, x ∈ l -> m <= x.
Proof.
  destruct l as [|x l]; [done |]. intros _. simpl. eexists. split; [reflexivity |].
  assert (Hgen : forall l m0,
            let m := fold_left (fun m y => if Rltb y m then y else m) l m0 in
            (m = m0 \/ m ∈ l) /\ m <= m0 /\ forall y, y ∈ l -> m <= y).
  { clear. induction l as [|y l IH]; intros m0; simpl.
    - split; [by left |]. split; [lra |]. intros y Hy. by apply elem_of_nil in Hy.
    - destruct (IH (if Rltb y m0 then y else m0)) as (Hin & Hle & Hall).
      set (m := fold_left _ l _) in *.
      destruct (Rltb y m0) eqn:Hlt.
      + apply Rltb_true in Hlt. split.
        * right. destruct Hin as [-> | Hin]; [left | by right].
        * split; [lra |]. intros z Hz.
          apply elem_of_cons in Hz as [-> | Hz]; [done | by apply Hall].
      + apply Rltb_false in Hlt. split.
        * destruct Hin as [-> | Hin]; [by left | right; by right].
        * split; [done |]. intros z Hz.
          apply elem_of_cons in Hz as [-> | Hz]; [lra | by apply Hall]. }
  destruct (Hgen l x) as (Hin & Hle & Hall). split.
  - destruct Hin as [-> | Hin]; [left | by right].
  - intros z Hz. apply elem_of_cons in Hz as [-> | Hz]; [done | by apply Hall].
Qed.

(** A loop whose body appends to the accumulator what a function of the
    element gives returns the accumulator followed by all of it. *)
Lemma for_each_appends {A B} (xs : list A) (body : list B -> A -> Result (list B))
    (f : A -> list B) (acc : list B) :
  (forall acc x, x ∈ xs -> body acc x = Ok (acc ++ f x)) ->
  for_each xs body acc = Ok (acc ++ flat_map f xs).
Proof.
  revert acc. induction xs as [|x xs IH]; intros acc Hbody; simpl.
  - by rewrite app_nil_r.
  - rewrite Hbody by left. simpl. rewrite IH, app_assoc; [done |].
    intros acc0 y Hy. apply Hbody. by right.
Qed.

(** A loop inside a method whose body returns and keeps an invariant
    returns, and the invariant holds of what it returns. *)
Lemma for_each_m_total_inv {S A B} (P : list A -> B -> S -> Prop) (xs : list A)
    (body : B -> A -> Method S B) (acc : B) (s : S) :
  P [] acc s ->
  (forall handled x acc s, x ∈ xs -> P handled acc s ->
     exists acc' s', body acc x s = Ok (acc', s') /\ P (handled ++ [x]) acc' s') ->
  exists r s', for_each_m xs body acc s = Ok (r, s') /\ P xs r s'.
Proof.
  intros Hacc Hbody.
  assert (Hgen : forall handled acc s,
            P handled acc s ->
            exists r s', for_each_m xs body acc s = Ok (r, s')
                         /\ P (handled ++ xs) r s').
  { induction xs as [|x xs IH]; intros handled acc0 s0 Hinv; simpl.
    - exists acc0, s0. by rewrite app_nil_r.
    - destruct (Hbody handled x acc0 s0) as (acc' & s' & Hstep & Hinv');
        [left | done |].
      unfold bind. rewrite Hstep.
      destruct (IH (fun h y a t Hy => Hbody h y a t (list_elem_of_further _ _ _ Hy))
                  (handled ++ [x]) acc' s' Hinv') as (r & s2 & Hrun & Hr).
      exists r, s2. split; [done |]. by rewrite cons_middle, app_assoc. }
  apply (Hgen [] acc s Hacc).
Qed.

(** An invariant of the accumulator of a loop inside a method. *)
Lemma for_each_m_inv {S A B} (P : B -> Prop) (xs : list A)
    (body : B -> A -> Method S B) (acc r : B) (s s' : S) :
  P acc ->
  (forall acc x s acc' s', P acc -> body acc x s = Ok (acc', s') -> P acc') ->
  for_each_m xs body acc s = Ok (r, s') -> P r.
Proof.
  intros Hacc Hbody. revert acc s Hacc.
  induction xs as [|x xs IH]; intros acc s Hacc; simpl.
  - intros Hr. apply ret_Ok in Hr as [-> _]. done.
  - intros Hr. apply bind_method_Ok in Hr as (acc' & s1 & Hstep & Hrest).
    eapply IH; [| exact Hrest]. eauto.
Qed.

Lemma py_min_nil : py_min [] = Raise ValueError.
Proof. reflexivity. Qed.

(** [np.where(cond)[0]] lists the positions where the condition holds. *)
Lemma where_from_elem (cond : R -> bool) (l : list R) (i k : nat) :
  k ∈ where_from cond l i
  <-> exists x, (i <= k)%nat /\ l !! (k - i)%nat = Some x /\ cond x = true.
Proof.
  revert i. induction l as [|y l IH]; intros i; simpl.
  - split; [intros Hk; by apply elem_of_nil in Hk | intros (x & _ & Hx & _); done].
  - assert (Hrest : k ∈ where_from cond l (S i)
                    <-> exists x, (i < k)%nat /\ (y :: l) !! (k - i)%nat = Some x
                                  /\ cond x = true).
    { rewrite IH. split; intros (x & Hk & Hx & Hc); exists x.
      - split; [lia |]. split; [| done].
        replace (k - i)%nat with (S (k - S i)) by lia. done.
      - split; [lia |]. split; [| done].
        replace (k - i)%nat with (S (k - S i)) in Hx by lia. done. }
    destruct (cond y) eqn:Hy.
    + rewrite elem_of_cons, Hrest. split.
      * intros [-> | (x & Hk & Hx & Hc)].
        -- exists y. rewrite Nat.sub_diag. done.
        -- exists x. split; [lia | done].
      * intros (x & Hk & Hx & Hc).
        destruct (decide (k = i)) as [-> | Hne]; [by left | right].
        exists x. split; [lia | done].
    + rewrite Hrest. split; intros (x & Hk & Hx & Hc); exists x.
      * split; [lia | done].
      * split; [| done].
        destruct (decide (k = i)) as [-> | Hne]; [| lia].
        rewrite Nat.sub_diag in Hx. simpl in Hx. congruence.
Qed.

Lemma np_where_eq_elem (l : list R) (v : R) (k : nat) :
  k ∈ np_where_eq l v <-> l !! k = Some v.
Proof.
  unfold np_where_eq. rewrite where_from_elem. split.
  - intros (x & _ & Hx & Hc). apply Reqb_true in Hc as ->.
    by rewrite Nat.sub_0_r in Hx.
  - intros Hk. exists v. rewrite Nat.sub_0_r. split; [lia |]. split; [done |].
    by apply Reqb_true.
Qed.

(** The positions of the minimum: there is one, and all are positions
    of the sequence. *)
Lemma np_where_min (l : list R) (m : R) :
  m ∈ l ->
  np_where_eq l m <> []
  /\ forall k, k ∈ np_where_eq l m -> (k < length l)%nat.
Proof.
  intros Hm. split.
  - apply list_elem_of_lookup in Hm as [k Hk].
    apply np_where_eq_elem in Hk. intros Hnil. rewrite Hnil in Hk.
    by apply elem_of_nil in Hk.
  - intros k Hk. apply np_where_eq_elem in Hk. by apply lookup_lt_Some in Hk.
Qed.

End PyMinFacts.

(** ** The reference generator meets the laws of the random source *)

Module RefLawFacts.
Import Py Core Ref.
#[local] Open Scope R_scope.

(** The states of the linear congruential generator. *)
Definition lcg_state (g : Z) : Prop := (0 <= g < 2147483648)%Z.

#[global] Instance lcg_laws : RandomSourceLaws lcg_state.
Proof.
  split; simpl.
  - intros amb. unfold lcg_state. apply Z.mod_pos_bound. lia.
  - intros g _. unfold lcg_state, lcg_next. apply Z.mod_pos_bound. lia.
  - intros g [Hlo Hhi]. unfold lcg_unit. apply IZR_le in Hlo. apply IZR_lt in Hhi.
    split.
    + apply Rmult_le_pos; [done |]. lra.
    + apply Rmult_lt_reg_r with 2147483648; [lra |].
      unfold Rdiv. rewrite Rmult_assoc, Rinv_l by lra. lra.
  - intros seq g Hne. destruct seq as [|x seq]; [done |].
    eexists _, _. split; [reflexivity |].
    apply list_elem_of_In, nth_In. unfold lcg_pick.
    pose proof (Z.mod_pos_bound g (Z.of_nat (length (x :: seq)))) as Hb.
    simpl length in *. lia.
  - reflexivity.
  - intros A l g. unfold rotate.
    rewrite Permutation_app_comm. by rewrite take_drop.
Qed.

End RefLawFacts.

(** ** Predator-prey: rewards *)

Module PPRewardFacts.
Import Py Core PP PyFacts PyMinFacts.
#[local] Open Scope R_scope.

Section Rewards.
Context {W G Amb : Type}.
Context `{CoreUtils} `{ContinuousWorld W} `{RandomSource G Amb}.
Implicit Types self : PPModel W G.

(** Prey [i] is flagged in [next_state] and was not in [state]. *)
Definition newly_caught (state next_state : PPState) (i : nat) : bool :=
  match prey_caught state !! i, prey_caught next_state !! i with
  | Some c, Some c' => negb (truthy c) && truthy c'
  | _, _ => false
  end.

(** The state [next_state] holds for prey [i] if it is newly caught. *)
Definition new_caught_at (state next_state : PPState) (i : nat)
  : list PMBodyState :=
  if newly_caught state next_state i
  then option_list (prey_states next_state !! i) else [].

(** Lines 774-777 of [_get_rewards]: the states of the newly caught prey. *)
Lemma new_caught_prey_collected self (state next_state : PPState) :
  (num_prey self <= length (prey_caught state))%nat ->
  (num_prey self <= length (prey_caught next_state))%nat ->
  (num_prey self <= length (prey_states next_state))%nat ->
  for_each (range (num_prey self))
    (fun new_caught_prey i =>
       c ← getitem (prey_caught state) i;
       if truthy c then Ok new_caught_prey
       else
         c' ← getitem (prey_caught next_state) i;
         if truthy c' then
           s ← getitem (prey_states next_state) i;
           mret (new_caught_prey ++ [s])
         else Ok new_caught_prey)
    []
  = Ok (flat_map (new_caught_at state next_state) (range (num_prey self))).
Proof.
  intros Hc Hc' Hs.
  rewrite (for_each_appends _ _ (new_caught_at state next_state)); [done |].
  intros acc i Hi. apply elem_of_seq in Hi.
  destruct (getitem_lt (prey_caught state) i) as (c & -> & Hct); [lia |].
  destruct (getitem_lt (prey_caught next_state) i) as (c' & -> & Hct'); [lia |].
  destruct (getitem_lt (prey_states next_state) i) as (s & -> & Hst); [lia |].
  unfold new_caught_at, newly_caught. rewrite Hct, Hct', Hst. simpl.
  destruct (truthy c), (truthy c'); simpl; by rewrite ?app_nil_r.
Qed.

Lemma new_caught_at_length (state next_state : PPState) (n : nat) :
  (n <= length (prey_states next_state))%nat ->
  length (flat_map (new_caught_at state next_state) (range n))
  = length (filter (fun i => newly_caught state next_state i = true) (range n)).
Proof.
  intros Hn. unfold range.
  assert (Hgen : forall len t, (t + len <= n)%nat ->
            length (flat_map (new_caught_at state next_state) (seq t len))
            = length (filter (fun i => newly_caught state next_state i = true)
                        (seq t len))).
  { induction len as [|len IH]; intros t Ht; [done |].
    rewrite <- cons_seq. simpl. rewrite length_app, filter_cons, IH by lia.
    unfold new_caught_at.
    destruct (lookup_lt_is_Some_2 (prey_states next_state) t) as [s ->]; [lia |].
    destruct (newly_caught state next_state t); simpl; done. }
  apply Hgen. lia.
Qed.

Lemma new_caught_at_elem (state next_state : PPState) (n : nat)
    (s : PMBodyState) :
  s ∈ flat_map (new_caught_at state next_state) (range n) ->
  exists i, (i < n)%nat /\ newly_caught state next_state i = true
            /\ prey_states next_state !! i = Some s.
Proof.
  intros Hs. apply list_elem_of_In, in_flat_map in Hs as (i & Hi & Hs).
  apply list_elem_of_In, elem_of_seq in Hi. apply list_elem_of_In in Hs.
  unfold new_caught_at in Hs.
  destruct (newly_caught state next_state i) eqn:Hnew;
    [| by apply elem_of_nil in Hs].
  destruct (prey_states next_state !! i) as [s'|] eqn:Hs';
    [| by apply elem_of_nil in Hs].
  apply list_elem_of_singleton in Hs as ->. exists i. split; [lia | done].
Qed.

Lemma map_const_range {A} (a : A) (n : nat) :
  map (fun _ : nat => a) (range n) = replicate n a.
Proof.
  unfold range. generalize 0%nat. induction n as [|n IH]; intros t; simpl;
    [done | by rewrite IH].
Qed.

(** In cooperative mode every agent is given the same reward, the number
    of prey newly caught in [next_state] times [R_MAX / num_prey]. *)
Theorem cooperative_rewards_are_shared self (state next_state : PPState) :
  cooperative self = true ->
  (num_prey self <= length (prey_caught state))%nat ->
  (num_prey self <= length (prey_caught next_state))%nat ->
  (num_prey self <= length (prey_states next_state))%nat ->
  _get_rewards self state next_state
  = Ok (replicate (num_predators self)
          (INR (length (filter (fun i => newly_caught state next_state i = true)
                          (range (num_prey self))))
           * (R_MAX / INR (num_prey self)))).
Proof.
  intros Hcoop Hc Hc' Hs. unfold _get_rewards.
  rewrite new_caught_prey_collected by done. rewrite bind_Ok_l.
  rewrite new_caught_at_length by done. unfold possible_agents.
  rewrite !map_const_range, Hcoop.
  destruct (bool_decide _) eqn:Hzero; [| done].
  apply bool_decide_eq_true in Hzero. rewrite Hzero. simpl.
  by rewrite Rmult_0_l.
Qed.

Lemma where_from_nil (cond : R -> bool) (l : list R) (i : nat) :
  (forall x, x ∈ l -> cond x = false) -> where_from cond l i = [].
Proof.
  revert i. induction l as [|x l IH]; intros i Hl; simpl; [done |].
  rewrite Hl by left. apply IH. intros y Hy. apply Hl. by right.
Qed.

(** No body with non-negative coordinates is within the collision
    distance of the place a caught prey is moved to. *)
Lemma caught_state_is_out_of_reach (p : PMBodyState) :
  0 <= st_x p -> 0 <= st_y p ->
  Rleb (np_linalg_norm (st_x caught_state - st_x p) (st_y caught_state - st_y p))
       COLLISION_DIST = false.
Proof.
  intros Hx Hy. apply Rleb_false. unfold np_linalg_norm, COLLISION_DIST. simpl.
  replace (12 / 10) with (sqrt ((12 / 10) * (12 / 10)))
    by (apply sqrt_square; lra).
  apply sqrt_lt_1; nra.
Qed.

(** The division of line 791, by zero. *)
Lemma mixed_rewards_raise self (state next_state : PPState) :
  cooperative self = false ->
  (num_prey self <= length (prey_caught state))%nat ->
  (num_prey self <= length (prey_caught next_state))%nat ->
  (num_prey self <= length (prey_states next_state))%nat ->
  (forall i, (i < num_prey self)%nat -> newly_caught state next_state i = true ->
     prey_states next_state !! i = Some caught_state) ->
  (exists i, (i < num_prey self)%nat /\ newly_caught state next_state i = true) ->
  (forall p, p ∈ predator_states next_state -> 0 <= st_x p /\ 0 <= st_y p) ->
  _get_rewards self state next_state = Raise ZeroDivisionError.
Proof.
  intros Hcoop Hc Hc' Hs Hmoved (i & Hi & Hnew) Hpos. unfold _get_rewards.
  rewrite new_caught_prey_collected by done. rewrite bind_Ok_l.
  pose proof (new_caught_at_length state next_state (num_prey self) Hs) as Hlen.
  pose proof (new_caught_at_elem state next_state (num_prey self)) as Helem.
  destruct (flat_map _ _) as [|s l] eqn:Hl.
  { exfalso. simpl in Hlen.
    assert (Hin : i ∈ filter (fun i => newly_caught state next_state i = true)
                      (range (num_prey self))).
    { apply list_elem_of_filter. split; [done |]. apply elem_of_seq. lia. }
    destruct (filter _ _); [by apply elem_of_nil in Hin | discriminate]. }
  rewrite bool_decide_eq_false_2 by done. rewrite Hcoop.
  destruct (Helem s) as (j & Hj & Hjnew & Hjs); [left |].
  rewrite (Hmoved j Hj Hjnew) in Hjs. injection Hjs as <-.
  rewrite for_each_cons. unfold np_where_le.
  rewrite where_from_nil; [done |].
  intros d Hd. unfold dists_to in Hd.
  apply list_elem_of_In, in_map_iff in Hd as (p & <- & Hp).
  apply list_elem_of_In, Hpos in Hp as [Hx Hy].
  by apply caught_state_is_out_of_reach.
Qed.

(** In mixed mode the reward of a capture is divided by the number of
    predators within the collision distance of the position [next_state]
    holds for the prey.  When that position is the one a caught prey is
    moved to, (-1, -1), and the predators have non-negative coordinates,
    there is no such predator: the division is by zero. *)
Theorem mixed_rewards_divide_by_zero self (state next_state : PPState) :
  cooperative self = false ->
  (num_prey self <= length (prey_caught state))%nat ->
  (num_prey self <= length (prey_caught next_state))%nat ->
  (num_prey self <= length (prey_states next_state))%nat ->
  (forall i, (i < num_prey self)%nat -> newly_caught state next_state i = true ->
     prey_states next_state !! i = Some caught_state) ->
  (exists i, (i < num_prey self)%nat /\ newly_caught state next_state i = true) ->
  (forall p, p ∈ predator_states next_state -> 0 <= st_x p /\ 0 <= st_y p) ->
  _get_rewards self state next_state = Raise ZeroDivisionError.
Proof. apply mixed_rewards_raise. Qed.

(** The sum of a list of rewards. *)
Definition total (l : list R) : R := foldr Rplus 0 l.

Lemma total_insert (l : list R) (i : nat) (r s : R) :
  l !! i = Some r -> total (<[i := r + s]> l) = total l + s.
Proof.
  revert i. induction l as [|x l IH]; intros [|i] Hi; simpl in *; try done.
  - injection Hi as ->. lra.
  - rewrite (IH i Hi). lra.
Qed.

Lemma total_bounds (l : list R) (r : R) :
  Forall (fun x => 0 <= x) l -> r ∈ l -> 0 <= r <= total l.
Proof.
  induction 1 as [|x l Hx Hl IH]; intros Hr; [by apply elem_of_nil in Hr |].
  assert (Hpos : 0 <= total l).
  { clear -Hl. induction Hl as [|y l Hy _ IH]; simpl; lra. }
  simpl. apply elem_of_cons in Hr as [-> | Hr]; [lra |].
  apply IH in Hr. lra.
Qed.

Lemma total_zeros (n : nat) : total (replicate n 0) = 0.
Proof. induction n as [|n IH]; simpl; lra. Qed.

(** Lines 788-793: the share of one capture goes to the involved
    predators; the rewards stay non-negative and grow by the reward of
    one prey in total. *)
Lemma capture_is_shared (per : R) (involved : list nat) (rewards rewards' : list R) :
  0 <= per ->
  Forall (fun x => 0 <= x) rewards ->
  for_each involved
    (fun rewards i =>
       match rewards !! i with
       | Some r => Ok (<[i := r + per / INR (length involved)]> rewards)
       | None => Raise KeyError
       end)
    rewards = Ok rewards' ->
  involved <> [] ->
  length rewards' = length rewards
  /\ Forall (fun x => 0 <= x) rewards'
  /\ total rewards' = total rewards + per.
Proof.
  intros Hper Hpos Hrun Hne.
  set (share := per / INR (length involved)) in *.
  assert (Hn : 0 < INR (length involved)).
  { apply lt_0_INR. destruct involved; [done | simpl; lia]. }
  assert (Hshare : 0 <= share).
  { unfold share. apply Rmult_le_pos; [done |]. left. by apply Rinv_0_lt_compat. }
  apply (for_each_inv_prefix
           (fun handled acc =>
              length acc = length rewards
              /\ Forall (fun x => 0 <= x) acc
              /\ total acc = total rewards + INR (length handled) * share))
    in Hrun.
  - destruct Hrun as (Hlen & Hnn & Htot). split; [done |]. split; [done |].
    rewrite Htot. unfold share. field. lra.
  - simpl. split; [done |]. split; [done |]. lra.
  - intros handled i acc acc' (Hlen & Hnn & Htot) Hbody.
    destruct (acc !! i) as [r|] eqn:Hr; [| discriminate].
    injection Hbody as <-. split; [by rewrite length_insert |]. split.
    + apply Forall_insert; [done |].
      assert (0 <= r) by (eapply Forall_lookup_1 in Hnn; eauto). lra.
    + rewrite (total_insert _ _ _ _ Hr), Htot, length_app, plus_INR. simpl. lra.
Qed.

(** Whatever [_get_rewards] returns lies within the interval
    [reward_ranges] declares: one reward per agent, each in
    [0, R_MAX]. *)
Theorem rewards_within_declared_range self (state next_state : PPState)
    (rewards : list R) :
  (0 < num_prey self)%nat ->
  _get_rewards self state next_state = Ok rewards ->
  Forall2 (fun r range => range.1 <= r <= range.2) rewards (reward_ranges self).
Proof.
  intros Hprey Hrun.
  assert (Hn : 0 < INR (num_prey self)) by (by apply lt_0_INR).
  assert (Hper : 0 <= _per_prey_reward self).
  { unfold _per_prey_reward, R_MAX. apply Rmult_le_pos; [lra |].
    left. by apply Rinv_0_lt_compat. }
  assert (Hgoal : length rewards = num_predators self
                  /\ forall r, r ∈ rewards -> 0 <= r <= R_MAX).
  { unfold _get_rewards in Hrun.
    apply bind_Ok in Hrun as (l & Hl & Hrun).
    assert (Hlen : (length l <= num_prey self)%nat).
    { apply (for_each_inv_prefix
               (fun (handled : list nat) (acc : list PMBodyState) =>
                  (length acc <= length handled)%nat)) in Hl.
      - unfold range in Hl. by rewrite length_seq in Hl.
      - done.
      - intros handled i acc acc' Hacc Hbody. rewrite length_app. simpl.
        apply bind_Ok in Hbody as (c & _ & Hbody).
        destruct (truthy c); [injection Hbody as <-; lia |].
        apply bind_Ok in Hbody as (c' & _ & Hbody).
        destruct (truthy c'); [| injection Hbody as <-; lia].
        apply bind_Ok in Hbody as (s & _ & [= <-]). rewrite length_app. simpl. lia. }
    assert (Hfrac : INR (length l) * _per_prey_reward self <= R_MAX).
    { unfold _per_prey_reward, R_MAX. apply le_INR in Hlen.
      apply Rmult_le_reg_r with (INR (num_prey self)); [done |].
      replace (INR (length l) * (1 / INR (num_prey self)) * INR (num_prey self))
        with (INR (length l)) by (field; lra).
      lra. }
    unfold possible_agents in Hrun. rewrite !map_const_range in Hrun.
    destruct (bool_decide _) eqn:Hzero.
    { injection Hrun as <-. split; [by rewrite length_replicate |].
      intros r Hr. apply elem_of_replicate in Hr as [-> _]. unfold R_MAX. lra. }
    destruct (cooperative self).
    { injection Hrun as <-. split; [by rewrite length_replicate |].
      intros r Hr. apply elem_of_replicate in Hr as [-> _]. split; [| done].
      apply Rmult_le_pos; [apply pos_INR | done]. }
    apply (for_each_inv_prefix
             (fun (handled : list PMBodyState) (acc : list R) =>
                length acc = num_predators self
                /\ Forall (fun x => 0 <= x) acc
                /\ total acc = INR (length handled) * _per_prey_reward self))
      in Hrun.
    - destruct Hrun as (Hl' & Hnn & Htot). split; [done |].
      intros r Hr. destruct (total_bounds _ _ Hnn Hr). lra.
    - simpl. split; [by rewrite length_replicate |]. split.
      + apply Forall_forall. by intros x [-> _]%elem_of_replicate.
      + rewrite total_zeros. lra.
    - intros handled s acc acc' (Hl' & Hnn & Htot) Hbody.
      apply bind_Ok in Hbody as ([] & Hinv & Hbody).
      set (involved := np_where_le _ _) in *.
      apply capture_is_shared in Hbody as (Hl2 & Hnn2 & Htot2);
        [| done | done | by destruct involved].
      split; [lia |]. split; [done |].
      rewrite Htot2, Htot, length_app, plus_INR. simpl. lra. }
  destruct Hgoal as [Hlen Hbound].
  unfold reward_ranges, possible_agents. rewrite map_const_range.
  apply Forall2_same_length_lookup. split; [by rewrite length_replicate |].
  intros i r range Hr Hrange. apply lookup_replicate in Hrange as [-> _]. simpl.
  apply Hbound. by eapply list_elem_of_lookup_2.
Qed.

End Rewards.
End PPRewardFacts.

(** ** Predator-prey: the capture rule *)

Module PPCaptureFacts.
Import Py Core PP PyFacts PyLoopFacts PPFacts.
#[local] Open Scope R_scope.

Section Capture.
Context {W G Amb : Type}.
Context `{CoreUtils} `{ContinuousWorld W} `{RandomSource G Amb}.
Implicit Types self : PPModel W G.

(** What the capture loop decides for prey [i], whose state after the
    simulation is [moved !! i]: a prey caught before stays as flagged, a
    free prey with at least [prey_strength] predators within the
    collision distance is flagged 1, and both are stored as
    [caught_state]; any other prey keeps its flag and its new state. *)
Definition capture_outcome self (state : PPState)
    (next_pred_states moved : list PMBodyState)
    (states : list PMBodyState) (caught : list Z) (i : nat) : Prop :=
  exists c s,
    prey_caught state !! i = Some c /\ moved !! i = Some s
    /\ (if truthy c
        then caught !! i = Some c /\ states !! i = Some caught_state
        else if bool_decide (prey_strength self
                             <= np_count_le (dists_to s next_pred_states)
                                  COLLISION_DIST)%nat
             then caught !! i = Some 1%Z /\ states !! i = Some caught_state
             else caught !! i = Some c /\ states !! i = Some s).

Lemma resolve_captures_outcome self (state : PPState)
    (next_pred_states moved states : list PMBodyState) (caught : list Z) :
  resolve_captures self state next_pred_states moved = Ok (states, caught) ->
  forall i, (i < num_prey self)%nat ->
    capture_outcome self state next_pred_states moved states caught i.
Proof.
  unfold resolve_captures. intros Hrun.
  apply (for_each_range_inv
           (fun t (acc : list PMBodyState * list Z) =>
              (forall j, (t <= j)%nat ->
                 acc.1 !! j = moved !! j /\ acc.2 !! j = prey_caught state !! j)
              /\ (forall j, (j < t)%nat ->
                    capture_outcome self state next_pred_states moved
                      acc.1 acc.2 j))) in Hrun.
  - apply Hrun.
  - simpl. split; [done | lia].
  - intros t [S C] [S' C'] Ht [Htodo Hdone] Hbody. simpl in *.
    destruct (Htodo t) as [HSt HCt]; [lia |].
    assert (Hkeep : forall S2 C2,
              (forall j, j <> t -> S2 !! j = S !! j /\ C2 !! j = C !! j) ->
              (forall j, (Datatypes.S t <= j)%nat ->
                 S2 !! j = moved !! j /\ C2 !! j = prey_caught state !! j)
              /\ (forall j, (j < t)%nat ->
                    capture_outcome self state next_pred_states moved S2 C2 j)).
    { intros S2 C2 Hsame. split.
      - intros j Hj. destruct (Hsame j) as [-> ->]; [lia |]. apply Htodo. lia.
      - intros j Hj. destruct (Hsame j) as [HS2 HC2]; [lia |].
        unfold capture_outcome. rewrite HS2, HC2. by apply Hdone. }
    apply bind_Ok in Hbody as (c & Hc & Hbody). apply getitem_Ok in Hc.
    destruct (truthy c) eqn:Htruthy.
    + apply bind_Ok in Hbody as (S1 & HS1 & [= <- <-]).
      apply setitem_Ok in HS1 as [Hlt ->].
      destruct (Hkeep (<[t := caught_state]> S) C) as [Htodo' Hdone'].
      { intros j Hj. by rewrite list_lookup_insert_ne. }
      split; [done |]. intros j Hj.
      destruct (decide (j = t)) as [-> | Hne]; [| apply Hdone'; lia].
      destruct (lookup_lt_is_Some_2 S t Hlt) as [s Hs].
      exists c, s. split; [done |]. split; [congruence |].
      rewrite Htruthy, list_lookup_insert_eq by done. split; [congruence | done].
    + apply bind_Ok in Hbody as (s & Hs & Hbody). apply getitem_Ok in Hs.
      destruct (bool_decide _) eqn:Hstrength.
      * apply bind_Ok in Hbody as (C1 & HC1 & Hbody).
        apply bind_Ok in Hbody as (S1 & HS1 & [= <- <-]).
        apply setitem_Ok in HC1 as [HltC ->], HS1 as [HltS ->].
        destruct (Hkeep (<[t := caught_state]> S) (<[t := 1%Z]> C))
          as [Htodo' Hdone'].
        { intros j Hj. by rewrite !list_lookup_insert_ne. }
        split; [done |]. intros j Hj.
        destruct (decide (j = t)) as [-> | Hne]; [| apply Hdone'; lia].
        exists c, s. split; [congruence |]. split; [congruence |].
        rewrite Htruthy, Hstrength, !list_lookup_insert_eq by done. done.
      * injection Hbody as <- <-.
        destruct (Hkeep S C) as [Htodo' Hdone']; [done |].
        split; [done |]. intros j Hj.
        destruct (decide (j = t)) as [-> | Hne]; [| apply Hdone'; lia].
        exists c, s. split; [congruence |]. split; [congruence |].
        rewrite Htruthy, Hstrength. split; congruence.
Qed.

(** The capture loop writes flags in place: there are as many after it
    as before. *)
Lemma resolve_captures_length self (state : PPState)
    (next_pred_states next_prey_states states : list PMBodyState)
    (caught : list Z) :
  resolve_captures self state next_pred_states next_prey_states
  = Ok (states, caught) ->
  length caught = length (prey_caught state)
  /\ length states = length next_prey_states.
Proof.
  unfold resolve_captures. intros Hrun.
  apply (for_each_inv
           (fun acc : list PMBodyState * list Z =>
              length acc.2 = length (prey_caught state)
              /\ length acc.1 = length next_prey_states)) in Hrun;
    [done | done |].
  intros [S C] i [S' C'] _ [HC HS] Hbody. simpl in *.
  apply bind_Ok in Hbody as (c & _ & Hbody).
  destruct (truthy c).
  - apply bind_Ok in Hbody as (S1 & HS1 & [= <- <-]).
    apply setitem_Ok in HS1 as [_ ->]. by rewrite length_insert.
  - apply bind_Ok in Hbody as (s & _ & Hbody).
    destruct (bool_decide _).
    + apply bind_Ok in Hbody as (C1 & HC1 & Hbody).
      apply bind_Ok in Hbody as (S1 & HS1 & [= <- <-]).
      apply setitem_Ok in HC1 as [_ ->], HS1 as [_ ->].
      by rewrite !length_insert.
    + by injection Hbody as <- <-.
Qed.

Lemma keeps_apply_prey_action (state : PPState) (prey_move_angles : list R)
    (i : nat) :
  keeps same_config (apply_prey_action (G := G) state prey_move_angles i).
Proof.
  unfold apply_prey_action.
  apply (keeps_bind _ same_config_trans);
    [apply (keeps_lift _ same_config_refl) | intros s].
  apply (keeps_bind _ same_config_trans); [apply keeps_on_world | intros _].
  apply (keeps_bind _ same_config_trans);
    [apply (keeps_lift _ same_config_refl) | intros c].
  destruct (truthy c); [apply (keeps_ret _ same_config_refl) |].
  apply (keeps_bind _ same_config_trans);
    [apply (keeps_lift _ same_config_refl) | intros a].
  apply keeps_on_world.
Qed.

Lemma keeps_apply_predator_action self (state : PPState)
    (actions : list PPAction) (i : nat) :
  keeps same_config (apply_predator_action self state actions i).
Proof.
  unfold apply_predator_action.
  apply (keeps_bind _ same_config_trans);
    [apply (keeps_lift _ same_config_refl) | intros action].
  apply (keeps_bind _ same_config_trans);
    [apply (keeps_lift _ same_config_refl) | intros s].
  apply (keeps_bind _ same_config_trans); [apply keeps_on_world | intros _].
  apply (keeps_bind _ same_config_trans);
    [apply (keeps_lift _ same_config_refl) | intros [angle vel]].
  apply keeps_on_world.
Qed.

(** A call on the world that returns leaves its result in the model. *)
Lemma on_world_Ok (f : W -> Result W) self self' (u : unit) :
  on_world f self = Ok (u, self') ->
  f (base (world self)) = Ok (base (world self')).
Proof.
  unfold on_world. intros Hrun.
  apply bind_method_Ok in Hrun as (self0 & s1 & Hg & Hrun).
  apply get_self_Ok in Hg as [-> ->].
  apply bind_method_Ok in Hrun as (w & s2 & Hw & Hrun).
  apply lift_Ok in Hw as [Hw ->]. apply put_self_Ok in Hrun as ->.
  by rewrite Hw.
Qed.

(** The end of [_get_next_state] (lines 622-653): the world the model
    holds when the call returns is the one [simulate] has returned, the
    predator states of the next state are read from it, and so are the
    prey states the capture loop starts from. *)
Lemma next_state_read_back (entropy : Amb) (state next : PPState)
    (actions : list PPAction) self self' :
  _get_next_state entropy state actions self = Ok (next, self') ->
  same_config self self'
  /\ (exists w, simulate (1 / 10) 10 w = Ok (base (world self')))
  /\ mapM (fun i => get_entity_state (pred_id i) (base (world self')))
       (range (num_predators self)) = Ok (predator_states next)
  /\ exists moved,
       mapM (fun i => get_entity_state (prey_id i) (base (world self')))
         (range (num_prey self)) = Ok moved
       /\ resolve_captures self state (predator_states next) moved
          = Ok (prey_states next, prey_caught next).
Proof.
  unfold _get_next_state. intros Hrun.
  apply bind_method_Ok in Hrun as (angles & s1 & Hangles & Hrun).
  apply keeps_prey_move_angles in Hangles.
  apply bind_method_Ok in Hrun as (self1 & s2 & Hg & Hrun).
  apply get_self_Ok in Hg as [-> ->].
  apply bind_method_Ok in Hrun as ([] & s3 & Hprey & Hrun).
  apply (keeps_for_each_m _ same_config_refl same_config_trans) in Hprey;
    [| intros; apply keeps_apply_prey_action].
  apply bind_method_Ok in Hrun as ([] & s4 & Hpred & Hrun).
  apply (keeps_for_each_m _ same_config_refl same_config_trans) in Hpred;
    [| intros; apply keeps_apply_predator_action].
  apply bind_method_Ok in Hrun as ([] & s5 & Hsim & Hrun).
  pose proof (on_world_Ok _ _ _ _ Hsim) as Hworld.
  apply keeps_on_world in Hsim.
  apply bind_method_Ok in Hrun as (self2 & s6 & Hg & Hrun).
  apply get_self_Ok in Hg as [-> ->].
  apply bind_method_Ok in Hrun as (npred & s7 & Hnpred & Hrun).
  apply lift_Ok in Hnpred as [Hnpred ->].
  apply bind_method_Ok in Hrun as (nprey & s8 & Hnprey & Hrun).
  apply lift_Ok in Hnprey as [Hnprey ->].
  apply bind_method_Ok in Hrun as ([S C] & s9 & Hres & Hrun).
  apply lift_Ok in Hres as [Hres ->]. apply ret_Ok in Hrun as [Hnext Hself].
  subst next self'. simpl.
  assert (Hcfg : same_config self s5) by eauto using same_config_trans.
  split; [exact Hcfg |]. split; [eauto |].
  destruct Hcfg as (Hnp & Hny & Hod & Hco & Hstrength & Hns & Hho).
  rewrite <- Hnp, <- Hny. split; [exact Hnpred |].
  exists nprey. split; [exact Hnprey |].
  unfold resolve_captures in *. by rewrite <- Hny, <- Hstrength.
Qed.

(** The capture rule of [_get_next_state].  The world the model holds
    when the call returns is the one [simulate] has returned; the next
    state holds the predator states read from that world; and with
    [moved] the prey states read from it, every prey of the next state is
    as [capture_outcome] says: caught before, it keeps its flag; free and
    with at least [prey_strength] predators within the collision
    distance of the state read for it, it is flagged 1; in both cases it
    is stored as (-1, -1, 0, 0, 0, 0); any other prey keeps its flag and
    the state read for it. *)
Theorem next_state_capture_rule (entropy : Amb) (state next : PPState)
    (actions : list PPAction) self self' :
  _get_next_state entropy state actions self = Ok (next, self') ->
  (exists w, simulate (1 / 10) 10 w = Ok (base (world self')))
  /\ mapM (fun i => get_entity_state (pred_id i) (base (world self')))
       (range (num_predators self)) = Ok (predator_states next)
  /\ exists moved,
       mapM (fun i => get_entity_state (prey_id i) (base (world self')))
         (range (num_prey self)) = Ok moved
       /\ forall i, (i < num_prey self)%nat ->
            capture_outcome self state (predator_states next) moved
              (prey_states next) (prey_caught next) i.
Proof.
  intros Hrun.
  apply next_state_read_back in Hrun
    as (_ & Hsim & Hpred & moved & Hprey & Hres).
  split; [exact Hsim |]. split; [exact Hpred |].
  exists moved. split; [exact Hprey |].
  by apply resolve_captures_outcome.
Qed.

End Capture.

End PPCaptureFacts.

(** ** Predator-prey: the moves of the prey *)

Module PPPreyFacts.
Import Py Core PP PyFacts PyMinFacts PPFacts.
#[local] Open Scope R_scope.

Section Prey.
Context {W G Amb : Type}.
Context `{CoreUtils} `{ContinuousWorld W} `{RandomSource G Amb}.
Context (usable : G -> Prop) `{!RandomSourceLaws usable}.
Implicit Types self : PPModel W G.

(** [self.rng.choice(seq)] returns an element of a non-empty [seq] and
    leaves the configuration as it was. *)
Lemma choice_returns (entropy : Amb) (seq : list nat) self :
  seq <> [] ->
  exists k self',
    choice entropy seq self = Ok (k, self') /\ k ∈ seq /\ same_config self self'.
Proof using RandomSourceLaws0.
  intros Hne. unfold choice, draw, rng, bind, get_self, put_self, ret, lift.
  destruct (_rng self) as [g|].
  - destruct (choice_member seq g Hne) as (k & g' & -> & Hk).
    eexists _, _. split; [reflexivity |]. split; [done |]. by repeat split.
  - destruct (choice_member seq (std_random entropy) Hne) as (k & g' & -> & Hk).
    eexists _, _. split; [reflexivity |]. split; [done |]. by repeat split.
Qed.

Lemma uniform_returns (entropy : Amb) (a b : R) self :
  exists v self', uniform entropy a b self = Ok (v, self') /\ same_config self self'.
Proof.
  unfold uniform, draw, rng, bind, get_self, put_self, ret, lift.
  destruct (_rng self) as [g|]; destruct (rng_uniform a b _) as [v g'];
    eexists _, _; (split; [reflexivity | by repeat split]).
Qed.

(** [state.prey_caught.sum()] *)
Lemma sum_flags_insert (flags : list Z) (i : nat) (c v : Z) (a : Z) :
  flags !! i = Some c ->
  fold_left Z.add (<[i := v]> flags) a = (fold_left Z.add flags a - c + v)%Z.
Proof.
  revert i a. induction flags as [|x flags IH]; intros [|i] a Hi; simpl in *;
    try done.
  - injection Hi as ->.
    assert (Hshift : forall l a b, fold_left Z.add l (a + b)%Z
                                   = (fold_left Z.add l a + b)%Z).
    { clear. induction l as [|y l IH]; intros a b; simpl; [done |].
      replace (a + b + y)%Z with (a + y + b)%Z by lia. apply IH. }
    replace (a + v)%Z with (a + c + (v - c))%Z by lia. rewrite Hshift. lia.
  - by apply IH.
Qed.

Lemma sum_flags_ones (flags : list Z) (a : Z) :
  Forall (fun c => c = 1%Z) flags ->
  fold_left Z.add flags a = (a + Z.of_nat (length flags))%Z.
Proof.
  intros Hall. revert a. induction Hall as [|x flags -> _ IH]; intros a; simpl.
  - lia.
  - rewrite IH. lia.
Qed.

(** When the number of active prey is not 1 and prey [i] is active, some
    other prey is active too. *)
Lemma another_active_prey (flags : list Z) (i : nat) :
  Forall (fun c => c = 0%Z \/ c = 1%Z) flags ->
  flags !! i = Some 0%Z ->
  (Z.of_nat (length flags) - fold_left Z.add flags 0 <> 1)%Z ->
  exists j, j <> i /\ flags !! j = Some 0%Z.
Proof.
  intros H01 Hi Hactive.
  destruct (list_find (fun c => c = 0%Z) (<[i := 1%Z]> flags))
    as [[j c]|] eqn:Hfind.
  - apply list_find_Some in Hfind as (Hj & -> & _).
    destruct (decide (j = i)) as [-> | Hne].
    + rewrite list_lookup_insert_eq in Hj by (by eapply lookup_lt_Some).
      discriminate.
    + rewrite list_lookup_insert_ne in Hj by done. eauto.
  - exfalso. apply list_find_None in Hfind.
    assert (Hones : Forall (fun c => c = 1%Z) (<[i := 1%Z]> flags)).
    { apply Forall_forall. intros c Hc.
      assert (Hc01 : c = 0%Z \/ c = 1%Z).
      { apply list_elem_of_lookup in Hc as [k Hk].
        destruct (decide (k = i)) as [-> | Hne].
        - rewrite list_lookup_insert_eq in Hk by (by eapply lookup_lt_Some).
          injection Hk as <-. by right.
        - rewrite list_lookup_insert_ne in Hk by done.
          eapply Forall_lookup_1 in H01; eauto. }
      destruct Hc01 as [-> | ->]; [| done].
      eapply Forall_forall in Hfind; eauto. done. }
    apply (sum_flags_ones _ 0%Z) in Hones.
    rewrite (sum_flags_insert _ _ _ _ _ Hi), length_insert in Hones. lia.
Qed.

(** Lines 686-690: one distance per active prey other than [i]. *)
Definition other_prey_dist_at (state : PPState) (i : nat)
    (prey_state : PMBodyState) (jp : nat * PMBodyState) : list R :=
  match prey_caught state !! jp.1 with
  | Some c =>
      if negb (truthy c) && negb (bool_decide (jp.1 = i))
      then [np_linalg_norm (st_x prey_state - st_x jp.2)
                           (st_y prey_state - st_y jp.2)]
      else []
  | None => []
  end.

Lemma other_prey_dists_spec (state : PPState) (i : nat) (prey_state : PMBodyState) :
  (length (prey_states state) <= length (prey_caught state))%nat ->
  other_prey_dists state i prey_state
  = Ok (flat_map (other_prey_dist_at state i prey_state)
          (enumerate (prey_states state))).
Proof.
  intros Hlen. unfold other_prey_dists.
  rewrite (for_each_appends _ _ (other_prey_dist_at state i prey_state));
    [done |].
  intros acc [j p] Hin. apply enumerate_lt in Hin.
  destruct (getitem_lt (prey_caught state) j) as (c & -> & Hc); [lia |].
  unfold other_prey_dist_at. simpl. rewrite Hc.
  destruct (negb (truthy c) && negb (bool_decide (j = i))); [done |].
  by rewrite app_nil_r.
Qed.

Lemma length_flat_map_le {A B} (f : A -> list B) (l : list A) :
  (forall x, (length (f x) <= 1)%nat) ->
  (length (flat_map f l) <= length l)%nat.
Proof.
  intros Hf. induction l as [|x l IH]; simpl; [done |].
  rewrite length_app. specialize (Hf x). lia.
Qed.

Lemma other_prey_dists_length (state : PPState) (i : nat) (prey_state : PMBodyState) :
  (length (flat_map (other_prey_dist_at state i prey_state)
             (enumerate (prey_states state)))
   <= length (prey_states state))%nat.
Proof.
  etrans; [apply length_flat_map_le |].
  - intros [j p]. unfold other_prey_dist_at.
    destruct (prey_caught state !! _) as [c|]; [| simpl; lia].
    destruct (_ && _); simpl; lia.
  - unfold enumerate. rewrite length_zip, length_seq. lia.
Qed.

Lemma enumerate_lookup {A} (l : list A) (j : nat) (x : A) :
  l !! j = Some x -> (j, x) ∈ enumerate l.
Proof.
  intros Hj. unfold enumerate. apply list_elem_of_lookup. exists j.
  apply lookup_zip_with_Some. exists j, x. split; [done |]. split; [| done].
  apply lookup_seq. split; [done |]. by eapply lookup_lt_Some.
Qed.

Lemma other_prey_dists_nonempty (state : PPState) (i j : nat)
    (prey_state : PMBodyState) :
  j <> i -> prey_caught state !! j = Some 0%Z ->
  (j < length (prey_states state))%nat ->
  flat_map (other_prey_dist_at state i prey_state) (enumerate (prey_states state))
  <> [].
Proof.
  intros Hne Hc Hj Hnil.
  destruct (lookup_lt_is_Some_2 _ _ Hj) as [p Hp].
  apply enumerate_lookup in Hp.
  assert (Hin : np_linalg_norm (st_x prey_state - st_x p) (st_y prey_state - st_y p)
                ∈ flat_map (other_prey_dist_at state i prey_state)
                    (enumerate (prey_states state))).
  { apply list_elem_of_In, in_flat_map. exists (j, p).
    split; [by apply list_elem_of_In |].
    unfold other_prey_dist_at. simpl. rewrite Hc. simpl.
    rewrite bool_decide_eq_false_2 by done. simpl. by left. }
  rewrite Hnil in Hin. by apply elem_of_nil in Hin.
Qed.

(** A prey state is well formed for a model when it holds one state and
    one 0/1 flag per prey. *)
Definition prey_well_formed self (state : PPState) : Prop :=
  length (prey_states state) = num_prey self
  /\ length (prey_caught state) = num_prey self
  /\ Forall (fun c => c = 0%Z \/ c = 1%Z) (prey_caught state).

Lemma falsy_flag (state : PPState) (i : nat) (c : Z) :
  Forall (fun c => c = 0%Z \/ c = 1%Z) (prey_caught state) ->
  prey_caught state !! i = Some c -> truthy c = false -> c = 0%Z.
Proof.
  intros H01 Hc Ht. eapply Forall_lookup_1 in H01 as [-> | ->]; eauto.
  discriminate.
Qed.

(** The move of one prey is computed whenever there is a predator. *)
Lemma prey_move_angle_returns (entropy : Amb) (state : PPState) (i : nat) self0 self :
  prey_well_formed self0 state ->
  predator_states state <> [] ->
  (i < num_prey self0)%nat ->
  let active :=
    (Z.of_nat (num_prey self0) - fold_left Z.add (prey_caught state) 0)%Z in
  exists a self',
    prey_move_angle entropy state active i self = Ok (a, self')
    /\ same_config self self'
    /\ (forall c, prey_caught state !! i = Some c -> truthy c = true -> a = 0).
Proof using RandomSourceLaws0.
  intros (Hlen & Hflags & H01) Hpred Hi active. unfold prey_move_angle.
  unfold bind at 1. unfold get_self.
  destruct (getitem_lt (prey_caught state) i) as (c & Hgc & Hc); [lia |].
  unfold bind at 1. rewrite Hgc. simpl.
  destruct (truthy c) eqn:Htruthy.
  { eexists _, _. split; [reflexivity |]. split; [apply same_config_refl | done]. }
  assert (Hcaught : forall a : R, forall c0, prey_caught state !! i = Some c0 ->
                      truthy c0 = true -> a = 0) by (intros; congruence).
  destruct (getitem_lt (prey_states state) i) as (p & Hgp & Hp); [lia |].
  unfold bind at 1. rewrite Hgp. simpl.
  destruct (py_min_spec (dists_to p (predator_states state)))
    as (m & Hm & Hmin & _).
  { unfold dists_to. destruct (predator_states state); done. }
  unfold bind at 1. rewrite Hm. simpl.
  destruct (Rleb m (obs_dist self)).
  { destruct (np_where_min _ _ Hmin) as [Hne Hidx].
    destruct (choice_returns entropy _ self Hne) as (k & s1 & Hk & Hkin & Hcfg).
    unfold bind at 1. rewrite Hk.
    destruct (getitem_lt (predator_states state) k) as (q & Hgq & _).
    { apply Hidx in Hkin. unfold dists_to in Hkin. by rewrite length_map in Hkin. }
    unfold bind at 1. rewrite Hgq. simpl.
    eexists _, _. split; [reflexivity |]. split; [done | apply Hcaught]. }
  destruct (active =? 1)%Z eqn:Hactive.
  { destruct (uniform_returns entropy 0 (2 * PI) self) as (v & s1 & -> & Hcfg).
    eexists _, _. split; [reflexivity |]. split; [done | apply Hcaught]. }
  unfold bind at 1. rewrite other_prey_dists_spec by lia. simpl.
  assert (Hc0 : c = 0%Z) by (by eapply falsy_flag).
  subst c. apply Z.eqb_neq in Hactive. unfold active in Hactive.
  rewrite <- Hflags in Hactive.
  destruct (another_active_prey _ _ H01 Hc Hactive) as (j & Hne & Hj).
  destruct (py_min_spec (flat_map (other_prey_dist_at state i p)
                           (enumerate (prey_states state))))
    as (m' & Hm' & Hmin' & _).
  { eapply other_prey_dists_nonempty; eauto.
    apply lookup_lt_Some in Hj. lia. }
  unfold bind at 1. rewrite Hm'. simpl.
  destruct (Rleb m' (obs_dist self)).
  { destruct (np_where_min _ _ Hmin') as [Hne' Hidx].
    destruct (choice_returns entropy _ self Hne') as (k & s1 & Hk & Hkin & Hcfg).
    unfold bind at 1. rewrite Hk.
    destruct (getitem_lt (prey_states state) k) as (q & Hgq & _).
    { apply Hidx in Hkin. pose proof (other_prey_dists_length state i p). lia. }
    unfold bind at 1. rewrite Hgq. simpl.
    eexists _, _. split; [reflexivity |]. split; [done | apply Hcaught]. }
  destruct (uniform_returns entropy 0 (2 * PI) self) as (v & s1 & -> & Hcfg).
  eexists _, _. split; [reflexivity |]. split; [done | apply Hcaught].
Qed.

(** The loop of [_get_prey_move_angles] runs to its end. *)
Lemma prey_move_angles_return (entropy : Amb) (state : PPState) self :
  prey_well_formed self state ->
  predator_states state <> [] ->
  exists angles self',
    _get_prey_move_angles entropy state self = Ok (angles, self')
    /\ same_config self self'
    /\ length angles = num_prey self
    /\ (forall i c, prey_caught state !! i = Some c -> truthy c = true ->
          angles !! i = Some 0).
Proof using RandomSourceLaws0.
  intros Hwf Hpred. unfold _get_prey_move_angles, bind at 1, get_self.
  destruct (for_each_m_total_inv
              (fun (handled : list nat) (angles : list R) (s : PPModel W G) =>
                 same_config self s
                 /\ length angles = length handled
                 /\ forall k i c, handled !! k = Some i ->
                      prey_caught state !! i = Some c -> truthy c = true ->
                      angles !! k = Some 0)
              (range (num_prey self))
              (fun prey_actions i =>
                 angle <- prey_move_angle entropy state
                            (Z.of_nat (num_prey self)
                             - fold_left Z.add (prey_caught state) 0)%Z i;
                 ret (prey_actions ++ [angle]))
              [] self) as (angles & self' & Hrun & Hcfg & Hlen & Hzero).
  - split; [apply same_config_refl |]. split; [done |]. intros k i c Hk. done.
  - intros handled i acc s Hi (Hcfg & Hlen & Hzero). apply elem_of_seq in Hi.
    destruct (prey_move_angle_returns entropy state i self s Hwf Hpred)
      as (a & s' & Hrun & Hcfg' & Ha); [lia |].
    exists (acc ++ [a]), s'. unfold bind. rewrite Hrun. split; [done |].
    split; [eauto using same_config_trans |].
    split; [rewrite !length_app; simpl; lia |].
    intros k j c Hk Hc Ht.
    destruct (decide (k < length handled)%nat) as [Hlt | Hge].
    + rewrite lookup_app_l in Hk by done. rewrite lookup_app_l by lia. eauto.
    + rewrite lookup_app_r in Hk by lia. rewrite lookup_app_r by lia.
      rewrite Hlen. destruct (k - length handled)%nat; [| done].
      injection Hk as <-. simpl. f_equal. eauto.
  - exists angles, self'. split; [done |]. split; [done |].
    unfold range in Hlen. rewrite length_seq in Hlen. split; [done |].
    intros i c Hc Ht. apply (Hzero i i c); [| done | done].
    apply range_lookup. apply lookup_lt_Some in Hc.
    destruct Hwf as (_ & Hflags & _). lia.
Qed.

(** What [self.rng.choice(seq)] returns is an element of [seq]. *)
Lemma choice_is_member (entropy : Amb) (seq : list nat) self self' (k : nat) :
  choice entropy seq self = Ok (k, self') -> k ∈ seq.
Proof using RandomSourceLaws0.
  unfold choice, draw, rng, bind, get_self, put_self, ret, lift.
  assert (Hg : forall g g' : G, rng_choice seq g = Ok (k, g') -> k ∈ seq).
  { intros g g' Hc. destruct seq as [|x seq]; [by rewrite choice_empty in Hc |].
    destruct (choice_member (x :: seq) g) as (k0 & g0 & Hc0 & Hk0); [done |].
    congruence. }
  destruct (_rng self) as [g|].
  - destruct (rng_choice seq g) as [[k0 g0]|e] eqn:Hc; [| discriminate].
    intros [= <- <-]. eauto.
  - destruct (rng_choice seq (std_random entropy)) as [[k0 g0]|e] eqn:Hc;
      [| discriminate].
    intros [= <- <-]. eauto.
Qed.

Lemma atan2_origin : atan2 0 0 = 0.
Proof. unfold atan2. rewrite (proj2 (Rltb_false 0 0)) by lra. reflexivity. Qed.

(** The first angle [_get_prey_move_angles] returns is the one computed
    for prey 0 by the model as it was called. *)
Lemma first_prey_move_angle (entropy : Amb) (state : PPState) self self'
    (angles : list R) :
  (0 < num_prey self)%nat ->
  _get_prey_move_angles entropy state self = Ok (angles, self') ->
  exists a self1,
    prey_move_angle entropy state
      (Z.of_nat (num_prey self) - fold_left Z.add (prey_caught state) 0)%Z
      0 self = Ok (a, self1)
    /\ angles !! 0%nat = Some a.
Proof.
  intros Hn. unfold _get_prey_move_angles. intros Hrun.
  apply bind_method_Ok in Hrun as (self0 & s0 & Hg & Hrun).
  apply get_self_Ok in Hg as [-> ->].
  destruct (num_prey self) as [|n] eqn:Hnum; [lia |].
  unfold range in Hrun. rewrite <- cons_seq in Hrun. simpl in Hrun.
  apply bind_method_Ok in Hrun as (acc & s1 & Hstep & Hrun).
  apply bind_method_Ok in Hstep as (a & s2 & Hangle & Hret).
  apply ret_Ok in Hret as [-> ->].
  exists a, s2. split; [done |].
  apply (for_each_m_inv (fun acc => acc !! 0%nat = Some a)) in Hrun; [done | done |].
  intros acc0 x s acc' s' Hacc Hbody.
  apply bind_method_Ok in Hbody as (a' & s3 & _ & Hret).
  apply ret_Ok in Hret as [-> _].
  rewrite lookup_app_l; [done |]. by eapply lookup_lt_Some.
Qed.

(** With two free prey within [obs_dist] of each other and every
    predator further away from prey 0, prey 0 is given the angle 0
    wherever prey 1 is.  The position the code chooses (line 693) is one
    in the list of the distances to the other prey, here 0, and the
    state it then reads (line 696) is [state.prey_states[0]], the state
    of prey 0 itself: the angle is [atan2(0, 0)]. *)
Theorem first_of_two_prey_flees_from_itself (entropy : Amb) (state : PPState)
    self self' (p0 p1 : PMBodyState) (angles : list R) :
  num_prey self = 2%nat ->
  prey_states state = [p0; p1] ->
  prey_caught state = [0; 0]%Z ->
  (forall q, q ∈ predator_states state ->
     obs_dist self < np_linalg_norm (st_x p0 - st_x q) (st_y p0 - st_y q)) ->
  np_linalg_norm (st_x p0 - st_x p1) (st_y p0 - st_y p1) <= obs_dist self ->
  _get_prey_move_angles entropy state self = Ok (angles, self') ->
  angles !! 0%nat = Some 0.
Proof using RandomSourceLaws0.
  intros Hnum Hstates Hflags Hfar Hnear Hrun.
  apply first_prey_move_angle in Hrun as (a & self1 & Hrun & ->); [| lia].
  f_equal. revert Hrun. unfold prey_move_angle.
  rewrite Hnum, Hflags, Hstates. simpl. intros Hrun.
  apply bind_method_Ok in Hrun as (self0 & s0 & Hg & Hrun).
  apply get_self_Ok in Hg as [-> ->].
  apply bind_method_Ok in Hrun as (c & s1 & Hc & Hrun).
  apply lift_Ok in Hc as [[= <-] ->]. simpl in Hrun.
  apply bind_method_Ok in Hrun as (p & s1 & Hp & Hrun).
  apply lift_Ok in Hp as [[= <-] ->].
  apply bind_method_Ok in Hrun as (m & s1 & Hm & Hrun).
  apply lift_Ok in Hm as [Hm ->].
  assert (Hmfar : obs_dist self < m).
  { destruct (py_min_spec (dists_to p0 (predator_states state)))
      as (m' & Hm' & Hin & _).
    { intros Hnil. rewrite Hnil in Hm. discriminate. }
    assert (m' = m) as -> by congruence.
    unfold dists_to in Hin. apply list_elem_of_In, in_map_iff in Hin as (q & <- & Hq).
    apply Hfar. by apply list_elem_of_In. }
  rewrite (proj2 (Rleb_false m (obs_dist self))) in Hrun by done.
  apply bind_method_Ok in Hrun as (ds & s1 & Hds & Hrun).
  apply lift_Ok in Hds as [Hds ->].
  unfold other_prey_dists in Hds. rewrite Hstates, Hflags in Hds.
  simpl in Hds. injection Hds as <-.
  apply bind_method_Ok in Hrun as (d & s1 & Hd & Hrun).
  apply lift_Ok in Hd as [[= <-] ->].
  rewrite (proj2 (Rleb_true _ (obs_dist self))) in Hrun by done.
  apply bind_method_Ok in Hrun as (k & s1 & Hk & Hrun).
  apply choice_is_member in Hk. unfold np_where_eq in Hk. simpl in Hk.
  rewrite (proj2 (Reqb_true _ _)) in Hk by done.
  apply list_elem_of_singleton in Hk as ->.
  apply bind_method_Ok in Hrun as (q & s2 & Hq & Hrun).
  apply lift_Ok in Hq as [[= <-] ->]. apply ret_Ok in Hrun as [-> _].
  unfold angle_away. rewrite !Rminus_diag. apply atan2_origin.
Qed.

(** Nothing of the model changes but its generator. *)
Definition only_rng self self' : Prop := exists g, self' = set_rng self g.

Lemma only_rng_refl self : only_rng self self.
Proof. exists (_rng self). by destruct self. Qed.

Lemma only_rng_trans self1 self2 self3 :
  only_rng self1 self2 -> only_rng self2 self3 -> only_rng self1 self3.
Proof. intros [g ->] [g' ->]. by exists g'. Qed.

Lemma rng_only_rng (entropy : Amb) : keeps only_rng (rng entropy).
Proof.
  intros s g s' Hr. unfold rng in Hr.
  apply bind_method_Ok in Hr as (self & s1 & Hg & Hr).
  apply get_self_Ok in Hg as [-> ->].
  destruct (_rng s).
  - apply ret_Ok in Hr as [_ ->]. apply only_rng_refl.
  - apply bind_method_Ok in Hr as ([] & s2 & Hp & Hr).
    apply put_self_Ok in Hp as ->. apply ret_Ok in Hr as [_ ->]. by eexists.
Qed.

Lemma draw_only_rng {A} (entropy : Amb) (f : G -> Result (A * G)) :
  keeps only_rng (draw entropy f).
Proof.
  unfold draw. apply (keeps_bind _ only_rng_trans); [apply rng_only_rng |].
  intros g. apply (keeps_bind _ only_rng_trans);
    [apply (keeps_lift _ only_rng_refl) |].
  intros [a g'] s b s' Hr.
  apply bind_method_Ok in Hr as (self & s1 & Hg & Hr).
  apply get_self_Ok in Hg as [-> ->].
  apply bind_method_Ok in Hr as ([] & s2 & Hp & Hr).
  apply put_self_Ok in Hp as ->. apply ret_Ok in Hr as [_ ->]. by eexists.
Qed.

(** Decomposes a goal on what a method changes along its structure. *)
Ltac changes_only_rng :=
  repeat match goal with
    | |- keeps _ (choice _ _) => apply draw_only_rng
    | |- keeps _ (uniform _ _ _) => apply draw_only_rng
    | |- keeps _ (ret _) => apply (keeps_ret _ only_rng_refl)
    | |- keeps _ (lift _) => apply (keeps_lift _ only_rng_refl)
    | |- keeps _ get_self => apply (keeps_get_self _ only_rng_refl)
    | |- keeps _ (for_each_m _ _ _) =>
        apply (keeps_for_each_m _ only_rng_refl only_rng_trans); intros
    | |- keeps _ (bind _ _) => apply (keeps_bind _ only_rng_trans); [| intros]
    | |- keeps _ (if ?b then _ else _) => destruct b
    end.

(** [_get_prey_move_angles] draws from the generator and changes nothing
    else of the model. *)
Lemma prey_move_angles_only_rng (entropy : Amb) (state : PPState) :
  keeps only_rng (_get_prey_move_angles entropy state).
Proof. unfold _get_prey_move_angles, prey_move_angle. changes_only_rng. Qed.

(** With at least one predator and a state that holds one state and one
    0/1 flag per prey, [_get_prey_move_angles] raises nothing: the
    minima it takes are of non-empty sequences, the choices are made
    among at least one position and the positions chosen are positions
    of the arrays they index.  It returns one angle per prey, 0 for a
    prey that is caught, and changes nothing of the model but its
    generator: the world and every other attribute are as they were. *)
Theorem prey_move_angles_are_computed (entropy : Amb) (state : PPState) self :
  prey_well_formed self state ->
  predator_states state <> [] ->
  exists angles self',
    _get_prey_move_angles entropy state self = Ok (angles, self')
    /\ (exists g, self' = set_rng self g)
    /\ length angles = num_prey self
    /\ (forall i c, prey_caught state !! i = Some c -> truthy c = true ->
          angles !! i = Some 0).
Proof using RandomSourceLaws0.
  intros Hwf Hpred.
  destruct (prey_move_angles_return entropy state self Hwf Hpred)
    as (angles & self' & Hrun & _ & Hlen & Hcaught).
  exists angles, self'. split; [exact Hrun |].
  split; [exact (prey_move_angles_only_rng _ _ _ _ _ Hrun) | done].
Qed.

End Prey.
End PPPreyFacts.

(** ** Predator-prey: the initial state *)

Module PPInitFacts.
Import Py Core PP PyFacts PPFacts.
#[local] Open Scope R_scope.

(** Reading the first [n] items of a list one by one. *)
Lemma mapM_getitem_take {A B} (f : A -> B) (l : list A) (n : nat) :
  (n <= length l)%nat ->
  mapM (fun i => f <$> getitem l i) (range n) = Ok (map f (take n l)).
Proof.
  intros Hn. unfold range.
  assert (Hgen : forall len t, (t + len <= length l)%nat ->
            mapM (fun i => f <$> getitem l i) (seq t len)
            = Ok (map f (take len (drop t l)))).
  { induction len as [|len IH]; intros t Ht; simpl; [done |].
    destruct (getitem_lt l t) as (a & -> & Ha); [lia |].
    simpl. rewrite IH by lia. simpl.
    rewrite (drop_S _ _ _ Ha). simpl. done. }
  rewrite Hgen by lia. by rewrite drop_0.
Qed.

Section Init.
Context {W G Amb : Type}.
Context `{CoreUtils} `{ContinuousWorld W} `{RandomSource G Amb}.
Context (usable : G -> Prop) `{!RandomSourceLaws usable}.
Implicit Types self : PPModel W G.

(** [self.rng.shuffle(l)] reorders [l] and touches nothing but the
    generator. *)
Lemma shuffle_returns {A} (entropy : Amb) (l : list A) self :
  exists l' self',
    shuffle entropy l self = Ok (l', self') /\ l' ≡ₚ l
    /\ same_config self self' /\ world self' = world self.
Proof using RandomSourceLaws0.
  unfold shuffle, draw, rng, bind, get_self, put_self, ret, lift.
  destruct (_rng self) as [g|].
  - pose proof (shuffle_permutation A l g) as Hperm.
    destruct (rng_shuffle l g) as [l' g'].
    eexists _, _. split; [reflexivity |]. split; [done |]. by repeat split.
  - pose proof (shuffle_permutation A l (std_random entropy)) as Hperm.
    destruct (rng_shuffle l (std_random entropy)) as [l' g'].
    eexists _, _. split; [reflexivity |]. split; [done |]. by repeat split.
Qed.

#[local] Instance body_at_inj : Inj (=) (=) body_at.
Proof.
  intros [[x y] a] [[x' y'] a']. unfold body_at. simpl. intros [= -> -> ->]. done.
Qed.

(** The bodies placed at the first [n] positions of a reordering of the
    start positions: every one of them is at a start position, at rest,
    and no two of them share one. *)
Lemma placed_at_starts (starts shuffled : list Position) (n : nat) :
  shuffled ≡ₚ starts ->
  (n <= length starts)%nat ->
  length (map body_at (take n shuffled)) = n
  /\ (forall s, s ∈ map body_at (take n shuffled) ->
        exists p, p ∈ starts /\ s = body_at p)
  /\ (NoDup starts -> NoDup (map body_at (take n shuffled))).
Proof.
  intros Hperm Hn. split; [| split].
  - rewrite length_map, length_take. apply Permutation_length in Hperm. lia.
  - intros s Hs. apply list_elem_of_In, in_map_iff in Hs as (p & <- & Hp).
    exists p. split; [| done]. rewrite <- Hperm.
    apply list_elem_of_In, elem_of_take in Hp as (i & Hi & _).
    by eapply list_elem_of_lookup_2.
  - intros Hnd. apply (NoDup_fmap_2 body_at).
    rewrite <- Hperm in Hnd. apply (NoDup_app (take n shuffled) (drop n shuffled)).
    by rewrite take_drop.
Qed.

(** What [sample_initial_state] returns. *)
Lemma initial_state_returns (entropy : Amb) self :
  (num_predators self <= length (predator_start_positions (world self)))%nat ->
  (num_prey self <= length (prey_start_positions (world self)))%nat ->
  exists state self',
    sample_initial_state entropy self = Ok (state, self')
    /\ same_config self self' /\ world self' = world self
    /\ length (predator_states state) = num_predators self
    /\ length (prey_states state) = num_prey self
    /\ prey_caught state = replicate (num_prey self) 0%Z
    /\ (forall s, s ∈ predator_states state ->
          exists p, p ∈ predator_start_positions (world self) /\ s = body_at p)
    /\ (forall s, s ∈ prey_states state ->
          exists p, p ∈ prey_start_positions (world self) /\ s = body_at p)
    /\ (NoDup (predator_start_positions (world self)) ->
        NoDup (predator_states state))
    /\ (NoDup (prey_start_positions (world self)) -> NoDup (prey_states state)).
Proof using RandomSourceLaws0.
  intros Hpred Hprey. unfold sample_initial_state, bind at 1, get_self.
  destruct (shuffle_returns entropy (predator_start_positions (world self)) self)
    as (l1 & s1 & Hs1 & Hp1 & Hc1 & Hw1).
  unfold bind at 1. rewrite Hs1.
  unfold bind at 1, lift.
  rewrite mapM_getitem_take by (apply Permutation_length in Hp1; lia).
  destruct (shuffle_returns entropy (prey_start_positions (world self)) s1)
    as (l2 & s2 & Hs2 & Hp2 & Hc2 & Hw2).
  unfold bind at 1. rewrite Hs2.
  unfold bind at 1.
  rewrite mapM_getitem_take by (apply Permutation_length in Hp2; lia).
  eexists _, _. split; [reflexivity |]. simpl.
  destruct (placed_at_starts _ _ _ Hp1 Hpred) as (Hl1 & Hin1 & Hnd1).
  destruct (placed_at_starts _ _ _ Hp2 Hprey) as (Hl2 & Hin2 & Hnd2).
  split; [eauto using same_config_trans |]. split; [congruence |].
  repeat (split; [done |]). done.
Qed.

(** With enough start positions in the world (what the constructor
    checks), [sample_initial_state] returns a state that holds
    [num_predators] predators and [num_prey] prey, each at rest at a
    start position of its kind, no two at the same one when the start
    positions are distinct, and no prey caught.  Only the generator of
    the model changes. *)
Theorem initial_state_placed (entropy : Amb) self :
  (num_predators self <= length (predator_start_positions (world self)))%nat ->
  (num_prey self <= length (prey_start_positions (world self)))%nat ->
  exists state self',
    sample_initial_state entropy self = Ok (state, self')
    /\ same_config self self' /\ world self' = world self
    /\ length (predator_states state) = num_predators self
    /\ length (prey_states state) = num_prey self
    /\ prey_caught state = replicate (num_prey self) 0%Z
    /\ (forall s, s ∈ predator_states state ->
          exists p, p ∈ predator_start_positions (world self) /\ s = body_at p)
    /\ (forall s, s ∈ prey_states state ->
          exists p, p ∈ prey_start_positions (world self) /\ s = body_at p)
    /\ (NoDup (predator_start_positions (world self)) ->
        NoDup (predator_states state))
    /\ (NoDup (prey_start_positions (world self)) -> NoDup (prey_states state)).
Proof using RandomSourceLaws0. apply initial_state_returns. Qed.

End Init.

Section Start.
Context {W G Amb : Type}.
Context `{CoreUtils} `{WorldLaws : ContinuousWorldLaws W} `{RandomSource G Amb}.
Context (usable : G -> Prop) `{!RandomSourceLaws usable}.
Implicit Types self : PPModel W G.

(** What the assertions of the constructor leave of its arguments. *)
Lemma init_Ok (world : WorldArg W) (n_pred n_prey : Z) (coop : bool)
    (strength : option Z) (dist : R) (sensors : nat) (holonomic : bool) self :
  __init__ world n_pred n_prey coop strength dist sensors holonomic = Ok self ->
  exists w,
    chosen_world world = Ok w
    /\ predator_start_positions (PP.world self) = predator_start_positions w
    /\ prey_start_positions (PP.world self) = prey_start_positions w
    /\ num_predators self = Z.to_nat n_pred
    /\ num_prey self = Z.to_nat n_prey
    /\ obs_dist self = dist /\ 0 < dist
    /\ (2 <= n_pred <= 8)%Z /\ (0 < n_prey)%Z
    /\ (n_pred <= Z.of_nat (length (predator_start_positions w)))%Z
    /\ (n_prey <= Z.of_nat (length (prey_start_positions w)))%Z
    /\ cooperative self = coop.
Proof.
  unfold __init__. intros Hrun.
  apply bind_Ok in Hrun as ([] & Hn & Hrun). apply py_assert_Ok in Hn.
  apply bind_Ok in Hrun as ([] & Hp & Hrun). apply py_assert_Ok in Hp.
  apply bind_Ok in Hrun as ([] & Ho & Hrun). apply py_assert_Ok in Ho.
  apply bind_Ok in Hrun as ([] & Hs & Hrun).
  apply bind_Ok in Hrun as (w & Hw & Hrun).
  apply bind_Ok in Hrun as ([] & Hc1 & Hrun). apply py_assert_Ok in Hc1.
  apply bind_Ok in Hrun as ([] & Hc2 & Hrun). apply py_assert_Ok in Hc2.
  apply bind_Ok in Hrun as (w1 & _ & Hrun).
  apply bind_Ok in Hrun as (w2 & _ & [= <-]). simpl.
  apply andb_true_iff in Hn as [Hn1 Hn2].
  apply Z.ltb_lt in Hn1, Hp. apply Z.leb_le in Hn2, Hc1, Hc2.
  apply Rltb_true in Ho.
  exists w. repeat split; try done; lia.
Qed.

(** A model the constructor has built can start an episode:
    [sample_initial_state] returns a state with [num_predators]
    predators, [num_prey] prey and no prey caught, and
    [sample_initial_obs] returns one observation per predator for it.
    None of the two raises. *)
Theorem constructed_model_can_start (entropy : Amb) (world : WorldArg W)
    (n_pred n_prey : Z) (coop : bool) (strength : option Z) (dist : R)
    (sensors : nat) (holonomic : bool) self :
  __init__ world n_pred n_prey coop strength dist sensors holonomic = Ok self ->
  exists state self' obs,
    sample_initial_state entropy self = Ok (state, self')
    /\ length (predator_states state) = Z.to_nat n_pred
    /\ length (prey_states state) = Z.to_nat n_prey
    /\ prey_caught state = replicate (Z.to_nat n_prey) 0%Z
    /\ sample_initial_obs self' state = Ok obs
    /\ length obs = Z.to_nat n_pred.
Proof using RandomSourceLaws0 WorldLaws.
  intros Hinit.
  apply init_Ok in Hinit
    as (w & _ & Hps & Hys & Hnp & Hny & Hod & Hdist & Hn & Hp & Hc1 & Hc2 & _).
  destruct (initial_state_returns usable entropy self)
    as (state & self' & Hrun & Hcfg & _ & Hlp & Hly & Hcaught & _).
  { rewrite Hps, Hnp. lia. }
  { rewrite Hys, Hny. lia. }
  destruct Hcfg as (Hnp' & Hny' & Hod' & _).
  destruct (get_obs_total self' state) as [obs Hobs].
  { rewrite Hod', Hod. lra. }
  { lia. }
  { rewrite Hcaught, length_replicate. lia. }
  exists state, self', obs. rewrite <- Hnp, <- Hny.
  repeat (split; [done |]).
  unfold get_obs, possible_agents in Hobs.
  apply mapM_Ok_length in Hobs. unfold range in Hobs.
  rewrite length_seq in Hobs. lia.
Qed.

End Start.
End PPInitFacts.

(** ** Predator-prey: whole steps *)

Module PPStepFacts.
Import Py Core PP PyFacts PyLoopFacts PPFacts PPRewardFacts PPCaptureFacts.
#[local] Open Scope R_scope.

Section Step.
Context {W G Amb : Type}.
Context `{CoreUtils} `{ContinuousWorld W} `{RandomSource G Amb}.
Implicit Types self : PPModel W G.

(** With every prey flagged in [state], no prey is newly caught. *)
Lemma no_prey_left_no_reward self (state next_state : PPState) (rewards : list R) :
  forallb truthy (prey_caught state) = true ->
  _get_rewards self state next_state = Ok rewards ->
  rewards = map (fun _ => 0) (possible_agents self).
Proof.
  intros Hall Hrun. unfold _get_rewards in Hrun.
  apply bind_Ok in Hrun as (new_caught & Hloop & Hrun).
  apply (for_each_inv (fun acc : list PMBodyState => acc = [])) in Hloop;
    [| done |].
  - subst new_caught. simpl in Hrun. by injection Hrun as <-.
  - intros acc i acc' _ -> Hbody.
    apply bind_Ok in Hbody as (c & Hc & Hbody). apply getitem_Ok in Hc.
    rewrite forallb_forall in Hall.
    rewrite (Hall c) in Hbody; [by injection Hbody as <- |].
    by eapply list_elem_of_In, list_elem_of_lookup_2.
Qed.

(** Once every prey is caught the episode stays finished: a further
    call of [step] that returns reports [all_done] and a termination for
    every agent, rewards every agent with 0, and leaves every flag as it
    was and every prey at the caught state. *)
Theorem finished_episode_stays_finished (entropy : Amb) (state : PPState)
    (actions : list PPAction) self self' (ts : JointTimestep PPState PPObs) :
  forallb truthy (prey_caught state) = true ->
  step entropy state actions self = Ok (ts, self') ->
  ts_all_done ts = true
  /\ ts_terminations ts = replicate (num_predators self) true
  /\ ts_truncations ts = replicate (num_predators self) false
  /\ ts_rewards ts = replicate (num_predators self) 0
  /\ prey_caught (ts_state ts) = prey_caught state
  /\ forall i, (i < num_prey self)%nat ->
       prey_states (ts_state ts) !! i = Some caught_state.
Proof.
  intros Hall Hstep. unfold step in Hstep.
  apply bind_method_Ok in Hstep as (self0 & s1 & Hg & Hstep).
  apply get_self_Ok in Hg as [-> ->].
  apply bind_method_Ok in Hstep as (next & s2 & Hnext & Hstep).
  apply bind_method_Ok in Hstep as (self1 & s3 & Hg & Hstep).
  apply get_self_Ok in Hg as [-> ->].
  apply bind_method_Ok in Hstep as (obs & s4 & Hobs & Hstep).
  apply lift_Ok in Hobs as [Hobs ->].
  apply bind_method_Ok in Hstep as (rewards & s5 & Hrew & Hstep).
  apply lift_Ok in Hrew as [Hrew ->]. apply ret_Ok in Hstep as [Hts Hs]. subst ts self'.
  simpl.
  pose proof (keeps_next_state _ _ _ _ _ _ Hnext) as (Hnp & _).
  apply next_state_captures in Hnext as (self2 & raw & Hcfg & Hres).
  destruct (resolve_captures_length _ _ _ _ _ _ Hres) as [Hlen _].
  pose proof (resolve_captures_outcome _ _ _ _ _ _ Hres) as Hout.
  apply resolve_captures_frozen in Hres as [Hflags _].
  assert (Hsame : prey_caught next = prey_caught state).
  { apply list_eq_same_length with (length (prey_caught state)); [done.. |].
    intros i c' c _ Hc' Hc.
    destruct (Hflags i c Hc) as (c2 & Hc2 & _ & Heq).
    rewrite forallb_forall in Hall.
    rewrite Heq in Hc2; [congruence |].
    apply Hall. by eapply list_elem_of_In, list_elem_of_lookup_2. }
  apply (no_prey_left_no_reward _ _ _ _ Hall) in Hrew.
  unfold possible_agents in *. rewrite !map_const_range in *.
  subst rewards. rewrite Hsame, Hall, Hnp. repeat (split; [done |]).
  intros i Hi. destruct Hcfg as (_ & Hprey & _).
  destruct (Hout i) as (c & s & Hc & _ & Hcase); [by rewrite Hprey |].
  rewrite forallb_forall in Hall.
  rewrite (Hall c) in Hcase by (by eapply list_elem_of_In, list_elem_of_lookup_2).
  apply Hcase.
Qed.

(** The state [_get_next_state] returns holds one state per predator
    and per prey, and as many flags as [state]. *)
Lemma next_state_shape (entropy : Amb) (state next : PPState)
    (actions : list PPAction) self self' :
  _get_next_state entropy state actions self = Ok (next, self') ->
  length (predator_states next) = num_predators self
  /\ length (prey_states next) = num_prey self
  /\ length (prey_caught next) = length (prey_caught state)
  /\ exists moved,
       forall i, (i < num_prey self)%nat ->
         capture_outcome self state (predator_states next) moved
           (prey_states next) (prey_caught next) i.
Proof.
  intros Hrun.
  apply next_state_read_back in Hrun
    as (_ & _ & Hpred & moved & Hprey & Hres).
  apply mapM_Ok_length in Hpred, Hprey.
  unfold range in Hpred, Hprey. rewrite length_seq in Hpred, Hprey.
  destruct (resolve_captures_length _ _ _ _ _ _ Hres) as [HlenC HlenS].
  split; [done |]. split; [lia |]. split; [done |].
  exists moved. by apply resolve_captures_outcome.
Qed.

End Step.

Section MixedStep.
Context {W G Amb : Type}.
Context `{CoreUtils} `{ContinuousWorldLaws W} `{RandomSource G Amb}.
Implicit Types self : PPModel W G.

(** In mixed mode a capture ends the episode with an error: when the
    state [_get_next_state] computes flags a prey that [state] does not,
    and holds the predators at non-negative coordinates, [step] raises
    [ZeroDivisionError].  The caught prey is stored at (-1, -1), out of
    the reach of every predator, before the rewards are shared among
    the predators within reach of it. *)
Theorem capture_ends_mixed_episode (entropy : Amb) (state next : PPState)
    (actions : list PPAction) self self1 :
  cooperative self = false ->
  0 <= obs_dist self ->
  _get_next_state entropy state (clip_actions actions (action_spaces self)) self
  = Ok (next, self1) ->
  (exists i, (i < num_prey self)%nat /\ newly_caught state next i = true) ->
  (forall p, p ∈ predator_states next -> 0 <= st_x p /\ 0 <= st_y p) ->
  step entropy state actions self = Raise ZeroDivisionError.
Proof.
  intros Hcoop Hd Hnext Hnew Hpos.
  pose proof (keeps_next_state _ _ _ _ _ _ Hnext)
    as (Hnp & Hny & Hod & Hco & _).
  destruct (next_state_shape _ _ _ _ _ _ Hnext)
    as (Hlp & Hly & Hlc & moved & Hout).
  assert (Hflags : (num_prey self <= length (prey_caught state))%nat).
  { destruct Hnew as (i & Hi & Hnew). unfold newly_caught in Hnew.
    destruct (le_lt_dec (num_prey self) (length (prey_caught state)));
      [done | exfalso].
    destruct (num_prey self) as [|n] eqn:Hn; [lia |].
    destruct (Hout (length (prey_caught state))) as (c & _ & Hc & _); [lia |].
    apply lookup_lt_Some in Hc. lia. }
  destruct (get_obs_total self1 next) as [obs Hobs]; [lra | lia | lia |].
  assert (Hrew : _get_rewards self1 state next = Raise ZeroDivisionError).
  { apply mixed_rewards_raise; rewrite ?Hny; try done; try lia; try congruence.
    intros i Hi Hinew. destruct (Hout i Hi) as (c & s & Hc & _ & Hcase).
    unfold newly_caught in Hinew. rewrite Hc in Hinew.
    destruct (prey_caught next !! i) as [c'|] eqn:Hc'; [| done].
    apply andb_true_iff in Hinew as [Hfree Hcaught].
    apply negb_true_iff in Hfree. rewrite Hfree in Hcase.
    destruct (bool_decide _); [apply Hcase |].
    destruct Hcase as [Hsame _]. congruence. }
  unfold step, bind, get_self. rewrite Hnext.
  unfold lift. rewrite Hobs, Hrew. reflexivity.
Qed.

End MixedStep.
End PPStepFacts.

(** ** Predator-prey: the default worlds *)

Module PPWorldFacts.
Import Py Core PP PyFacts.
#[local] Open Scope R_scope.

Lemma flat_map_product {A B C} (f : A * B -> list C) (l1 : list A) (l2 : list B) :
  flat_map f (product l1 l2)
  = flat_map (fun a => flat_map (fun b => f (a, b)) l2) l1.
Proof.
  unfold product. induction l1 as [|a l1 IH]; simpl; [done |].
  rewrite flat_map_app, IH. f_equal.
  clear IH. induction l2 as [|b l2 IHb]; simpl; [done | by rewrite IHb].
Qed.

Lemma flat_map_nil_all {A B} (f : A -> list B) (l : list A) :
  (forall a, a ∈ l -> f a = []) -> flat_map f l = [].
Proof.
  induction l as [|a l IH]; intros Hf; simpl; [done |].
  rewrite (Hf a) by left. apply IH. intros b Hb. apply Hf. by right.
Qed.

Lemma flat_map_singletons {A B} (f : A -> list B) (g : A -> B) (l : list A) :
  (forall a, a ∈ l -> f a = [g a]) -> flat_map f l = map g l.
Proof.
  induction l as [|a l IH]; intros Hf; simpl; [done |].
  rewrite (Hf a) by left. simpl. f_equal. apply IH. intros b Hb. apply Hf. by right.
Qed.

Lemma flat_map_agree {A B} (f g : A -> list B) (l : list A) :
  (forall a, a ∈ l -> f a = g a) -> flat_map f l = flat_map g l.
Proof.
  induction l as [|a l IH]; intros Hfg; simpl; [done |].
  rewrite (Hfg a) by left. f_equal. apply IH. intros b Hb. apply Hfg. by right.
Qed.

Lemma flat_map_trim {A B} (f : A -> list B) (first last : A) (mid : list A) :
  f first = [] -> f last = [] ->
  flat_map f (first :: mid ++ [last]) = flat_map f mid.
Proof.
  intros Hfirst Hlast. simpl. rewrite Hfirst, flat_map_app. simpl.
  by rewrite Hlast, !app_nil_r.
Qed.

(** The columns (and rows) of a world of size [n + 2]: the two at the
    border and the [n] between them. *)
Lemma cells_split (n : nat) :
  map Z.of_nat (range (n + 2))
  = 0%Z :: map Z.of_nat (seq 1 n) ++ [Z.of_nat (n + 1)].
Proof.
  unfold range. replace (n + 2)%nat with (S (n + 1)) by lia.
  rewrite <- cons_seq. simpl. f_equal.
  rewrite seq_app, map_app. simpl. do 3 f_equal. lia.
Qed.

Section Starts.
Context {W : Type}.
Context `{CoreUtilsLaws} `{ContinuousWorld W}.

(** The position of the cell in column [col] and row [row]. *)
Definition cell_position (w : W) (cell : Z * Z) : Position :=
  (IZR cell.1 + agent_radius w, IZR cell.2 + agent_radius w, 0).

(** The corners of the world and the middles of its sides. *)
Definition border_cells (size : Z) : list (Z * Z) :=
  [ (0, 0); (0, size / 2); (0, size - 1);
    (size / 2, 0); (size / 2, size - 1);
    (size - 1, 0); (size - 1, size / 2); (size - 1, size - 1) ]%Z.

Lemma predator_starts_without_blocks (w : W) (size : Z) :
  (3 <= size)%Z -> blocks w = [] ->
  default_predator_starts w size = map (cell_position w) (border_cells size).
Proof.
  intros Hsize Hblocks. unfold default_predator_starts, product, in_pair.
  rewrite Hblocks. simpl.
  assert (Hm0 : (size / 2 =? 0)%Z = false).
  { apply Z.eqb_neq. pose proof (Z.div_le_lower_bound size 2 1). lia. }
  assert (Hml : (size / 2 =? size - 1)%Z = false).
  { apply Z.eqb_neq. pose proof (Z.div_lt_upper_bound size 2 (size - 1)). lia. }
  assert (Hl0 : (size - 1 =? 0)%Z = false) by (apply Z.eqb_neq; lia).
  rewrite Hm0, Hml, Hl0, Z.eqb_refl. simpl. rewrite ?orb_true_r. simpl.
  reflexivity.
Qed.

(** The cells that are not at the border. *)
Definition interior (size : Z) : list Z :=
  map Z.of_nat (seq 1 (Z.to_nat size - 2)).

Lemma interior_bounds (size c : Z) : c ∈ interior size -> (1 <= c <= size - 2)%Z.
Proof.
  unfold interior. intros Hc.
  apply list_elem_of_In, in_map_iff in Hc as (k & <- & Hk).
  apply in_seq in Hk. lia.
Qed.

(** A cell that is not at the border is a full cell away from every
    cell of the border. *)
Lemma far_from_border (w : W) (size c r : Z) (p : Position) :
  agent_radius w = 1 / 2 ->
  (1 <= c <= size - 2)%Z -> (1 <= r <= size - 2)%Z ->
  p ∈ map (cell_position w) (border_cells size) ->
  Rltb (euclidean_dist (IZR c + agent_radius w, IZR r + agent_radius w) (pos_xy p))
       (2 * agent_radius w) = false.
Proof.
  intros Hrad Hc Hr Hp. apply Rltb_false. rewrite euclidean_dist_norm, Hrad.
  replace (2 * (1 / 2)) with 1 by lra. rewrite <- sqrt_1 at 1.
  apply sqrt_le_1_alt.
  apply list_elem_of_In, in_map_iff in Hp as ([pc pr] & <- & Hp).
  unfold cell_position, pos_xy. simpl. rewrite Hrad.
  assert (Hside : forall a b : Z, (a + 1 <= b \/ b + 1 <= a)%Z ->
            1 <= (IZR a + 1 / 2 - (IZR b + 1 / 2)) * (IZR a + 1 / 2 - (IZR b + 1 / 2))).
  { intros a b Hab.
    replace (IZR a + 1 / 2 - (IZR b + 1 / 2)) with (IZR (a - b))
      by (rewrite minus_IZR; lra).
    rewrite <- mult_IZR. apply IZR_le. nia. }
  pose proof (fun a b : Z => Rle_0_sqr (IZR a + 1 / 2 - (IZR b + 1 / 2))) as Hsq.
  unfold Rsqr in Hsq.
  assert (Hcase : (pc = 0 \/ pc = size - 1 \/ pr = 0 \/ pr = size - 1)%Z).
  { unfold border_cells in Hp. simpl in Hp.
    repeat (destruct Hp as [[= <- <-] | Hp]; [lia |]). done. }
  destruct Hcase as [-> | [-> | [-> | ->]]].
  - pose proof (Hside c 0%Z ltac:(lia)). pose proof (Hsq r pr). lra.
  - pose proof (Hside c (size - 1)%Z ltac:(lia)). pose proof (Hsq r pr). lra.
  - pose proof (Hside r 0%Z ltac:(lia)). pose proof (Hsq c pc). lra.
  - pose proof (Hside r (size - 1)%Z ltac:(lia)). pose proof (Hsq c pc). lra.
Qed.

Lemma prey_starts_without_blocks (w : W) (size : Z) :
  (3 <= size)%Z -> blocks w = [] -> agent_radius w = 1 / 2 ->
  default_prey_starts w size (map (cell_position w) (border_cells size))
  = map (cell_position w) (product (interior size) (interior size)).
Proof.
  intros Hsize Hblocks Hrad. unfold default_prey_starts.
  rewrite flat_map_product, Hblocks.
  replace (Z.to_nat size) with (Z.to_nat size - 2 + 2)%nat by lia.
  rewrite cells_split. fold (interior size).
  set (last := Z.of_nat (Z.to_nat size - 2 + 1)).
  assert (Hlast : last = (size - 1)%Z) by (unfold last; lia).
  match goal with
  | |- flat_map (fun a => flat_map (fun b => @?f a b) ?l) ?l' = ?rhs =>
      set (body := f); change (flat_map (fun a => flat_map (body a) l) l' = rhs)
  end.
  assert (Hborder_col : forall a b,
            in_pair a 0 (size - 1) = true -> body a b = []).
  { intros a b Ha. unfold body. by rewrite Ha. }
  assert (Hborder_row : forall a b,
            in_pair b 0 (size - 1) = true -> body a b = []).
  { intros a b Hb. unfold body. by rewrite Hb, orb_true_r. }
  assert (Hinside : forall a b, a ∈ interior size -> b ∈ interior size ->
            body a b = [cell_position w (a, b)]).
  { intros a b Ha Hb. apply interior_bounds in Ha, Hb. unfold body, in_pair.
    replace (a =? 0)%Z with false by (symmetry; apply Z.eqb_neq; lia).
    replace (a =? size - 1)%Z with false by (symmetry; apply Z.eqb_neq; lia).
    replace (b =? 0)%Z with false by (symmetry; apply Z.eqb_neq; lia).
    replace (b =? size - 1)%Z with false by (symmetry; apply Z.eqb_neq; lia).
    cbn [orb].
    destruct (existsb _ (map (cell_position w) (border_cells size))) eqn:Hex;
      [exfalso | done].
    apply existsb_exists in Hex as (p & Hp & Hnear).
    rewrite (far_from_border w size a b p) in Hnear; try done.
    by apply list_elem_of_In. }
  assert (Hzero : in_pair 0 0 (size - 1) = true) by done.
  assert (Hl : in_pair last 0 (size - 1) = true).
  { unfold in_pair. rewrite Hlast, Z.eqb_refl. apply orb_true_r. }
  clearbody body. set (cells := 0%Z :: interior size ++ [last]).
  unfold cells at 2.
  rewrite (flat_map_trim (fun a => flat_map (body a) cells)).
  - rewrite <- (flat_map_singletons (fun p => [cell_position w p])) by done.
    rewrite flat_map_product.
    apply flat_map_agree. intros a Ha.
    unfold cells. rewrite (flat_map_trim (body a)) by auto.
    apply flat_map_agree. intros b Hb. by apply Hinside.
  - apply flat_map_nil_all. auto.
  - apply flat_map_nil_all. auto.
Qed.

(** The default worlds without blocks.  For a size of at least 3 and a
    world that holds the blocks and the agent radius it is built with,
    [get_default_world(size, include_blocks=False)] returns a world
    whose predator start positions are the four corners and the middles
    of the four sides, 8 in all, and whose prey start positions are all
    the cells that are not at the border, [(size - 2) ** 2] in all. *)
Theorem default_world_start_positions (size : Z) :
  let w := SquareContinuousWorld (IZR size) [] (1 / 2) in
  (3 <= size)%Z -> blocks w = [] -> agent_radius w = 1 / 2 ->
  exists world,
    get_default_world size false = Ok world
    /\ predator_start_positions world = map (cell_position w) (border_cells size)
    /\ prey_start_positions world
       = map (cell_position w) (product (interior size) (interior size))
    /\ length (predator_start_positions world) = 8%nat
    /\ length (prey_start_positions world)
       = ((Z.to_nat size - 2) * (Z.to_nat size - 2))%nat.
Proof.
  intros w Hsize Hblocks Hrad. unfold get_default_world, PPWorld_init.
  replace (3 <=? size)%Z with true by (symmetry; apply Z.leb_le; lia).
  change (py_assert true) with (Ok tt). rewrite bind_Ok_l. cbv beta zeta.
  change (SquareContinuousWorld (IZR size) [] (1 / 2)) with w.
  rewrite (predator_starts_without_blocks w size Hsize Hblocks).
  rewrite (prey_starts_without_blocks w size Hsize Hblocks Hrad).
  eexists. split; [reflexivity |]. simpl. repeat (split; [done |]).
  unfold product, interior. by rewrite length_map, length_prod, !length_map, !length_seq.
Qed.

End Starts.
End PPWorldFacts.

(** ** Predator-prey: the properties above on the sample models *)

Module PPExamples.
Import Py Core PP PyFacts PPFacts RefLawFacts.
Import PPRewardFacts PPCaptureFacts PPPreyFacts PPInitFacts.
#[local] Open Scope R_scope.

Lemma sample_cooperative_reward :
  _get_rewards (Samples.pp_model None) Samples.pp_state Samples.pp_state_caught
  = Ok (replicate 2 (INR 1 * (R_MAX / INR 1))).
Proof.
  apply (cooperative_rewards_are_shared (Samples.pp_model None));
    [reflexivity | simpl; lia | simpl; lia | simpl; lia].
Defined.

Lemma sample_mixed_reward_raises :
  _get_rewards Samples.pp_mixed_model Samples.pp_state Samples.pp_state_caught
  = Raise ZeroDivisionError.
Proof.
  apply mixed_rewards_divide_by_zero.
  - reflexivity.
  - simpl; lia.
  - simpl; lia.
  - simpl; lia.
  - intros [|i] Hi _; [reflexivity | simpl in Hi; lia].
  - exists 0%nat. split; [simpl; lia | reflexivity].
  - intros p Hp. simpl in Hp.
    apply elem_of_cons in Hp as [-> | Hp];
      [| apply list_elem_of_singleton in Hp as ->]; simpl; lra.
Defined.

Lemma sample_rewards_in_range :
  exists rewards,
    _get_rewards (Samples.pp_model None) Samples.pp_state Samples.pp_state_caught
    = Ok rewards
    /\ Forall2 (fun r range => range.1 <= r <= range.2) rewards
         (reward_ranges (Samples.pp_model None)).
Proof.
  eexists. split; [reflexivity |].
  apply (rewards_within_declared_range (Samples.pp_model None)
           Samples.pp_state Samples.pp_state_caught);
    [simpl; lia | reflexivity].
Defined.

Lemma lt_sqrt (a b : R) : 0 <= a -> a * a < b -> a < sqrt b.
Proof.
  intros Ha Hab. rewrite <- (sqrt_square a) at 1 by done.
  apply sqrt_lt_1; nra.
Qed.

Lemma sample_prey_flees_from_itself :
  exists angles self',
    _get_prey_move_angles 0%Z Samples.pp_two_prey_state Samples.pp_two_prey_model
    = Ok (angles, self')
    /\ angles !! 0%nat = Some 0.
Proof.
  destruct (prey_move_angles_return lcg_state 0%Z Samples.pp_two_prey_state
              Samples.pp_two_prey_model)
    as (angles & self' & Hrun & _).
  - split; [reflexivity |]. split; [reflexivity |].
    repeat (apply Forall_cons; split; [by left |]). apply Forall_nil_2.
  - discriminate.
  - exists angles, self'. split; [exact Hrun |].
    apply (first_of_two_prey_flees_from_itself lcg_state 0%Z
             Samples.pp_two_prey_state Samples.pp_two_prey_model self'
             (mkBody (5 / 2) (5 / 2) 0 0 0 0) (mkBody (7 / 2) (5 / 2) 0 0 0 0));
      [reflexivity | reflexivity | reflexivity | | | exact Hrun].
    + intros q Hq. simpl in Hq. unfold np_linalg_norm.
      apply elem_of_cons in Hq as [-> | Hq];
        [| apply list_elem_of_singleton in Hq as ->];
        simpl; apply lt_sqrt; lra.
    + unfold np_linalg_norm. simpl.
      replace ((5 / 2 - 7 / 2) * (5 / 2 - 7 / 2) + (5 / 2 - 5 / 2) * (5 / 2 - 5 / 2))
        with 1 by lra.
      rewrite sqrt_1. lra.
Defined.

Lemma sample_prey_move_angles :
  exists angles self',
    _get_prey_move_angles 0%Z Samples.pp_state_caught (Samples.pp_model None)
    = Ok (angles, self')
    /\ angles = [0].
Proof.
  destruct (prey_move_angles_are_computed lcg_state 0%Z Samples.pp_state_caught
              (Samples.pp_model None))
    as (angles & self' & Hrun & _ & Hlen & Hzero).
  - split; [reflexivity |]. split; [reflexivity |].
    apply Forall_cons. split; [by right | apply Forall_nil_2].
  - discriminate.
  - exists angles, self'. split; [exact Hrun |].
    specialize (Hzero 0%nat 1%Z eq_refl eq_refl).
    destruct angles as [|a [|b angles]]; simpl in *; try discriminate.
    by injection Hzero as ->.
Defined.

Lemma sample_initial_state_placed :
  exists state self',
    sample_initial_state 0%Z (Samples.pp_model None) = Ok (state, self')
    /\ length (predator_states state) = 2%nat
    /\ prey_caught state = [0%Z].
Proof.
  destruct (initial_state_placed lcg_state 0%Z (Samples.pp_model None))
    as (state & self' & Hrun & _ & _ & Hlen & _ & Hflags & _);
    [simpl; lia | simpl; lia |].
  exists state, self'. auto.
Defined.

End PPExamples.

(** ** Bodies in the square world of the reference engine *)

Module RefWorldFacts.
Import Py Core Ref.
#[local] Open Scope R_scope.

(** One sub-step in a square world: a body inside the world stays
    inside, keeps its velocity and moves by no more than its velocity
    times the length of the sub-step along each axis. *)
Lemma euler_square (side h : R) (s : PMBodyState) :
  0 <= st_x s <= side -> 0 <= st_y s <= side ->
  let s' := euler (Square side) h s in
  st_vx s' = st_vx s /\ st_vy s' = st_vy s
  /\ 0 <= st_x s' <= side /\ 0 <= st_y s' <= side
  /\ Rabs (st_x s' - st_x s) <= Rabs (st_vx s * h)
  /\ Rabs (st_y s' - st_y s) <= Rabs (st_vy s * h).
Proof.
  intros Hx Hy. unfold euler, contain. simpl.
  split; [done |]. split; [done |].
  unfold Rmin.
  destruct (Rle_dec side (st_x s + st_vx s * h)),
    (Rle_dec side (st_y s + st_vy s * h));
    unfold Rmax;
    repeat match goal with
      | |- context [Rle_dec ?a ?b] => destruct (Rle_dec a b)
      end;
    unfold Rabs;
    repeat match goal with
      | |- context [Rcase_abs ?a] => destruct (Rcase_abs a)
      end; repeat split; lra.
Qed.

Lemma iter_euler_square (side h : R) (s : PMBodyState) (n : nat) :
  0 <= st_x s <= side -> 0 <= st_y s <= side ->
  let s' := Nat.iter n (euler (Square side) h) s in
  st_vx s' = st_vx s /\ st_vy s' = st_vy s
  /\ 0 <= st_x s' <= side /\ 0 <= st_y s' <= side
  /\ Rabs (st_x s' - st_x s) <= INR n * Rabs (st_vx s * h)
  /\ Rabs (st_y s' - st_y s) <= INR n * Rabs (st_vy s * h).
Proof.
  intros Hx Hy. induction n as [|n IH].
  - simpl. rewrite !Rminus_diag, Rabs_R0. repeat split; lra.
  - destruct IH as (Hvx & Hvy & Hx' & Hy' & Hdx & Hdy).
    cbv zeta. rewrite S_INR. change (Nat.iter (S n) ?f ?x) with (f (Nat.iter n f x)).
    set (sn := Nat.iter n (euler (Square side) h) s) in *.
    destruct (euler_square side h sn Hx' Hy') as (Hvx1 & Hvy1 & Hx1 & Hy1 & Hdx1 & Hdy1).
    rewrite Hvx in Hdx1. rewrite Hvy in Hdy1.
    split; [congruence |]. split; [congruence |].
    split; [done |]. split; [done |].
    set (s1 := euler (Square side) h sn) in *.
    pose proof (Rabs_triang (st_x s1 - st_x sn) (st_x sn - st_x s)) as Htx.
    pose proof (Rabs_triang (st_y s1 - st_y sn) (st_y sn - st_y s)) as Hty.
    replace (st_x s1 - st_x sn + (st_x sn - st_x s)) with (st_x s1 - st_x s)
      in Htx by lra.
    replace (st_y s1 - st_y sn + (st_y sn - st_y s)) with (st_y s1 - st_y s)
      in Hty by lra.
    split; lra.
Qed.

(** A body that starts inside a square world is, after [n] sub-steps,
    still inside and within [d] of where it started along each axis,
    when [d] is the distance its velocity covers in that time. *)
Lemma moved_within (side h d : R) (s : PMBodyState) (n : nat) :
  0 <= st_x s <= side -> 0 <= st_y s <= side ->
  INR n * Rabs (st_vx s * h) <= d -> INR n * Rabs (st_vy s * h) <= d ->
  let s' := Nat.iter n (euler (Square side) h) s in
  0 <= st_x s' /\ 0 <= st_y s'
  /\ st_x s - d <= st_x s' <= st_x s + d
  /\ st_y s - d <= st_y s' <= st_y s + d.
Proof.
  intros Hx Hy Hdx Hdy.
  destruct (iter_euler_square side h s n Hx Hy) as (_ & _ & Hx' & Hy' & Hmx & Hmy).
  cbv zeta. revert Hmx Hmy. unfold Rabs at 1 3.
  repeat match goal with
    | |- context [Rcase_abs ?a] => destruct (Rcase_abs a)
    end; intros; repeat split; lra.
Qed.

(** Two bodies no further apart than 0.6 along each axis are within the
    collision distance of the predator-prey model. *)
Lemma within_collision_dist (p q : PMBodyState) :
  Rabs (st_x p - st_x q) <= 6 / 10 -> Rabs (st_y p - st_y q) <= 6 / 10 ->
  Rleb (np_linalg_norm (st_x p - st_x q) (st_y p - st_y q)) PP.COLLISION_DIST
  = true.
Proof.
  intros Hx Hy. apply PyFacts.Rleb_true. unfold np_linalg_norm, PP.COLLISION_DIST.
  rewrite <- (sqrt_square (12 / 10)) by lra. apply sqrt_le_1_alt.
  revert Hx Hy. unfold Rabs.
  repeat match goal with
    | |- context [Rcase_abs ?a] => destruct (Rcase_abs a)
    end; intros; nra.
Qed.

End RefWorldFacts.

(** ** Predator-prey: whole steps on the sample models *)

Module PPStepExamples.
Import Py Core PP PyFacts PPFacts RefLawFacts RefWorldFacts.
Import PPRewardFacts PPCaptureFacts PPPreyFacts PPInitFacts PPStepFacts PPWorldFacts.
#[local] Open Scope R_scope.

Lemma sample_capture_run :
  exists next self1,
    _get_next_state 0%Z Samples.pp_state_cornered
      (clip_actions Samples.pp_stay (action_spaces Samples.pp_mixed_model))
      Samples.pp_mixed_model = Ok (next, self1)
    /\ prey_caught next = [1%Z]
    /\ (forall p, p ∈ predator_states next -> 0 <= st_x p /\ 0 <= st_y p).
Proof.
  destruct (prey_move_angles_return lcg_state 0%Z Samples.pp_state_cornered
              Samples.pp_mixed_model)
    as (angles & self0 & Hangles & _ & Hlen & _).
  { split; [reflexivity |]. split; [reflexivity |].
    apply Forall_cons. split; [by left | apply Forall_nil_2]. }
  { discriminate. }
  destruct (prey_move_angles_only_rng _ _ _ _ _ Hangles) as [g ->].
  destruct angles as [|a [|b angles]]; simpl in Hlen; try discriminate.
  clear Hlen.
  eexists _, _. split.
  { unfold _get_next_state.
    apply bind_method_Ok. eexists _, _. split; [exact Hangles |].
    apply bind_method_Ok. eexists _, _.
    split; [cbn -[Nat.iter Ref.euler]; reflexivity |].
    apply bind_method_Ok. eexists _, _.
    split; [cbn -[Nat.iter Ref.euler]; reflexivity |].
    apply bind_method_Ok. eexists _, _.
    split; [cbn -[Nat.iter Ref.euler]; reflexivity |].
    apply bind_method_Ok. eexists _, _.
    split; [cbn -[Nat.iter Ref.euler]; reflexivity |].
    apply bind_method_Ok. eexists _, _.
    split; [cbn -[Nat.iter Ref.euler]; reflexivity |].
    apply bind_method_Ok. eexists _, _.
    split; [cbn -[Nat.iter Ref.euler]; reflexivity |].
    apply bind_method_Ok. eexists _, _.
    split; [cbn -[Nat.iter Ref.euler]; reflexivity |].
    cbn -[Nat.iter Ref.euler].
    set (h := 1 / 10 / _).
    set (b := {| st_x := 5 / 2; st_y := _; st_angle := _;
                 st_vx := _; st_vy := _; st_vangle := _ |}).
    set (b0 := {| st_x := 2; st_y := _; st_angle := _;
                  st_vx := _; st_vy := _; st_vangle := _ |}).
    set (b1 := {| st_x := 3; st_y := _; st_angle := _;
                  st_vx := _; st_vy := _; st_vangle := _ |}).
    set (prey := Nat.iter 10 _ b).
    set (pred0 := Nat.iter 10 _ b0).
    set (pred1 := Nat.iter 10 _ b1).
    assert (Hstay : Rmax (-1) (Rmin 1 0) = 0).
    { unfold Rmax, Rmin. repeat destruct (Rle_dec _ _); lra. }
    assert (Hh : h = 1 / 100) by (unfold h; lra).
    assert (Hspeed : forall v, -1 <= v <= 1 ->
              INR 10 * Rabs (STEP_VEL * v * h) <= 1 / 20).
    { intros v Hv. rewrite Hh. unfold STEP_VEL, Rabs. simpl.
      destruct (Rcase_abs _); lra. }
    assert (Hrest : INR 10 * Rabs (Rmax (-1) (Rmin 1 0) * h) <= 0).
    { rewrite Hstay, Rmult_0_l, Rabs_R0. lra. }
    destruct (moved_within 5 h (1 / 20) b 10) as (_ & _ & Hx & Hy);
      [simpl; lra | simpl; lra | | |].
    { apply Hspeed. pose proof (COS_bound a). lra. }
    { apply Hspeed. pose proof (SIN_bound a). lra. }
    destruct (moved_within 5 h 0 b0 10) as (Hx0' & Hy0' & Hx0 & Hy0);
      [simpl; lra | simpl; lra | exact Hrest | exact Hrest |].
    destruct (moved_within 5 h 0 b1 10) as (Hx1' & Hy1' & Hx1 & Hy1);
      [simpl; lra | simpl; lra | exact Hrest | exact Hrest |].
    fold prey in Hx, Hy. fold pred0 in Hx0', Hy0', Hx0, Hy0.
    fold pred1 in Hx1', Hy1', Hx1, Hy1.
    unfold b in Hx, Hy. unfold b0 in Hx0, Hy0. unfold b1 in Hx1, Hy1.
    cbn [st_x st_y] in Hx, Hy, Hx0, Hy0, Hx1, Hy1.
    assert (Hnear0 : Rleb (np_linalg_norm (st_x prey - st_x pred0)
                             (st_y prey - st_y pred0)) COLLISION_DIST = true).
    { apply within_collision_dist; unfold Rabs; destruct (Rcase_abs _); lra. }
    assert (Hnear1 : Rleb (np_linalg_norm (st_x prey - st_x pred1)
                             (st_y prey - st_y pred1)) COLLISION_DIST = true).
    { apply within_collision_dist; unfold Rabs; destruct (Rcase_abs _); lra. }
    rewrite Hnear0, Hnear1. reflexivity. }
  split; [reflexivity |].
  intros p Hp. cbn [predator_states] in Hp.
  apply elem_of_cons in Hp as [-> | Hp];
    [| apply list_elem_of_singleton in Hp as ->];
    match goal with
    | |- 0 <= st_x (Nat.iter ?n (Ref.euler (Ref.Square ?side) ?h) ?b) /\ _ =>
        destruct (iter_euler_square side h b n) as (_ & _ & Hx & Hy & _);
        [simpl; lra | simpl; lra | split; [apply Hx | apply Hy]]
    end.
Qed.

Lemma sample_capture_rule :
  exists next self1 moved,
    _get_next_state 0%Z Samples.pp_state_cornered
      (clip_actions Samples.pp_stay (action_spaces Samples.pp_mixed_model))
      Samples.pp_mixed_model = Ok (next, self1)
    /\ mapM (fun i => get_entity_state (prey_id i) (base (world self1)))
         (range 1) = Ok moved
    /\ prey_caught next = [1%Z]
    /\ capture_outcome Samples.pp_mixed_model Samples.pp_state_cornered
         (predator_states next) moved (prey_states next) (prey_caught next) 0.
Proof.
  destruct sample_capture_run as (next & self1 & Hnext & Hcaught & _).
  destruct (next_state_capture_rule _ _ _ _ _ _ Hnext)
    as (_ & _ & moved & Hmoved & Hrule).
  exists next, self1, moved.
  split; [exact Hnext |]. split; [exact Hmoved |]. split; [exact Hcaught |].
  apply Hrule. simpl. lia.
Defined.

Lemma sample_capture_ends_mixed_episode :
  step 0%Z Samples.pp_state_cornered Samples.pp_stay Samples.pp_mixed_model
  = Raise ZeroDivisionError.
Proof.
  destruct sample_capture_run as (next & self1 & Hnext & Hcaught & Hpos).
  apply (capture_ends_mixed_episode 0%Z Samples.pp_state_cornered next
           Samples.pp_stay Samples.pp_mixed_model self1).
  - reflexivity.
  - simpl. lra.
  - exact Hnext.
  - exists 0%nat. split; [simpl; lia |].
    unfold newly_caught. rewrite Hcaught. reflexivity.
  - exact Hpos.
Defined.

Lemma sample_finished_episode :
  exists ts self',
    step 0%Z Samples.pp_state_caught Samples.pp_stay (Samples.pp_model (Some 7%Z))
    = Ok (ts, self')
    /\ ts_all_done ts = true
    /\ ts_rewards ts = [0; 0].
Proof.
  destruct sample_step_runs as (ts & self' & Hstep).
  destruct (finished_episode_stays_finished 0%Z Samples.pp_state_caught
              Samples.pp_stay (Samples.pp_model (Some 7%Z)) self' ts)
    as (Hdone & _ & _ & Hrew & _); [reflexivity | exact Hstep |].
  exists ts, self'. auto.
Defined.

Lemma sample_model_can_start :
  exists state self' obs,
    sample_initial_state 0%Z (Samples.pp_model None) = Ok (state, self')
    /\ sample_initial_obs self' state = Ok obs
    /\ length obs = 2%nat.
Proof.
  destruct (constructed_model_can_start lcg_state 0%Z
              (WorldObject Samples.two_start_world) 2 1 true None 2 10 true
              (Samples.pp_model None) init_builds_sample_model)
    as (state & self' & obs & Hstate & _ & _ & _ & Hobs & Hlen).
  exists state, self', obs. auto.
Defined.

Lemma sample_default_world :
  exists world,
    get_default_world (W := Ref.World) 5 false = Ok world
    /\ length (predator_start_positions world) = 8%nat
    /\ length (prey_start_positions world) = 9%nat.
Proof.
  destruct (default_world_start_positions (W := Ref.World) 5)
    as (world & Hworld & _ & _ & Hpred & Hprey);
    [lia | reflexivity | reflexivity |].
  exists world. auto.
Defined.

End PPStepExamples.

(** ** Drone team capture: rewards *)

Module DTCRewardFacts.
Import Py Core DTC PyFacts PyLoopFacts PyMinFacts.
#[local] Open Scope R_scope.

Section Rewards.
Context {W G Amb : Type}.
Context `{CoreUtils} `{ContinuousWorld W} `{RandomSource G Amb}.
Implicit Types self : DroneTeamCaptureModel W G.

(** The distance of pursuer [j] to the target, 0 when the state holds
    no such pursuer. *)
Definition distance_of (state : DTCState) (j : nat) : R :=
  match pursuer_states state !! j with
  | Some p => euclidean_dist (xy p) (xy (target_state state))
  | None => 0
  end.

Lemma target_distance_Ok (state : DTCState) (j : nat) (d : R) :
  _target_distance state j = Ok d
  <-> (j < length (pursuer_states state))%nat /\ d = distance_of state j.
Proof.
  unfold _target_distance, distance_of, getitem.
  destruct (pursuer_states state !! j) as [p|] eqn:Hp; simpl.
  - apply lookup_lt_Some in Hp as Hlt. split.
    + intros [= <-]. done.
    + intros [_ ->]. done.
  - apply lookup_ge_None in Hp. split; [discriminate | lia].
Qed.

(** [_get_closest_pursuer] returns the index of a pursuer that no other
    is closer to the target than, the lowest such index; it raises
    [Exception] when the state holds no pursuer. *)
Theorem closest_pursuer_is_nearest (state : DTCState) :
  match _get_closest_pursuer state with
  | Ok k =>
      (k < length (pursuer_states state))%nat
      /\ forall j, (j < length (pursuer_states state))%nat ->
           distance_of state k <= distance_of state j
           /\ ((j < k)%nat -> distance_of state k < distance_of state j)
  | Raise e => e = Exception /\ pursuer_states state = []
  end.
Proof.
  unfold _get_closest_pursuer.
  set (n := length (pursuer_states state)).
  set (body := fun (best : option (R * nat)) (idx : nat) => _).
  assert (Hloop : exists best,
            for_each (range n) body None = Ok best
            /\ match best with
               | None => n = 0%nat
               | Some (d, k) =>
                   (k < n)%nat /\ d = distance_of state k
                   /\ forall j, (j < n)%nat ->
                        d <= distance_of state j
                        /\ ((j < k)%nat -> d < distance_of state j)
               end).
  { assert (Hgen : forall t, (t <= n)%nat ->
              exists best,
                for_each (range t) body None = Ok best
                /\ match best with
                   | None => t = 0%nat
                   | Some (d, k) =>
                       (k < t)%nat /\ d = distance_of state k
                       /\ forall j, (j < t)%nat ->
                            d <= distance_of state j
                            /\ ((j < k)%nat -> d < distance_of state j)
                   end).
    { induction t as [|t IH]; intros Ht.
      - exists None. done.
      - destruct IH as (best & Hrun & Hbest); [lia |].
        unfold range in *. rewrite seq_S. simpl.
        assert (Happ : forall xs ys acc,
                  for_each (xs ++ ys) body acc
                  = (for_each xs body acc ≫= for_each ys body)).
        { clear. induction xs as [|x xs IHx]; intros ys acc; simpl; [done |].
          destruct (body acc x); simpl; [apply IHx | done]. }
        rewrite Happ, Hrun. simpl. unfold body at 1.
        assert (Hd : _target_distance state t = Ok (distance_of state t)).
        { apply target_distance_Ok. split; [fold n; lia | done]. }
        rewrite Hd. simpl.
        destruct best as [[d k]|].
        + destruct Hbest as (Hk & -> & Hmin).
          destruct (Rltb (distance_of state t) (distance_of state k)) eqn:Hlt.
          * apply Rltb_true in Hlt. eexists. split; [reflexivity |].
            split; [lia |]. split; [done |]. intros j Hj.
            destruct (decide (j = t)) as [-> | Hne]; [split; [lra | lia] |].
            destruct (Hmin j) as [Hle _]; [lia |]. split; [lra |]. intros _. lra.
          * apply Rltb_false in Hlt. eexists. split; [reflexivity |].
            split; [lia |]. split; [done |]. intros j Hj.
            destruct (decide (j = t)) as [-> | Hne]; [split; [lra | lia] |].
            apply Hmin. lia.
        + subst t. eexists. split; [reflexivity |].
          split; [lia |]. split; [done |]. intros j Hj.
          assert (j = 0%nat) as -> by lia. split; [lra | lia]. }
    apply Hgen. lia. }
  destruct Hloop as (best & -> & Hbest). simpl.
  destruct best as [[d k]|].
  - destruct Hbest as (Hk & -> & Hmin). split; [done | exact Hmin].
  - split; [done |]. fold n in Hbest. by apply nil_length_inv.
Qed.

(** What [_get_rewards] returns: the flag says whether some pursuer is
    within the capture radius of the target; the reward of agent [i] is
    [- 0.1 * Q - 0.002 * dist_i], plus 30 if the agent itself is within
    the capture radius, plus 100 if any agent is. *)
Theorem rewards_formula self (state : DTCState) (done : bool) (rewards : list R) :
  _get_rewards self state = Ok (done, rewards) ->
  exists q,
    _q_parameter self state = Ok q
    /\ (done = true <->
        exists j, (j < n_pursuers self)%nat
                  /\ distance_of state j < capture_radius self)
    /\ length rewards = n_pursuers self
    /\ forall i, (i < n_pursuers self)%nat ->
         (i < length (pursuer_states state))%nat
         /\ rewards !! i
            = Some (- q * (1 / 10) - 2 / 1000 * distance_of state i
                    + (if Rltb (distance_of state i) (capture_radius self)
                       then 30 else 0)
                    + (if done then 100 else 0)).
Proof.
  unfold _get_rewards. intros Hrun.
  apply bind_Ok in Hrun as (q & Hq & Hrun). exists q. split; [done |].
  apply bind_Ok in Hrun as ([done0 reward] & Hloop & [= <- <-]).
  set (base := fun i => - q * (1 / 10) - 2 / 1000 * distance_of state i
                        + (if Rltb (distance_of state i) (capture_radius self)
                           then 30 else 0)).
  apply (for_each_range_inv
           (fun t (acc : bool * list R) =>
              (acc.1 = true <->
               exists j, (j < t)%nat /\ distance_of state j < capture_radius self)
              /\ length acc.2 = t
              /\ forall i, (i < t)%nat ->
                   (i < length (pursuer_states state))%nat
                   /\ acc.2 !! i = Some (base i))) in Hloop.
  - destruct Hloop as (Hdone & Hlen & Hrew). simpl in *.
    split; [done |]. split; [by destruct done0; rewrite ?length_map |].
    intros i Hi. destruct (Hrew i Hi) as [Hlt Hri]. split; [done |].
    destruct done0.
    + rewrite list_lookup_fmap, Hri. done.
    + rewrite Hri. simpl. f_equal. unfold base. lra.
  - simpl. split; [| split; [done | lia]].
    split; [discriminate | intros (j & Hj & _); lia].
  - intros t [d r] [d' r'] Ht (Hdone & Hlen & Hrew) Hbody. simpl in *.
    apply bind_Ok in Hbody as (dist & Hdist & Hbody).
    apply target_distance_Ok in Hdist as [Hlt ->].
    assert (Hold : forall x, (forall i, (i < S t)%nat ->
                     (i < length (pursuer_states state))%nat
                     /\ (r ++ [x]) !! i = Some (base i)) <-> x = base t \/ False).
    { intros x. split.
      - intros Hall. destruct (Hall t) as [_ Hx]; [lia |].
        rewrite lookup_app_r, Hlen, Nat.sub_diag in Hx by lia.
        injection Hx as ->. by left.
      - intros [-> | []] i Hi. destruct (decide (i = t)) as [-> | Hne].
        + split; [done |]. by rewrite lookup_app_r, Hlen, Nat.sub_diag by lia.
        + destruct (Hrew i) as [Hl Hr]; [lia |]. split; [done |].
          rewrite lookup_app_l by lia. done. }
    destruct (Rltb (distance_of state t) (capture_radius self)) eqn:Hcap.
    + injection Hbody as <- <-. apply Rltb_true in Hcap. split; [| split].
      * split; [intros _; exists t; split; [lia | done] | done].
      * rewrite length_app. simpl. lia.
      * apply Hold. left. unfold base. rewrite (proj2 (Rltb_true _ _) Hcap). lra.
    + injection Hbody as <- <-. apply Rltb_false in Hcap. split; [| split].
      * rewrite Hdone. split; intros (j & Hj & Hc).
        -- exists j. split; [lia | done].
        -- exists j. split; [| done].
           destruct (decide (j = t)) as [-> | Hne]; [lra | lia].
      * rewrite length_app. simpl. lia.
      * apply Hold. left. unfold base. rewrite (proj2 (Rltb_false _ _) Hcap). lra.
Qed.

End Rewards.
End DTCRewardFacts.

(** ** Drone team capture: the move of the target *)

Module DTCTargetFacts.
Import Py Core DTC PyFacts.
#[local] Open Scope R_scope.

Section Target.
Context {W G Amb : Type}.
Context `{CoreUtils} `{ContinuousWorld W} `{RandomSource G Amb}.
Implicit Types self : DroneTeamCaptureModel W G.

(** Lines 671-688 of [_get_target_move_repulsive]: the sum of the
    repulsions of the pursuers and of the wall. *)
Definition repulsion self (state : DTCState) : list R :=
  let x := st_x (target_state state) in
  let y := st_y (target_state state) in
  let final_vector :=
    fold_left (fun final_vector s =>
                 _scale_vector [st_x s - x; st_y s - y] scale_fn final_vector 1)
              (pursuer_states state) [0; 0] in
  let gamma := - atan2 (y - r_arena self) (x - r_arena self) in
  let virtual_wall :=
    [r_arena self + r_arena self * cos gamma;
     r_arena self + - r_arena self * sin gamma] in
  let vector := zip_with Rminus virtual_wall [x; y] in
  _scale_vector vector scale_fn final_vector
    ((1 / 2) * INR (length (pursuer_states state))).

Lemma scale_vector_pair (a b : R) (f : R -> R) (u v factor : R) :
  exists u' v', _scale_vector [a; b] f [u; v] factor = [u'; v'].
Proof. unfold _scale_vector. simpl. eauto. Qed.

Lemma repulsion_pair self (state : DTCState) :
  exists fx fy, repulsion self state = [fx; fy].
Proof.
  unfold repulsion.
  assert (Hfold : forall l u v,
            exists u' v',
              fold_left (fun final_vector s =>
                           _scale_vector
                             [st_x s - st_x (target_state state);
                              st_y s - st_y (target_state state)]
                             scale_fn final_vector 1) l [u; v] = [u'; v']).
  { induction l as [|s l IH]; intros u v; simpl; [eauto |].
    destruct (scale_vector_pair (st_x s - st_x (target_state state))
                (st_y s - st_y (target_state state)) scale_fn u v 1)
      as (u1 & v1 & ->).
    apply IH. }
  destruct (Hfold (pursuer_states state) 0 0) as (u & v & ->). simpl.
  apply scale_vector_pair.
Qed.

(** When the repulsions do not cancel out, the velocity
    [_get_target_move_repulsive] returns for the target has the
    magnitude of [target_vel]. *)
Theorem target_moves_at_target_vel self (state : DTCState) :
  _abs_sum (repulsion self state) <> 0 ->
  exists vx vy,
    _get_target_move_repulsive self state = Ok (vx, vy)
    /\ np_linalg_norm vx vy = Rabs (target_vel state).
Proof.
  intros Hsum.
  change (_get_target_move_repulsive self state)
    with (let fv := repulsion self state in
          let scaled_move_dir := map (fun v => v / _abs_sum fv) fv in
          dx ← getitem scaled_move_dir 0;
          dy ← getitem scaled_move_dir 1;
          let d := np_linalg_norm dx dy in
          mret (target_vel state * dx / d, target_vel state * dy / d)).
  destruct (repulsion_pair self state) as (fx & fy & Hfv).
  rewrite Hfv in *. simpl.
  set (S := _abs_sum [fx; fy]) in *.
  set (dx := fx / S). set (dy := fy / S).
  set (d := np_linalg_norm dx dy).
  eexists _, _. split; [reflexivity |].
  assert (HS : S = Rabs fx + Rabs fy) by (unfold S, _abs_sum; simpl; lra).
  assert (Hnz : dx * dx + dy * dy <> 0).
  { intros Hz.
    assert (Hdx : dx = 0) by nra. assert (Hdy : dy = 0) by nra.
    unfold dx, dy in Hdx, Hdy.
    assert (fx = 0).
    { apply Rmult_eq_reg_r with (/ S); [| by apply Rinv_neq_0_compat].
      unfold Rdiv in Hdx. lra. }
    assert (fy = 0).
    { apply Rmult_eq_reg_r with (/ S); [| by apply Rinv_neq_0_compat].
      unfold Rdiv in Hdy. lra. }
    subst fx fy. rewrite Rabs_R0 in HS. lra. }
  assert (Hd : 0 < d).
  { unfold d, np_linalg_norm. apply sqrt_lt_R0.
    assert (0 <= dx * dx + dy * dy) by nra. lra. }
  assert (Hdd : d * d = dx * dx + dy * dy).
  { unfold d, np_linalg_norm. apply sqrt_sqrt. nra. }
  unfold np_linalg_norm.
  replace (target_vel state * dx / d * (target_vel state * dx / d)
           + target_vel state * dy / d * (target_vel state * dy / d))
    with (Rsqr (target_vel state)); [apply sqrt_Rsqr_abs |].
  unfold Rsqr.
  transitivity (target_vel state * target_vel state
                * ((dx * dx + dy * dy) / (d * d))); [| field; lra].
  rewrite <- Hdd. field. lra.
Qed.

End Target.
End DTCTargetFacts.

(** ** Drone team capture: the initial state *)

Module DTCInitFacts.
Import Py Core DTC PyFacts.
#[local] Open Scope R_scope.

Section Init.
Context {W G Amb : Type}.
Context `{CoreUtils} `{ContinuousWorld W} `{RandomSource G Amb}.
Context (usable : G -> Prop) `{!RandomSourceLaws usable}.
Implicit Types self : DroneTeamCaptureModel W G.

(** The generator of the model, if it holds one, is in a state a
    generator can be in. *)
Definition usable_rng self : Prop :=
  match _rng self with Some g => usable g | None => True end.

(** [self.rng.random()] returns a number of [0, 1) and changes nothing
    of the model but its generator. *)
Lemma rng_draw_returns (entropy : Amb) self :
  usable_rng self ->
  exists v g',
    rng_draw entropy self = Ok (v, set_rng self (Some g'))
    /\ 0 <= v < 1 /\ usable g'.
Proof using RandomSourceLaws0.
  intros Hrng. unfold rng_draw, rng, bind, get_self, put_self, ret.
  unfold usable_rng in Hrng.
  destruct (_rng self) as [g|] eqn:Hg.
  - pose proof (random_unit g Hrng) as Hv.
    pose proof (random_usable g Hrng) as Hg'.
    destruct (rng_random g) as [v g']. exists v, g'. done.
  - pose proof (random_unit _ (std_random_usable entropy)) as Hv.
    pose proof (random_usable _ (std_random_usable entropy)) as Hg'.
    destruct (rng_random (std_random entropy)) as [v g']. exists v, g'. done.
Qed.

(** [sample_initial_state]: the pursuers stand at rest on the line
    [y = arena_size], 50 apart, pursuer [n // 2] at the centre of the
    arena; the previous states are the current ones; the target is at
    rest within 0.7 arena sizes of the centre along both axes, so
    strictly inside the arena, and its speed is at least 0.5 and less
    than 2 times the speed of a pursuer (10).  Nothing of the model
    changes but its generator. *)
Theorem initial_state_geometry (entropy : Amb) self :
  usable_rng self ->
  0 < r_arena self ->
  exists state g',
    sample_initial_state entropy self = Ok (state, set_rng self (Some g'))
    /\ usable g'
    /\ pursuer_states state
       = map (fun i : nat =>
                mkBody (50 * (- INR (n_pursuers self / 2) + INR i) + r_arena self)
                  (r_arena self) 0 0 0 0)
           (range (n_pursuers self))
    /\ prev_pursuer_states state = pursuer_states state
    /\ prev_target_state state = target_state state
    /\ (exists x y, target_state state = mkBody x y 0 0 0 0
          /\ Rabs (x - r_arena self) <= 7 / 10 * r_arena self
          /\ Rabs (y - r_arena self) <= 7 / 10 * r_arena self
          /\ (x - r_arena self) * (x - r_arena self)
             + (y - r_arena self) * (y - r_arena self)
             < r_arena self * r_arena self)
    /\ 1 / 2 * max_pursuer_vel <= target_vel state < 2 * max_pursuer_vel.
Proof using RandomSourceLaws0.
  intros Hrng Hr. unfold sample_initial_state.
  unfold bind at 1, get_self.
  destruct (rng_draw_returns entropy self Hrng) as (u1 & g1 & Hd1 & Hu1 & Hg1).
  unfold bind at 1. rewrite Hd1.
  destruct (rng_draw_returns entropy (set_rng self (Some g1)) Hg1)
    as (u2 & g2 & Hd2 & Hu2 & Hg2).
  unfold bind at 1. rewrite Hd2.
  destruct (rng_draw_returns entropy (set_rng (set_rng self (Some g1)) (Some g2)) Hg2)
    as (u3 & g3 & Hd3 & Hu3 & Hg3).
  simpl. unfold bind at 1. rewrite Hd3.
  exists (mkState
            (map (fun i : nat =>
                    mkBody (50 * (- INR (n_pursuers self / 2) + INR i) + r_arena self)
                      (r_arena self) 0 0 0 0)
               (range (n_pursuers self)))
            (map (fun i : nat =>
                    mkBody (50 * (- INR (n_pursuers self / 2) + INR i) + r_arena self)
                      (r_arena self) 0 0 0 0)
               (range (n_pursuers self)))
            (mkBody (u1 * (r_arena self * (7 / 10) * 2) - r_arena self * (7 / 10)
                     + r_arena self)
                    (u2 * (r_arena self * (7 / 10) * 2) - r_arena self * (7 / 10)
                     + r_arena self) 0 0 0 0)
            (mkBody (u1 * (r_arena self * (7 / 10) * 2) - r_arena self * (7 / 10)
                     + r_arena self)
                    (u2 * (r_arena self * (7 / 10) * 2) - r_arena self * (7 / 10)
                     + r_arena self) 0 0 0 0)
            ((u3 * (2 - 1 / 2) + 1 / 2) * max_pursuer_vel)),
         g3.
  split; [reflexivity |]. split; [done |]. simpl.
  split; [done |]. split; [done |]. split; [done |]. split.
  - eexists _, _. split; [reflexivity |].
    set (r := r_arena self) in *.
    assert (Hx : Rabs (u1 * (r * (7 / 10) * 2) - r * (7 / 10) + r - r)
                 <= 7 / 10 * r) by (apply Rabs_le; nra).
    assert (Hy : Rabs (u2 * (r * (7 / 10) * 2) - r * (7 / 10) + r - r)
                 <= 7 / 10 * r) by (apply Rabs_le; nra).
    split; [done |]. split; [done |].
    clear Hx Hy.
    assert (Hab : forall u, 0 <= u < 1 ->
              let a := u * (r * (7 / 10) * 2) - r * (7 / 10) + r - r in
              a * a <= (7 / 10 * r) * (7 / 10 * r)).
    { intros u Hu a.
      assert (- (7 / 10 * r) <= a <= 7 / 10 * r) by (unfold a; nra). nra. }
    pose proof (Hab u1 Hu1) as Ha. pose proof (Hab u2 Hu2) as Hb.
    simpl in Ha, Hb. nra.
  - unfold max_pursuer_vel. lra.
Qed.

End Init.
End DTCInitFacts.

(** ** Sorting by key *)

Module PySortFacts.
Import Py PyFacts.
#[local] Open Scope R_scope.




Section Sorted.
Context {A : Type} (key : A -> Key).






End Sorted.
End PySortFacts.

(** ** Drone team capture: observations *)

Module DTCObsFacts.
Import Py Core DTC PyFacts PyLoopFacts PyMinFacts PySortFacts DTCFacts.
#[local] Open Scope R_scope.

Section Observation.
Context {W G Amb : Type}.
Context `{CoreUtils} `{ContinuousWorld W} `{RandomSource G Amb}.
Implicit Types self : DroneTeamCaptureModel W G.



(** With fewer engagements than [n_com_pursuers] the loop runs out of
    them. *)
Lemma com_loop_raises (eng : list (R * R)) (n_com : nat) (obs_i : list R) :
  (length eng < n_com)%nat ->
  for_each (range n_com)
    (fun obs_i idx =>
       a ← getitem (map fst eng) idx;
       d ← getitem (map snd eng) idx;
       mret (obs_i ++ [a; d]))
    obs_i = Raise IndexError.
Proof.
  intros Hlt. unfold range.
  replace n_com with (length eng + S (n_com - length eng - 1))%nat by lia.
  rewrite seq_app, for_each_app.
  destruct (for_each_total (seq 0 (length eng))
              (fun obs_i idx =>
                 a ← getitem (map fst eng) idx;
                 d ← getitem (map snd eng) idx;
                 mret (obs_i ++ [a; d])) obs_i) as [acc ->].
  { intros acc idx Hidx. apply elem_of_seq in Hidx.
    destruct (getitem_lt (map fst eng) idx) as (a & -> & _);
      [rewrite length_map; lia |].
    destruct (getitem_lt (map snd eng) idx) as (d & -> & _);
      [rewrite length_map; lia |].
    simpl. eauto. }
  simpl.
  assert (Hout : getitem (map fst eng) (length eng) = Raise IndexError).
  { unfold getitem.
    rewrite (proj2 (lookup_ge_None _ _)) by (rewrite length_map; lia). done. }
  rewrite Hout. done.
Qed.








(** The constructor does not compare [n_communicating_pursuers] with
    the number of pursuers.  With more of the former, [_get_obs] raises
    [IndexError]: every pursuer has [n_pursuers] engagements, its own
    included, and the loop of lines 577-579 reads
    [n_communicating_pursuers] of them. *)
Theorem observation_needs_enough_pursuers self (state : DTCState) :
  (n_pursuers self < n_com_pursuers self)%nat ->
  (0 < n_pursuers self)%nat ->
  (n_pursuers self <= length (pursuer_states state))%nat ->
  (n_pursuers self <= length (prev_pursuer_states state))%nat ->
  (forall a d v a' d' v', exists rates,
      target_rates self a d v a' d' v' = Ok rates) ->
  _get_obs self state = Raise IndexError.
Proof.
  intros Hcom Hn Hlen Hprev Hrates. unfold _get_obs, range.
  destruct (n_pursuers self) as [|n] eqn:Hnum; [lia |].
  rewrite <- cons_seq. simpl.
  assert (Hfirst : obs_of_pursuer self state 0 = Raise IndexError); [| by rewrite Hfirst].
  unfold obs_of_pursuer.
  destruct (getitem_lt (pursuer_states state) 0) as (p_i & -> & _); [lia |].
  rewrite bind_Ok_l.
  destruct (_engagement self p_i _ _) as [[alpha_t dist_t] vis].
  destruct (getitem_lt (prev_pursuer_states state) 0) as (q_i & -> & _); [lia |].
  rewrite bind_Ok_l.
  destruct (_engagement self q_i _ _) as [[alpha_p dist_p] vis_p].
  destruct (Hrates alpha_t dist_t vis alpha_p dist_p vis_p) as [rates ->].
  rewrite bind_Ok_l. unfold relative_engagement.
  destruct (mapM_total
              (fun j : nat =>
                 if decide (j = 0%nat) then Ok (-1, -1)
                 else p_j ← getitem (pursuer_states state) j;
                      mret (_engagement self p_i p_j (2 * r_arena self)).1)
              (range (n_pursuers self))) as [engagement Heng].
  { intros j Hj. apply elem_of_seq in Hj. destruct (decide (j = 0%nat)); [eauto |].
    destruct (getitem_lt (pursuer_states state) j) as (p_j & -> & _); [lia |].
    rewrite bind_Ok_l. eauto. }
  rewrite Heng, !bind_Ok_l.
  apply mapM_Ok_length in Heng. unfold range in Heng. rewrite length_seq in Heng.
  pose proof (length_sorted engagement_key engagement) as Hsorted.
  destruct (sorted engagement_key engagement) as [|e0 sorted_eng] eqn:Hs;
    [simpl in Hsorted; lia |].
  rewrite bind_Ok_l. apply com_loop_raises. lia.
Qed.


End Observation.

Section FirstObservation.
Context {W G Amb : Type}.
Context `{CoreUtilsLaws} `{ContinuousWorld W} `{RandomSource G Amb}.
Implicit Types self : DroneTeamCaptureModel W G.


End FirstObservation.
End DTCObsFacts.

(** ** Drone team capture: the properties above on the sample models *)

Module DTCExamples.
Import Py Core DTC PyFacts DTCFacts RefLawFacts.
Import DTCRewardFacts DTCTargetFacts DTCInitFacts DTCObsFacts.
#[local] Open Scope R_scope.

Lemma sample_rewards_formula :
  exists r0 r1 q,
    _get_rewards Samples.dtc_model Samples.dtc_state = Ok (false, [r0; r1])
    /\ _q_parameter Samples.dtc_model Samples.dtc_state = Ok q
    /\ [r0; r1] !! 0%nat
       = Some (- q * (1 / 10) - 2 / 1000 * distance_of Samples.dtc_state 0
               + (if Rltb (distance_of Samples.dtc_state 0)
                       (capture_radius Samples.dtc_model)
                  then 30 else 0)
               + 0).
Proof.
  destruct sample_rewards as (r0 & r1 & Hrun & _).
  destruct (rewards_formula Samples.dtc_model Samples.dtc_state false [r0; r1] Hrun)
    as (q & Hq & _ & _ & Hrew).
  exists r0, r1, q. split; [exact Hrun |]. split; [exact Hq |].
  apply (Hrew 0%nat). simpl. lia.
Defined.

Lemma atan2_ahead (x : R) : 0 < x -> atan2 0 x = 0.
Proof.
  intros Hx. unfold atan2. rewrite (proj2 (Rltb_true 0 x)) by done.
  unfold Rdiv. rewrite Rmult_0_l. apply atan_0.
Qed.

(** Evaluates the absolute values and maxima of known sign. *)
Ltac signs :=
  repeat match goal with
    | |- context [Rabs ?x] =>
        first [rewrite (Rabs_right x) by lra | rewrite (Rabs_left x) by lra]
    | |- context [Rmax ?a ?b] =>
        first [rewrite (Rmax_right a b) by lra | rewrite (Rmax_left a b) by lra]
    end.

(** In the sample state the two pursuers push the target away by more
    than the wall pushes it back. *)
Lemma sample_repulsion_nonzero :
  _abs_sum (repulsion Samples.dtc_model Samples.dtc_state) <> 0.
Proof.
  unfold repulsion, _scale_vector, _abs_sum, scale_fn. simpl.
  replace (430 - 430) with 0 by lra.
  rewrite atan2_ahead by lra. rewrite Ropp_0, cos_0, sin_0.
  signs.
  match goal with
  | |- 0 + Rabs ?X + ?Y <> 0 =>
      replace X with (125 / 441 + 500 / 1369 - 125 / 529) by (field; lra);
      replace Y with 0 by (field; lra)
  end.
  rewrite Rabs_right by lra. lra.
Qed.

Lemma sample_target_speed :
  exists vx vy,
    _get_target_move_repulsive Samples.dtc_model Samples.dtc_state = Ok (vx, vy)
    /\ np_linalg_norm vx vy = Rabs (target_vel Samples.dtc_state).
Proof.
  apply (target_moves_at_target_vel Samples.dtc_model Samples.dtc_state).
  apply sample_repulsion_nonzero.
Defined.

Lemma sample_initial_state_geometry :
  exists state g',
    sample_initial_state 0%Z Samples.dtc_model
    = Ok (state, set_rng Samples.dtc_model (Some g'))
    /\ 1 / 2 * max_pursuer_vel <= target_vel state < 2 * max_pursuer_vel.
Proof.
  destruct (initial_state_geometry lcg_state 0%Z Samples.dtc_model)
    as (state & g' & Hrun & _ & _ & _ & _ & _ & Hvel).
  - exact I.
  - simpl. lra.
  - exists state, g'. split; [exact Hrun | exact Hvel].
Defined.


Lemma sample_observation_raises :
  _get_obs Samples.dtc_overcommunicating_model Samples.dtc_state
  = Raise IndexError.
Proof.
  apply observation_needs_enough_pursuers;
    [simpl; lia | simpl; lia | simpl; lia | simpl; lia |].
  intros. apply clamping_target_rates_return.
Defined.



End DTCExamples.
